(** * FabricFusion: the image-fusion core of [app.py]

    A shallow embedding of [SimpleFabricFusion] (loading, resizing, tiling and
    blending) and the properties its specification states about it.

    Data model.  A numpy image of dtype [uint8] and shape [(H, W, C)] is a list
    of [H] rows, each a list of [W] pixels, each a list of [C] channel values in
    [0, 255].  numpy's [float64] arrays are the same nesting over Rocq's
    primitive binary64 floats, whose operations are the IEEE 754 ones Python
    and numpy compute with. *)

From Stdlib Require Import ZArith Lia Bool String Ascii Floats.
From stdpp Require Import base list strings.

Local Open Scope nat_scope.

(** ** Arrays of shape (H, W, C) *)

Abbreviation array3 A := (list (list (list A))).

(** A pixel is its list of channel values; a raster is a [uint8] image. *)
Abbreviation pixel := (list Z).
Abbreviation raster := (list (list (list Z))).

Definition height {A} (r : array3 A) : nat := length r.
Definition width {A} (r : array3 A) : nat := length (default [] (head r)).
Definition chans {A} (r : array3 A) : nat :=
  length (default [] (head (default [] (head r)))).

(** [r.shape == (h, w, c)]: every row has [w] pixels and every pixel [c]
    channels. *)
Definition has_shape {A} (h w c : nat) (r : array3 A) : Prop :=
  length r = h ∧
  Forall (λ row, length row = w ∧ Forall (λ px, length px = c) row) r.

(** [r[y, x]] *)
Definition pixel_at {A} (r : array3 A) (y x : nat) : option (list A) :=
  r !! y ≫= (.!! x).

(** Every channel is an 8-bit value. *)
Definition is_uint8 (v : Z) : Prop := (0 ≤ v ≤ 255)%Z.
Definition uint8_raster (r : raster) : Prop :=
  Forall (Forall (Forall is_uint8)) r.

(** ** binary64 values

    Python's [float] and numpy's [float64] are IEEE 754 binary64, as are Rocq's
    primitive floats: [+], [-], [*], [/] and the comparisons below are the
    correctly rounded operations the interpreter performs. *)

Module F64.

Local Open Scope float_scope.

(** [float(n)] for a machine-size non-negative integer (exact below 2^53). *)
Definition of_int (n : Z) : float := PrimFloat.of_uint63 (Uint63.of_Z n).
Definition of_nat (n : nat) : float := of_int (Z.of_nat n).

(** The signed integer mantissa of a finite value [m * 2^e]. *)
Definition signed (s : bool) (m : positive) : Z := cond_Zopp s (Zpos m).

(** [int(x)]: truncation toward zero; [None] where Python raises
    ([ValueError] on a NaN, [OverflowError] on an infinity). *)
Definition trunc_SF (x : spec_float) : option Z :=
  match x with
  | S754_zero _ => Some 0%Z
  | S754_finite s m e =>
      Some (if (0 <=? e)%Z then (signed s m * 2 ^ e)%Z
            else Z.quot (signed s m) (2 ^ (- e)))
  | S754_infinity _ | S754_nan => None
  end.

Definition py_int (x : float) : option Z := trunc_SF (Prim2SF x).

(** [int(np.ceil(x))]: the least integer not below [x]. *)
Definition ceil_SF (x : spec_float) : option Z :=
  match x with
  | S754_zero _ => Some 0%Z
  | S754_finite s m e =>
      Some (if (0 <=? e)%Z then (signed s m * 2 ^ e)%Z
            else (- ((- signed s m) / 2 ^ (- e)))%Z)
  | S754_infinity _ | S754_nan => None
  end.

Definition py_int_ceil (x : float) : option Z := ceil_SF (Prim2SF x).

(** [x.astype(np.uint8)] on one element: the fractional part is dropped; a
    value outside [0, 256) would wrap around modulo 256 (what the C cast does
    on the usual platforms). *)
Definition astype_uint8 (x : float) : Z :=
  match py_int x with
  | Some z => (z mod 256)%Z
  | None => 0%Z
  end.

(** The same conversion with saturation instead of wrap-around. *)
Definition clamp_uint8 (x : float) : Z :=
  match py_int x with
  | Some z => Z.max 0 (Z.min 255 z)
  | None => 0%Z
  end.

(** A [uint8] value as a [float64] (exact). *)
Definition of_uint8 (v : Z) : float := of_int v.

(** [v / 255.0] *)
Definition norm (v : Z) : float := of_uint8 v / 255.

(** [x] lies in [[n, n + 1)] for the 8-bit value [n]: a test by comparisons,
    without decoding [x]. *)
Definition byte_is (n : Z) (x : float) : bool :=
  (0 <=? n)%Z && (n <=? 255)%Z && (of_int n <=? x) && (x <? of_int (n + 1)).

(** A binary search for the integer part of [x] in [[0, 2^bits)], above
    [acc]. *)
Fixpoint byte_search (bits : nat) (acc : Z) (x : float) : Z :=
  match bits with
  | O => acc
  | S b =>
      let t := (acc + 2 ^ Z.of_nat b)%Z in
      if of_int t <=? x then byte_search b t x else byte_search b acc x
  end.

Definition byte_guess (x : float) : Z := byte_search 8 0 x.

End F64.

(** ** The rounding of binary64 operations

    The definitions used to state what [SpecFloat]'s rounding algorithm
    computes; the facts about them are proved below. *)

Module Binary64.

Local Open Scope Z_scope.

(** The exponent of the unit in the last place for a value of magnitude [d]. *)
Definition fexp64 (d : Z) : Z := Z.max (d - 53) (-1074).

(** What a shift record says about the number [N / U] it approximates: [m]
    is its integer part and the two bits locate the remainder with respect
    to the half. *)
Definition loc_ok (a b : Z) (r s : bool) : Prop :=
  match r, s with
  | false, false => a = 0
  | false, true => 0 < a < b
  | true, false => a = b
  | true, true => b < a
  end.

Definition shr_inv (N U : Z) (mrs : shr_record) : Prop :=
  0 ≤ shr_m mrs ∧ shr_m mrs * U ≤ N < (shr_m mrs + 1) * U ∧
  loc_ok (2 * (N - shr_m mrs * U)) U (shr_r mrs) (shr_s mrs).

(** The exponent scale used to compare values: [P e = 2^(e + 2200)]. *)
Definition P (e : Z) : Z := 2 ^ (e + 2200).

(** The rounded mantissa and exponent computed by [binary_round_aux], before
    the final classification. *)
Definition rounded (mx ex : Z) (lx : location) : Z * Z :=
  let '(mrs1, e1) := shr_fexp prec emax mx ex lx in
  (round_nearest_even (shr_m mrs1) (loc_of_shr_record mrs1), e1).

Definition classify_rounded (sx : bool) (mr er : Z) : spec_float :=
  let '(mrs2, e2) := shr_fexp prec emax mr er loc_Exact in
  match shr_m mrs2 with
  | Z0 => S754_zero sx
  | Zpos m => if e2 <=? 971 then S754_finite sx m e2 else S754_infinity sx
  | Zneg _ => S754_nan
  end.

(** The rounded mantissa fits the exponent, so that the second normalisation
    is exact: it leaves the value, or halves [2^53] once. *)
Definition fits (mr er : Z) : Prop :=
  mr = 0 ∨ fexp64 (Zdigits2 mr + er) ≤ er ∨
  (mr = 2 ^ 53 ∧ fexp64 (54 + er) = er + 1).

(** The value [r] that classifying the rounded mantissa [mr * 2^er] gives. *)
Definition round_result (sx : bool) (mr er : Z) (r : spec_float) : Prop :=
  (mr = 0 ∧ r = S754_zero sx) ∨
  ∃ m2 e2, ((e2 = er ∧ Zpos m2 = mr) ∨
            (e2 = er + 1 ∧ Zpos m2 = 2 ^ 52 ∧ mr = 2 ^ 53)) ∧
    r = if e2 <=? 971 then S754_finite sx m2 e2 else S754_infinity sx.

(** The located input is either exact or already has enough digits. *)
Definition roundable (mx ex : Z) (lx : location) : Prop :=
  lx = loc_Exact ∨ ex ≤ fexp64 (Zdigits2 mx + ex).

(** [N / D * 2^ex] is rounded to [mr * 2^er]: the nearest multiple of
    [2^er], the even one of two nearest. *)
Record rounds (N D ex mr er : Z) : Prop := {
  rounds_exp : ex ≤ er;
  rounds_nonneg : 0 ≤ mr;
  rounds_ge_floor : ∀ k, k * (2 ^ (er - ex) * D) ≤ N → k ≤ mr;
  rounds_le_ceil : ∀ k, N ≤ k * (2 ^ (er - ex) * D) → mr ≤ k;
  rounds_half : - (2 ^ (er - ex) * D) ≤ 2 * (mr * (2 ^ (er - ex) * D) - N)
                ≤ 2 ^ (er - ex) * D;
  rounds_tie_up : 2 * (mr * (2 ^ (er - ex) * D) - N) = 2 ^ (er - ex) * D →
                  Z.even mr = true;
  rounds_tie_down : 2 * (N - mr * (2 ^ (er - ex) * D)) = 2 ^ (er - ex) * D →
                    Z.even mr = true;
}.

(** A zero or a positive finite number of the format. *)
Definition nn (x : spec_float) : Prop :=
  match x with
  | S754_zero _ => True
  | S754_finite false m e => bounded prec emax m e = true
  | _ => False
  end.

(** Its value, scaled by [2^2200]. *)
Definition V (x : spec_float) : Z :=
  match x with
  | S754_finite false m e => Zpos m * P e
  | _ => 0
  end.

(** The shape of a result: a zero or a positive finite number. *)
Definition nn0 (x : spec_float) : Prop :=
  match x with
  | S754_zero _ | S754_finite false _ _ => True
  | _ => False
  end.

(** The number one. *)
Definition SFone : spec_float := S754_finite false (2 ^ 52) (-52).

(** [x] is a zero or a positive finite number not above one. *)
Definition unitf (x : float) : Prop :=
  nn (Prim2SF x) ∧ V (Prim2SF x) ≤ P 0.

(** A zero of either sign. *)
Definition zeroish (z : float) : Prop := ∃ s, Prim2SF z = S754_zero s.

(** A positive zero or a positive finite number. *)
Definition plainb (x : float) : bool :=
  match Prim2SF x with
  | S754_zero false | S754_finite false _ _ => true
  | _ => false
  end.

Definition plain (x : float) : Prop := plainb x = true.

(** The same as a test: [0 <= x <= 1]. *)
Definition unitb (x : float) : bool :=
  (PrimFloat.leb 0 x && PrimFloat.leb x 1)%bool.

End Binary64.

(** ** Image files and OpenCV

    [cv2] is an external library; what the program relies on is modelled
    after its documented behaviour.  A file is read in two ways.  With
    [IMREAD_UNCHANGED] the image comes as it is stored, in OpenCV's native
    channel order: a 2-D array for a grayscale image, [B, G, R] pixels for a
    colour image and [B, G, R, A] pixels for one with transparency, at the
    bit depth of the file.  With the default flag the image always comes as
    8-bit [B, G, R] pixels: gray is replicated, an alpha channel is dropped,
    deeper samples are reduced to 8 bits and the orientation recorded in the
    file is applied, so neither the samples nor the numbers of rows and
    columns need to be those of the image as it is stored. *)

Module Loader.

Inductive ndarray : Type :=
  | Arr2 (a : list (list Z))     (* shape (H, W) *)
  | Arr3 (a : raster).           (* shape (H, W, C) *)

(** The pixel layouts a decoder produces. *)
Definition decodes_to (c : nat) (img : ndarray) : Prop :=
  match img with
  | Arr2 _ => c = 1
  | Arr3 a =>
      3 ≤ c ∧ a ≠ [] ∧
      Forall (λ row, row ≠ [] ∧ Forall (λ px, length px = c) row) a
  end.

Definition well_decoded (img : ndarray) : Prop :=
  decodes_to 1 img ∨ decodes_to 3 img ∨ decodes_to 4 img.

(** [B, G, R(, A)] to three channels [R, G, B]: [COLOR_BGR2RGB] takes a three
    or a four channel pixel and always writes three channels. *)
Definition bgr2rgb_px (px : pixel) : option pixel :=
  match px with
  | [b; g; r] | [b; g; r; _] => Some [r; g; b]
  | _ => None
  end.

(** [COLOR_BGRA2RGBA] writes four channels; a missing alpha becomes 255. *)
Definition bgra2rgba_px (px : pixel) : option pixel :=
  match px with
  | [b; g; r] => Some [r; g; b; 255%Z]
  | [b; g; r; a] => Some [r; g; b; a]
  | _ => None
  end.

(** [cv2.cvtColor(img, code)]: [img] is what [imread] returned ([None] for an
    unreadable file); a 2-D array or [None] raises [cv2.error]. *)
Definition cvtColor (conv : pixel → option pixel) (img : option ndarray)
  : option raster :=
  match img with
  | Some (Arr3 a) => mapM (mapM conv) a
  | Some (Arr2 _) | None => None
  end.

(** An image decoded with the default flag: rows of [(B, G, R)] samples. *)
Definition bgr_image : Type := list (list (Z * Z * Z)).

Definition bgr_px (s : Z * Z * Z) : pixel := let '(b, g, r) := s in [b; g; r].

(** The same image as an array of shape [(H, W, 3)]. *)
Definition of_bgr (img : bgr_image) : ndarray :=
  Arr3 ((λ row : list (Z * Z * Z), bgr_px <$> row) <$> img).

(** [s.lower()] on ASCII text. *)
Definition lower_ascii (c : ascii) : ascii :=
  let n := nat_of_ascii c in
  if (65 <=? n) && (n <=? 90) then ascii_of_nat (n + 32) else c.

Fixpoint lower (s : string) : string :=
  match s with
  | EmptyString => EmptyString
  | String c s' => String (lower_ascii c) (lower s')
  end.

(** [s.endswith(suffix)]: some tail of [s] is [suffix]. *)
Fixpoint endswith (s suffix : string) : bool :=
  String.eqb s suffix ||
  match s with
  | EmptyString => false
  | String _ s' => endswith s' suffix
  end.

(** The test of line 26: [path.lower().endswith(('png', 'PNG'))]. *)
Definition png_branch (path : string) : bool :=
  endswith (lower path) "png" || endswith (lower path) "PNG".

Section Files.

  (** The image stored in the file at each path, as [IMREAD_UNCHANGED]
      decodes it; [None] where the path does not name a readable image. *)
Variable file : string → option ndarray.

  (** What the default flag decodes from the readable file at each path. *)
Variable color : string → bgr_image.

  (** [cv2.imread(path, cv2.IMREAD_UNCHANGED)] *)
Definition imread_unchanged (path : string) : option ndarray := file path.

  (** [cv2.imread(path)]: [None] for the paths [IMREAD_UNCHANGED] cannot
      read either. *)
Definition imread (path : string) : option ndarray :=
    match file path with
    | Some _ => Some (of_bgr (color path))
    | None => None
    end.

  (** [load_fabric] (lines 17-21). *)
Definition load_fabric (path : string) : option raster :=
    let fabric_img := imread path in
    cvtColor bgr2rgb_px fabric_img.

  (** [print_img.shape[2]]: [IndexError] on a 2-D array, [AttributeError] on
      [None]. *)
Definition shape2 (img : option ndarray) : option nat :=
    match img with
    | Some (Arr3 a) => Some (chans a)
    | Some (Arr2 _) | None => None
    end.

  (** [load_print] (lines 23-35). *)
Definition load_print (path : string) : option raster :=
    if png_branch path then
      let print_img := imread_unchanged path in
      c ← shape2 print_img;
      if c =? 4 then cvtColor bgra2rgba_px print_img
      else cvtColor bgr2rgb_px print_img
    else
      let print_img := imread path in
      cvtColor bgr2rgb_px print_img.

End Files.

(** The reading of "the file extension is [.png], case-insensitively". *)
Definition has_png_extension (path : string) : bool :=
  endswith (lower path) ".png".

(** What the conversions do to a decoded pixel: the first and third channels
    change places. *)
Definition swap_rb (px : pixel) : pixel :=
  match px with
  | b :: g :: r :: rest => r :: g :: b :: rest
  | _ => px
  end.

(** The [(B, G, R)] samples of the default flag in the order [R, G, B]. *)
Definition rgb_px (s : Z * Z * Z) : pixel := let '(b, g, r) := s in [r; g; b].

(** Every pixel has [c] channels. *)
Definition all_chans (c : nat) (r : raster) : Prop :=
  Forall (Forall (λ px : pixel, length px = c)) r.

End Loader.

(** ** [resize_print] (app.py, lines 37-47) *)

Module Resize.

Section Resample.

  (** The interpolation of [cv2.resize]: the value of channel [k] of the
      destination pixel [(y, x)] when [src] is resampled to [h] rows and [w]
      columns. *)
Variable interp : raster → nat → nat → nat → nat → nat → Z.

  (** [cv2.resize(src, (w, h))]: a [cv2.error] when a destination side is not
      positive or [src] is empty; otherwise an image of shape [(h, w, C)]. *)
Definition cv2_resize (src : raster) (w h : Z) : option raster :=
    if (0 <? w)%Z && (0 <? h)%Z && (0 <? height src) && (0 <? width src) then
      Some ((λ y, (λ x, (λ k, interp src (Z.to_nat h) (Z.to_nat w) y x k)
                         <$> seq 0 (chans src))
                  <$> seq 0 (Z.to_nat w))
            <$> seq 0 (Z.to_nat h))
    else None.

  (** The two scaled sides, lines 42-43. *)
Definition scaled_side (target : nat) (scale : float) : option Z :=
    F64.py_int (F64.of_nat target * scale)%float.

Definition resize_print (print_img : raster) (fabric_shape : nat * nat)
    (scale : float) : option raster :=
    let '(target_height, target_width) := fabric_shape in
    target_height ← scaled_side target_height scale;
    target_width ← scaled_side target_width scale;
    cv2_resize print_img target_width target_height.

End Resample.

(** Rounding to the nearest integer, as the specification words it
    (halves away from zero; the examples below do not depend on the tie
    rule). *)
Definition spec_round_SF (x : spec_float) : option Z :=
  match x with
  | S754_zero _ => Some 0%Z
  | S754_finite s m e =>
      Some (if (0 <=? e)%Z then (F64.signed s m * 2 ^ e)%Z
            else cond_Zopp s ((2 * Zpos m + 2 ^ (- e)) / (2 * 2 ^ (- e)))%Z)
  | S754_infinity _ | S754_nan => None
  end.

Definition spec_round (x : float) : option Z := spec_round_SF (Prim2SF x).

End Resize.

(** ** [tile_print] (app.py, lines 49-79) *)

Module Tile.

(** [np.zeros((h, w, c), dtype=uint8)] *)
Definition zeros (h w c : nat) : raster :=
  replicate h (replicate w (replicate c 0%Z)).

(** [canvas[y0:y0+ph, x0:x0+pw] = blk] for a block [blk] of shape
    [(ph, pw, c)]: the cell [(y, x)] of the slice receives [blk[y-y0, x-x0]],
    every other cell keeps its value. *)
Definition assign_row (row : list pixel) (x0 : nat) (brow : list pixel)
  : list pixel :=
  imap (λ x px,
        if x0 <=? x then default px (brow !! (x - x0)) else px) row.

Definition assign_block (canvas : raster) (y0 x0 : nat) (blk : raster)
  : raster :=
  imap (λ y row,
        if y0 <=? y
        then match blk !! (y - y0) with
             | Some brow => assign_row row x0 brow
             | None => row
             end
        else row) canvas.

(** [int(np.ceil(a / b))] on Python ints: the true division [a / b] is a
    binary64 quotient ([ZeroDivisionError] when [b] is 0), [np.ceil] rounds it
    up and [int] converts the result. *)
Definition tiles_needed (a b : nat) : option nat :=
  if b =? 0 then None
  else Z.to_nat <$> F64.py_int_ceil (F64.of_nat a / F64.of_nat b)%float.

(** The sides of an image: below [2^26], where the binary64 quotient of two
    sides has an exact ceiling. *)
Definition small_side (n : nat) : Prop := (Z.of_nat n < 2 ^ 26)%Z.

(** The quotient rounded up, computed on the integers. *)
Definition ceil_div (a b : nat) : nat :=
  if a mod b =? 0 then a / b else S (a / b).

(** The loop nest of lines 69-75. *)
Definition tile_loop (print_img : raster) (print_h print_w tiles_h tiles_w : nat)
  (canvas : raster) : raster :=
  foldl (λ cv i,
         foldl (λ cv j,
                assign_block cv (i * print_h) (j * print_w) print_img)
               cv (seq 0 tiles_w))
        canvas (seq 0 tiles_h).

(** One row of tiles: the inner loop over [j], for a fixed [i]. *)
Definition row_loop (print_img : raster) (print_h print_w i n : nat)
  (canvas : raster) : raster :=
  foldl (λ cv j, assign_block cv (i * print_h) (j * print_w) print_img)
        canvas (seq 0 n).

(** [canvas[:h, :w]] *)
Definition crop {A} (h w : nat) (r : array3 A) : array3 A :=
  take w <$> take h r.

(** The canvas of lines 55-75, before the crop. *)
Definition tile_canvas (print_img : raster) (fabric_shape : nat * nat)
  : option raster :=
  let '(h, w) := fabric_shape in
  let print_h := height print_img in
  let print_w := width print_img in
  tiles_h ← tiles_needed h print_h;
  tiles_w ← tiles_needed w print_w;
  let canvas_h := tiles_h * print_h in
  let canvas_w := tiles_w * print_w in
  let canvas :=
    if chans print_img =? 4 then zeros canvas_h canvas_w 4
    else zeros canvas_h canvas_w 3 in
  Some (tile_loop print_img print_h print_w tiles_h tiles_w canvas).

Definition tile_print (print_img : raster) (fabric_shape : nat * nat)
  : option raster :=
  canvas ← tile_canvas print_img fabric_shape;
  Some (crop fabric_shape.1 fabric_shape.2 canvas).

End Tile.

(** ** [blend_images] (app.py, lines 81-117) *)

Module Blend.

Local Open Scope float_scope.

(** An elementwise operation of one array and a scalar. *)
Definition map3 {A B} (f : A → B) (x : array3 A) : array3 B :=
  (λ row : list (list A), (λ px : list A, f <$> px) <$> row) <$> x.

(** numpy's broadcasting along one axis: extents must agree unless one of them
    is 1, in which case that single entry is repeated ([None] stands for the
    [ValueError] "operands could not be broadcast together"). *)
Fixpoint zipM {A B C} (f : A → B → option C) (xs : list A) (ys : list B)
  : option (list C) :=
  match xs, ys with
  | [], [] => Some []
  | x :: xs, y :: ys => c ← f x y; cs ← zipM f xs ys; Some (c :: cs)
  | _, _ => None
  end.

Definition bzip {A B C} (f : A → B → option C) (xs : list A) (ys : list B)
  : option (list C) :=
  match xs, ys with
  | [x], _ => mapM (f x) ys
  | _, [y] => mapM (λ x, f x y) xs
  | _, _ => zipM f xs ys
  end.

(** An elementwise operation of two arrays, broadcast along the three axes. *)
Definition np_binop {A B C} (f : A → B → C) (x : array3 A) (y : array3 B)
  : option (array3 C) :=
  bzip (bzip (bzip (λ a b, Some (f a b)))) x y.

(** [np.where(cond, a, b)] *)
Definition np_where {A} (cond : array3 bool) (a b : array3 A)
  : option (array3 A) :=
  ab ← np_binop pair a b;
  np_binop (λ (c : bool) (v : A * A), if c then v.1 else v.2) cond ab.

(** Lines 99-101 (and 107-109). *)
Definition overlay (fabric_norm print_norm : array3 float)
  : option (array3 float) :=
  low ← np_binop PrimFloat.mul (map3 (λ v, 2 * v) fabric_norm) print_norm;
  high ← map3 (λ v, 1 - v) <$>
         np_binop PrimFloat.mul
           (map3 (λ v, 2 * v) (map3 (λ v, 1 - v) fabric_norm))
           (map3 (λ v, 1 - v) print_norm);
  np_where (map3 (λ v, v <? 0.5) fabric_norm) low high.

(** Line 103. *)
Definition multiply (fabric_norm print_norm : array3 float)
  : option (array3 float) :=
  np_binop PrimFloat.mul fabric_norm print_norm.

(** Line 105. *)
Definition screen (fabric_norm print_norm : array3 float)
  : option (array3 float) :=
  map3 (λ v, 1 - v) <$>
  np_binop PrimFloat.mul (map3 (λ v, 1 - v) fabric_norm)
                         (map3 (λ v, 1 - v) print_norm).

(** The float array [result] of lines 84-115. *)
Definition blend_result (fabric print_img : raster) (blend_mode : string)
  (opacity : float) : option (array3 float) :=
  let has_alpha := (chans print_img =? 4)%nat in
  (* print_img[:, :, :3] *)
  let print_rgb :=
    if has_alpha then (λ row : list pixel, take 3 <$> row) <$> print_img
    else print_img in
  (* print_img[:, :, 3:4] / 255.0 * opacity *)
  let print_alpha :=
    map3 (λ v, F64.of_uint8 v / 255 * opacity)
         ((λ row : list pixel, (λ px, take 1 (drop 3 px)) <$> row) <$> print_img) in
  let fabric_norm := map3 (λ v, F64.of_uint8 v / 255) fabric in
  let print_norm := map3 (λ v, F64.of_uint8 v / 255) print_rgb in
  blended ←
    (if String.eqb blend_mode "overlay" then overlay fabric_norm print_norm
     else if String.eqb blend_mode "multiply" then multiply fabric_norm print_norm
     else if String.eqb blend_mode "screen" then screen fabric_norm print_norm
     else overlay fabric_norm print_norm);
  if has_alpha then
    a ← np_binop PrimFloat.mul fabric_norm (map3 (λ v, 1 - v) print_alpha);
    b ← np_binop PrimFloat.mul blended print_alpha;
    np_binop PrimFloat.add a b
  else
    np_binop PrimFloat.add (map3 (λ v, v * (1 - opacity)) fabric_norm)
                           (map3 (λ v, v * opacity) blended).

(** Line 117: [(result * 255).astype(np.uint8)]. *)
Definition to_uint8 (result : array3 float) : raster :=
  map3 (λ v, F64.astype_uint8 (v * 255)) result.

Definition blend_images (fabric print_img : raster) (blend_mode : string)
  (opacity : float) : option raster :=
  to_uint8 <$> blend_result fabric print_img blend_mode opacity.

(** *** The same computation on one channel *)

Definition overlay_low (base p : float) : float := 2 * base * p.
Definition overlay_high (base p : float) : float := 1 - 2 * (1 - base) * (1 - p).

Definition overlay_ch (base p : float) : float :=
  if base <? 0.5 then overlay_low base p else overlay_high base p.

Definition multiply_ch (base p : float) : float := base * p.
Definition screen_ch (base p : float) : float := 1 - (1 - base) * (1 - p).

(** The blended colour [B] of one channel for a mode string. *)
Definition blended_ch (blend_mode : string) (base p : float) : float :=
  if String.eqb blend_mode "overlay" then overlay_ch base p
  else if String.eqb blend_mode "multiply" then multiply_ch base p
  else if String.eqb blend_mode "screen" then screen_ch base p
  else overlay_ch base p.

(** [base * (1 - strength) + B * strength] *)
Definition composite (base b strength : float) : float :=
  base * (1 - strength) + b * strength.

(** One channel of [result] on the path without alpha. *)
Definition result_ch (blend_mode : string) (opacity : float) (f p : Z) : float :=
  composite (F64.norm f) (blended_ch blend_mode (F64.norm f) (F64.norm p)) opacity.

(** One channel of [result] on the alpha path, [a] being the pixel's alpha:
    the strength is [a / 255.0 * opacity]. *)
Definition result_ch_alpha (blend_mode : string) (opacity : float) (a f p : Z)
  : float :=
  composite (F64.norm f) (blended_ch blend_mode (F64.norm f) (F64.norm p))
            (F64.norm a * opacity).

(** One pixel of [result]: a four-channel print pixel carries its alpha
    last. *)
Definition result_px (blend_mode : string) (opacity : float) (fpx ppx : pixel)
  : list float :=
  match ppx with
  | [_; _; _; a] =>
      zip_with (result_ch_alpha blend_mode opacity a) fpx (take 3 ppx)
  | _ => zip_with (result_ch blend_mode opacity) fpx ppx
  end.

(** The output channel and pixel. *)
Definition blend_ch (blend_mode : string) (opacity : float) (f p : Z) : Z :=
  F64.astype_uint8 (result_ch blend_mode opacity f p * 255).

Definition blend_px (blend_mode : string) (opacity : float) (fpx ppx : pixel)
  : pixel :=
  (λ v, F64.astype_uint8 (v * 255)) <$> result_px blend_mode opacity fpx ppx.

(** The RGB part of a print, [print_img[:, :, :3]]. *)
Definition rgb_of (print_img : raster) : raster :=
  (λ row : list pixel, take 3 <$> row) <$> print_img.

(** *** Arrays given position by position *)

(** One pixel of a broadcast operation. *)
Definition bpx {A B C} (f : A → B → C) (px : list A) (py : list B) : list C :=
  match px, py with
  | [a], _ => f a <$> py
  | _, [b] => (λ a, f a b) <$> px
  | _, _ => zip_with f px py
  end.

(** An array given pixel by pixel from a fabric and a print of one height and
    width. *)
Definition pointwise {C} (K : pixel → pixel → list C)
    (fabric print_img : raster) : array3 C :=
  zip_with (zip_with K) fabric print_img.

(** The pixels of the two rasters at one position. *)
Definition px_shape (c : nat) (fp pp : pixel) : Prop :=
  length fp = 3%nat ∧ length pp = c.

Definition same_grid (c : nat) (fabric print_img : raster) : Prop :=
  Forall2 (Forall2 (px_shape c)) fabric print_img.

(** The pixels of two rasters at one position, with 8-bit channels. *)
Definition px_bytes (c : nat) (fp pp : pixel) : Prop :=
  px_shape c fp pp ∧ Forall is_uint8 fp ∧ Forall is_uint8 pp.

(** Two rasters that differ by at most one in every channel. *)
Definition within_one (a b : raster) : Prop :=
  Forall2 (Forall2 (Forall2 (λ x y : Z, (Z.abs (x - y) ≤ 1)%Z))) a b.

(** The alpha channel of every pixel is [a]. *)
Definition alpha_is (a : Z) (print_img : raster) : Prop :=
  Forall (Forall (λ px : pixel, px !! 3%nat = Some a)) print_img.

(** The 256 values of a channel. *)
Definition bytes : list Z := Z.of_nat <$> seq 0 256%nat.

Definition all_bytes2 (t : Z → Z → bool) : bool :=
  forallb (λ f, forallb (t f) bytes) bytes.

(** The raw blended colour after the 8-bit conversion. *)
Definition blended_byte (blend_mode : string) (f p : Z) : Z :=
  F64.astype_uint8 (blended_ch blend_mode (F64.norm f) (F64.norm p) * 255).

(** A test run on every pair of channel values: the blended colour of a
    formula [g] lies in [0, 1]. *)
Definition stays_unit (g : float → float → float) : bool :=
  all_bytes2 (λ f p, Binary64.unitb (g (F64.norm f) (F64.norm p))).

(** Bitwise equality of two binary64 values. *)
Definition same_float (x y : float) : bool :=
  match Prim2SF x, Prim2SF y with
  | S754_zero s, S754_zero s' | S754_infinity s, S754_infinity s' =>
      Bool.eqb s s'
  | S754_nan, S754_nan => true
  | S754_finite s m e, S754_finite s' m' e' =>
      Bool.eqb s s' && Pos.eqb m m' && Z.eqb e e'
  | _, _ => false
  end.

(** Tests at the boundary [base = 0.5] of the overlay formula for the print
    channel [k]: the high branch is within [2^-54] of the print value and the
    8-bit conversions of the two branches differ by at most one. *)
Definition boundary_close (k : Z) : bool :=
  let p := F64.norm k in
  (abs (overlay_high 0.5 p - p) <=? 0x1p-54)%float &&
  (Z.abs (F64.astype_uint8 (overlay_high 0.5 p * 255) -
          F64.astype_uint8 (overlay_low 0.5 p * 255)) <=? 1)%Z.

(** The high branch returns the print value bit for bit when the print
    channel is at least 128. *)
Definition boundary_exact (k : Z) : bool :=
  (k <? 128)%Z || same_float (overlay_high 0.5 (F64.norm k)) (F64.norm k).

(** No 8-bit channel normalises to 0.5. *)
Definition off_boundary (f : Z) : bool := negb (F64.norm f =? 0.5)%float.

(** The first two extents of an array. *)
Definition extent {A} (h w : nat) (r : list (list A)) : Prop :=
  length r = h ∧ Forall (λ row, length row = w) r.

(** Two extents numpy cannot broadcast together. *)
Definition clash (a b : nat) : Prop := (a ≠ b ∧ a ≠ 1 ∧ b ≠ 1)%nat.

(** A relation that holds between every channel of two rasters of one
    shape. *)
Definition channelwise (R : Z → Z → Prop) (a b : raster) : Prop :=
  Forall2 (Forall2 (Forall2 R)) a b.

(** The raster of [h x w] pixels all equal to [px]. *)
Definition solid (h w : nat) (px : pixel) : raster :=
  replicate h (replicate w px).

(** The blended colours of a pair of channels for the three modes, after the
    8-bit conversion: each is found by search and confirmed by [byte_is];
    [None] if a confirmation fails. *)
Definition blended_bytes (f p : Z) : option (Z * Z * Z) :=
  let xm := blended_ch "multiply" (F64.norm f) (F64.norm p) * 255 in
  let xo := blended_ch "overlay" (F64.norm f) (F64.norm p) * 255 in
  let xs := blended_ch "screen" (F64.norm f) (F64.norm p) * 255 in
  let m := F64.byte_guess xm in
  let o := F64.byte_guess xo in
  let s := F64.byte_guess xs in
  if F64.byte_is m xm && F64.byte_is o xo && F64.byte_is s xs
  then Some (m, o, s) else None.

(** A test [t f p m o s] run on every pair of channel values with its three
    blended colours. *)
Definition modes_check (t : Z → Z → Z → Z → Z → bool) : bool :=
  all_bytes2 (λ f p,
    match blended_bytes f p with
    | Some (m, o, s) => t f p m o s
    | None => false
    end).

(** What the three modes do to a fabric channel [f] and a print channel [p]
    at full opacity. *)
Definition mode_facts (f p m o s : Z) : bool :=
  ((m <=? Z.min f p) && (Z.max f p - 1 <=? s) && (m <=? o) && (o <=? s) &&
   implb (p =? 255) ((m =? f) && (s =? 255)) &&
   implb (p =? 0) (m =? 0) &&
   implb (f =? 0) (o =? 0) && implb (f =? 255) (o =? 255))%Z.

End Blend.

(** ** [generate_fusion] (app.py, lines 119-130) *)

Module Fusion.

Definition generate_fusion (interp : raster → nat → nat → nat → nat → nat → Z)
  (fabric_img print_img : raster) (blend_mode : string)
  (opacity scale : float) : option raster :=
  let fabric_shape := (height fabric_img, width fabric_img) in
  print_resized ← Resize.resize_print interp print_img fabric_shape scale;
  print_tiled ← Tile.tile_print print_resized fabric_shape;
  Blend.blend_images fabric_img print_tiled blend_mode opacity.

End Fusion.

(** ** The handlers of [SimpleFabricFusionGUI] (app.py, lines 234-338)

    The state is the attributes the handlers read and write; [None] is an
    attribute that does not exist yet ([hasattr] is false) or, for the two
    paths, the initial [None].  An event is a button press together with what
    the user then answers: the path given to a file dialog (the empty string
    when the dialog is cancelled) or the values of the three controls.  Of
    the effects only the message boxes, the call of [save_fusion] and an
    exception leaving the handler are recorded; [display_image] only draws
    and touches none of the attributes.  Tk reports an exception raised in a
    callback and goes on with the next event. *)

Module Gui.

Record state : Type := State {
  fabric_path : option string;
  print_path : option string;
  fabric_img : option raster;
  print_img : option raster;
  result_img : option raster;
}.

(** [__init__] (lines 139-149). *)
Definition init : state := State None None None None None.

Inductive event : Type :=
  | SelectFabric (file_path : string)
  | SelectPrint (file_path : string)
  | GenerateFusion (blend_mode : string) (opacity scale : float)
  | SaveResult (file_path : string).

Inductive effect : Type :=
  | ShowWarning (message : string)
  | SaveFusion (output_path : string) (fused_image : raster)
  | Raise.

Section App.

Variable file : string → option Loader.ndarray.
Variable color : string → Loader.bgr_image.
Variable interp : raster → nat → nat → nat → nat → nat → Z.

(** [select_fabric] (lines 234-244): the path is stored before the image is
    loaded. *)
Definition select_fabric (s : state) (file_path : string)
  : state * list effect :=
  if String.eqb file_path "" then (s, [])
  else
    let s1 := State (Some file_path) (print_path s) (fabric_img s)
                (print_img s) (result_img s) in
    match Loader.load_fabric file color file_path with
    | Some img =>
        (State (Some file_path) (print_path s) (Some img) (print_img s)
           (result_img s), [])
    | None => (s1, [Raise])
    end.

(** [select_print] (lines 246-256). *)
Definition select_print (s : state) (file_path : string)
  : state * list effect :=
  if String.eqb file_path "" then (s, [])
  else
    let s1 := State (fabric_path s) (Some file_path) (fabric_img s)
                (print_img s) (result_img s) in
    match Loader.load_print file color file_path with
    | Some img =>
        (State (fabric_path s) (Some file_path) (fabric_img s) (Some img)
           (result_img s), [])
    | None => (s1, [Raise])
    end.

(** [generate_fusion] (lines 297-321). *)
Definition generate_fusion (s : state) (blend_mode : string)
  (opacity scale : float) : state * list effect :=
  match fabric_img s, print_img s with
  | Some fabric, Some print =>
      match Fusion.generate_fusion interp fabric print blend_mode opacity scale
      with
      | Some result =>
          (State (fabric_path s) (print_path s) (fabric_img s) (print_img s)
             (Some result), [])
      | None => (s, [Raise])
      end
  | _, _ =>
      (s, [ShowWarning "Please select both fabric and print images first."])
  end.

(** [save_result] (lines 323-338). *)
Definition save_result (s : state) (file_path : string)
  : state * list effect :=
  match result_img s with
  | None => (s, [ShowWarning "Please generate a fusion first."])
  | Some result =>
      if String.eqb file_path "" then (s, [])
      else (s, [SaveFusion file_path result])
  end.

Definition step (s : state) (ev : event) : state * list effect :=
  match ev with
  | SelectFabric file_path => select_fabric s file_path
  | SelectPrint file_path => select_print s file_path
  | GenerateFusion blend_mode opacity scale =>
      generate_fusion s blend_mode opacity scale
  | SaveResult file_path => save_result s file_path
  end.

(** A session: the events in order, with all the effects. *)
Fixpoint run (s : state) (evs : list event) : state * list effect :=
  match evs with
  | [] => (s, [])
  | ev :: evs =>
      let '(s1, out1) := step s ev in
      let '(s2, out2) := run s1 evs in
      (s2, out1 ++ out2)
  end.

(** [img] is a fusion of a loaded fabric and a loaded print. *)
Definition generated (img : raster) : Prop :=
  ∃ fabric_file print_file fabric print blend_mode opacity scale,
    Loader.load_fabric file color fabric_file = Some fabric ∧
    Loader.load_print file color print_file = Some print ∧
    Fusion.generate_fusion interp fabric print blend_mode opacity scale =
      Some img.

(** The three stored images of [s'] are those of [s]. *)
Definition same_images (s s' : state) : Prop :=
  fabric_img s' = fabric_img s ∧ print_img s' = print_img s ∧
  result_img s' = result_img s.

(** What holds of the attributes in every state of a session. *)
Definition consistent (s : state) : Prop :=
  (∀ img, fabric_img s = Some img →
     ∃ path, Loader.load_fabric file color path = Some img) ∧
  (∀ img, print_img s = Some img →
     ∃ path, Loader.load_print file color path = Some img) ∧
  (∀ img, result_img s = Some img → generated img).

End App.

End Gui.

(** ** The size of a preview ([display_image], app.py, lines 272-283) *)

Module Display.

Local Open Scope float_scope.




End Display.

(** * Properties

    ** Rounding of binary64 operations

    [SpecFloat] defines the operations of primitive floats by an algorithm on
    mantissas; the lemmas below state its rounding against integer values
    scaled by [2^2200], which is what the bounds on blended colours need. *)
Module Rounding.

Import Binary64.
Local Open Scope Z_scope.

Lemma fexp64_eq d : fexp prec emax d = fexp64 d.
Proof. reflexivity. Qed.

Lemma fexp64_mono d1 d2 : d1 ≤ d2 → fexp64 d1 ≤ fexp64 d2.
Proof. unfold fexp64. lia. Qed.

(** *** Number of binary digits *)

Lemma digits2_pos_bounds (m : positive) :
  2 ^ (Zpos (digits2_pos m) - 1) ≤ Zpos m < 2 ^ Zpos (digits2_pos m).
Proof.
  induction m as [m IH|m IH|]; simpl digits2_pos.
  - rewrite Pos2Z.inj_succ.
    replace (Z.succ (Zpos (digits2_pos m)) - 1) with (Z.succ (Zpos (digits2_pos m) - 1)) by lia.
    rewrite !Z.pow_succ_r by lia. lia.
  - rewrite Pos2Z.inj_succ.
    replace (Z.succ (Zpos (digits2_pos m)) - 1) with (Z.succ (Zpos (digits2_pos m) - 1)) by lia.
    rewrite !Z.pow_succ_r by lia. lia.
  - simpl. lia.
Qed.

Lemma Zdigits2_bounds (m : Z) :
  0 < m → 2 ^ (Zdigits2 m - 1) ≤ m < 2 ^ Zdigits2 m.
Proof. destruct m; try lia. intros _. apply digits2_pos_bounds. Qed.

Lemma Zdigits2_nonneg m : 0 ≤ Zdigits2 m.
Proof. destruct m; simpl; lia. Qed.

Lemma Zdigits2_pos m : 0 < m → 0 < Zdigits2 m.
Proof. destruct m; simpl; lia. Qed.

(** [2^a ≤ m < 2^b] forces [a < b]. *)
Lemma pow2_lt_inv a b : 0 ≤ b → 2 ^ a < 2 ^ b → a < b.
Proof.
  intros Hb H. destruct (Z_lt_le_dec a b) as [|Hab]; [done|].
  pose proof (Z.pow_le_mono_r 2 b a ltac:(lia) Hab). lia.
Qed.

Lemma Zdigits2_unique m d :
  0 < m → 0 ≤ d → 2 ^ (d - 1) ≤ m < 2 ^ d → Zdigits2 m = d.
Proof.
  intros Hm Hd [H1 H2]. pose proof (Zdigits2_bounds m Hm) as [H3 H4].
  pose proof (Zdigits2_pos m Hm).
  assert (d - 1 < Zdigits2 m) by (apply pow2_lt_inv; lia).
  assert (Zdigits2 m - 1 < d) by (apply pow2_lt_inv; lia).
  lia.
Qed.

Lemma Zdigits2_le m1 m2 : 0 < m1 → m1 ≤ m2 → Zdigits2 m1 ≤ Zdigits2 m2.
Proof.
  intros H1 H12. pose proof (Zdigits2_bounds m1 H1) as [Ha _].
  pose proof (Zdigits2_bounds m2 ltac:(lia)) as [_ Hb].
  pose proof (Zdigits2_pos m2 ltac:(lia)).
  assert (Zdigits2 m1 - 1 < Zdigits2 m2) by (apply pow2_lt_inv; lia). lia.
Qed.

(** *** Shifting right with a sticky location *)

(** [iter_pos] is plain iteration. *)
Lemma iter_pos_nat {A} (f : A → A) (p : positive) (x : A) :
  SpecFloat.iter_pos f p x = Nat.iter (Pos.to_nat p) f x.
Proof.
  revert x. induction p as [p IH|p IH|]; intros x; simpl SpecFloat.iter_pos.
  - rewrite !IH, Pos2Nat.inj_xI.
    replace (S (2 * Pos.to_nat p))%nat with (Pos.to_nat p + S (Pos.to_nat p))%nat by lia.
    rewrite Nat.iter_add, Nat.iter_succ_r. done.
  - rewrite !IH, Pos2Nat.inj_xO.
    replace (2 * Pos.to_nat p)%nat with (Pos.to_nat p + Pos.to_nat p)%nat by lia.
    by rewrite Nat.iter_add.
  - done.
Qed.

Lemma shr_1_inv N U mrs :
  0 < U → shr_inv N U mrs → shr_inv N (2 * U) (shr_1 mrs).
Proof.
  intros HU. destruct mrs as [m r s]. unfold shr_inv. simpl shr_m. simpl shr_r. simpl shr_s.
  intros (Hm & Hb & Hl).
  destruct m as [|[p|p|]|p]; try lia; simpl shr_1; simpl shr_m; simpl shr_r; simpl shr_s.
  - (* 0 *) split; [lia|]. split; [lia|].
    destruct r, s; simpl in *; lia.
  - (* 2p+1 *)
    rewrite Pos2Z.inj_xI in *. set (P := Zpos p) in *.
    assert (0 < P) by (unfold P; lia).
    split; [lia|]. split; [nia|].
    destruct r, s; simpl in *; nia.
  - rewrite Pos2Z.inj_xO in *. set (P := Zpos p) in *.
    assert (0 < P) by (unfold P; lia).
    split; [lia|]. split; [nia|].
    destruct r, s; simpl in *; nia.
  - split; [lia|]. split; [nia|].
    destruct r, s; simpl in *; nia.
Qed.

Lemma shr_iter_inv N U mrs (n : nat) :
  0 < U → shr_inv N U mrs →
  shr_inv N (2 ^ Z.of_nat n * U) (Nat.iter n shr_1 mrs).
Proof.
  intros HU H0. induction n as [|n IH].
  - simpl. by rewrite Z.mul_1_l.
  - rewrite Nat2Z.inj_succ, Z.pow_succ_r by lia. simpl Nat.iter.
    replace (2 * 2 ^ Z.of_nat n * U) with (2 * (2 ^ Z.of_nat n * U)) by ring.
    apply shr_1_inv; [|done]. pose proof (Z.pow_pos_nonneg 2 (Z.of_nat n)). lia.
Qed.

(** [shr] by [n] places. *)
Lemma shr_inv_shr N U mrs e n :
  0 < U → shr_inv N U mrs →
  let n' := Z.max n 0 in
  snd (shr mrs e n) = e + n' ∧ shr_inv N (2 ^ n' * U) (fst (shr mrs e n)).
Proof.
  intros HU H0 n'. subst n'. destruct n as [|p|p].
  - rewrite Z.max_l by lia. simpl. split; [lia|]. by rewrite Z.mul_1_l.
  - rewrite Z.max_l by lia. simpl fst. simpl snd. split; [lia|].
    rewrite iter_pos_nat.
    replace (2 ^ Z.pos p) with (2 ^ Z.of_nat (Pos.to_nat p))
      by (by rewrite positive_nat_Z).
    by apply shr_iter_inv.
  - rewrite Z.max_r by lia. simpl. split; [lia|]. by rewrite Z.mul_1_l.
Qed.

Lemma shr_record_of_loc_exact m : 0 ≤ m → shr_inv m 1 (shr_record_of_loc m loc_Exact).
Proof. intros Hm. unfold shr_inv. simpl. lia. Qed.

(** Rounding to nearest, ties to even, of a located value. *)
Lemma round_nearest_even_inv N U mrs :
  0 < U → shr_inv N U mrs →
  let m' := round_nearest_even (shr_m mrs) (loc_of_shr_record mrs) in
  shr_m mrs ≤ m' ≤ shr_m mrs + 1 ∧
  (N = shr_m mrs * U → m' = shr_m mrs) ∧
  - U ≤ 2 * (m' * U - N) ≤ U ∧
  (2 * (m' * U - N) = U → Z.even m' = true) ∧
  (2 * (N - m' * U) = U → Z.even m' = true).
Proof.
  intros HU. destruct mrs as [m r s]. unfold shr_inv. simpl.
  intros (Hm & Hb & Hl).
  assert (Hodd : Z.even m = false → Z.even (m + 1) = true).
  { intros Ev. by rewrite Z.even_add, Ev. }
  destruct r, s; simpl in *; [| destruct (Z.even m) eqn:Ev | |];
    (split; [lia|]); (split; [intros; nia|]); (split; [nia|]);
    (split; intros; first [done | by apply Hodd | exfalso; nia]).
Qed.

(** The two outputs of [shr_fexp]. *)
Lemma shr_fexp_inv m e l N U :
  0 < U → shr_inv N U (shr_record_of_loc m l) →
  let n := Z.max (fexp64 (Zdigits2 m + e) - e) 0 in
  snd (shr_fexp prec emax m e l) = e + n ∧
  shr_inv N (2 ^ n * U) (fst (shr_fexp prec emax m e l)).
Proof.
  intros HU H0. unfold shr_fexp. rewrite fexp64_eq.
  by apply shr_inv_shr.
Qed.

(** Digits of a quotient by a power of two. *)
Lemma Zdigits2_shift mx m n :
  0 < m → 0 ≤ n → m * 2 ^ n ≤ mx < (m + 1) * 2 ^ n →
  Zdigits2 m = Zdigits2 mx - n.
Proof.
  intros Hm Hn [H1 H2].
  assert (Hp : 0 < 2 ^ n) by (apply Z.pow_pos_nonneg; lia).
  assert (Hmx : 0 < mx) by nia.
  pose proof (Zdigits2_bounds mx Hmx) as [Hb1 Hb2].
  pose proof (Zdigits2_bounds m Hm) as [Hc1 Hc2].
  pose proof (Zdigits2_pos m Hm) as Hdm. pose proof (Zdigits2_pos mx Hmx) as Hdx.
  set (d := Zdigits2 mx) in *. set (dm := Zdigits2 m) in *.
  (* 2^(dm-1+n) ≤ mx < 2^(dm+n) *)
  assert (E1 : 2 ^ (dm - 1 + n) ≤ mx).
  { rewrite Z.pow_add_r by lia. nia. }
  assert (E2 : mx < 2 ^ (dm + n)).
  { rewrite Z.pow_add_r by lia. nia. }
  assert (dm - 1 + n < d) by (apply pow2_lt_inv; lia).
  assert (d - 1 < dm + n) by (apply pow2_lt_inv; lia).
  lia.
Qed.

Lemma P_pos e : -2200 ≤ e → 0 < P e.
Proof. intros. apply Z.pow_pos_nonneg; lia. Qed.

Lemma P_add e k : -2200 ≤ e → 0 ≤ k → P (e + k) = P e * 2 ^ k.
Proof.
  intros. unfold P. replace (e + k + 2200) with ((e + 2200) + k) by lia.
  by rewrite Z.pow_add_r by lia.
Qed.

Lemma P_le e1 e2 : -2200 ≤ e1 → e1 ≤ e2 → P e1 ≤ P e2.
Proof. intros. unfold P. apply Z.pow_le_mono_r; lia. Qed.

Lemma binary_round_aux_rounded sx mx ex lx :
  binary_round_aux prec emax sx mx ex lx =
  classify_rounded sx (rounded mx ex lx).1 (rounded mx ex lx).2.
Proof.
  unfold binary_round_aux, rounded, classify_rounded.
  destruct (shr_fexp prec emax mx ex lx) as [mrs1 e1]. simpl. done.
Qed.

(** The first stage: a located floor followed by rounding to nearest even. *)
Lemma rounded_spec mx ex lx N D :
  0 < D → 0 ≤ mx → shr_inv N D (shr_record_of_loc mx lx) →
  let n := Z.max (fexp64 (Zdigits2 mx + ex) - ex) 0 in
  let U := 2 ^ n * D in
  let mr := (rounded mx ex lx).1 in
  (rounded mx ex lx).2 = ex + n ∧
  ∃ m1, 0 ≤ m1 ∧ m1 * U ≤ N < (m1 + 1) * U ∧
        m1 ≤ mr ≤ m1 + 1 ∧
        (N = m1 * U → mr = m1) ∧
        - U ≤ 2 * (mr * U - N) ≤ U ∧
        (2 * (mr * U - N) = U → Z.even mr = true) ∧
        (2 * (N - mr * U) = U → Z.even mr = true).
Proof.
  intros HD Hmx H0 n U mr.
  destruct (shr_fexp_inv mx ex lx N D HD H0) as [He Hinv].
  fold n in He, Hinv. fold U in Hinv.
  assert (HU : 0 < U).
  { unfold U. pose proof (Z.pow_pos_nonneg 2 n). nia. }
  unfold mr, rounded.
  destruct (shr_fexp prec emax mx ex lx) as [mrs1 e1]. simpl in *.
  split; [done|]. exists (shr_m mrs1).
  pose proof (round_nearest_even_inv N U mrs1 HU Hinv) as (R1 & R2 & R3 & R4 & R5).
  destruct Hinv as (I1 & I2 & _). done.
Qed.

Lemma classify_rounded_spec sx mr er :
  0 ≤ mr → fits mr er →
  (mr = 0 ∧ classify_rounded sx mr er = S754_zero sx) ∨
  ∃ m2 e2, ((e2 = er ∧ Zpos m2 = mr) ∨
            (e2 = er + 1 ∧ Zpos m2 = 2 ^ 52 ∧ mr = 2 ^ 53)) ∧
    classify_rounded sx mr er =
    if e2 <=? 971 then S754_finite sx m2 e2 else S754_infinity sx.
Proof.
  intros Hmr Hfit. unfold classify_rounded.
  destruct (shr_fexp_inv mr er loc_Exact mr 1 ltac:(lia)
              (shr_record_of_loc_exact mr Hmr)) as [He Hinv].
  destruct (shr_fexp prec emax mr er loc_Exact) as [mrs2 e2]. simpl in He, Hinv.
  destruct Hinv as (I1 & I2 & _). rewrite Z.mul_1_r in I2.
  set (n := Z.max (fexp64 (Zdigits2 mr + er) - er) 0) in *.
  assert (Hp : 0 < 2 ^ n) by (apply Z.pow_pos_nonneg; lia).
  destruct (Z.eq_dec mr 0) as [->|Hnz].
  { left. split; [done|]. assert (shr_m mrs2 = 0) as -> by nia. done. }
  right. destruct Hfit as [?|[Hle|[-> Hk]]]; [done| |].
  - assert (n = 0) as Hn by lia. rewrite Hn in *. simpl in I2.
    assert (shr_m mrs2 = mr) as -> by lia.
    destruct mr as [|m|m]; [done| |lia].
    exists m, e2. split; [|done]. left. lia.
  - assert (Zdigits2 (2 ^ 53) = 54) as Hd by reflexivity.
    assert (n = 1) as Hn by (unfold n; rewrite Hd; lia). rewrite Hn in *.
    assert (shr_m mrs2 = 2 ^ 52) as ->.
    { change (2 ^ 53) with (2 ^ 52 * 2 ^ 1) in I2. lia. }
    exists (2 ^ 52)%positive, e2. split; [|done]. right. split; [lia|done].
Qed.

Lemma rounded_fits mx ex lx N D :
  0 < D → 0 ≤ mx → shr_inv N D (shr_record_of_loc mx lx) →
  roundable mx ex lx →
  0 ≤ (rounded mx ex lx).1 ∧ fits (rounded mx ex lx).1 (rounded mx ex lx).2.
Proof.
  intros HD Hmx H0 Hr.
  destruct (rounded_spec mx ex lx N D HD Hmx H0) as (He & m1 & Hm1 & Hfl & Hmr & Hex & _).
  set (n := Z.max (fexp64 (Zdigits2 mx + ex) - ex) 0) in *.
  set (mr := (rounded mx ex lx).1) in *. rewrite He. clearbody mr.
  split; [lia|].
  assert (Hp : 0 < 2 ^ n) by (apply Z.pow_pos_nonneg; lia).
  destruct H0 as (_ & J2 & J3). simpl in J2.
  assert (Hx : shr_m (shr_record_of_loc mx lx) = mx) by (by destruct lx as [|[| |]]).
  rewrite Hx in J2, J3.
  (* the floor of the mantissa itself *)
  assert (Hflm : m1 * 2 ^ n ≤ mx < (m1 + 1) * 2 ^ n) by nia.
  destruct (Z_lt_le_dec (fexp64 (Zdigits2 mx + ex)) ex) as [Hlt|Hge].
  - (* no shift: the input was exact *)
    destruct Hr as [->|?]; [|lia]. simpl in J3.
    assert (n = 0) as Hn by lia. rewrite Hn in *. simpl in *.
    assert (mr = m1) as -> by (apply Hex; nia).
    assert (m1 = mx) as -> by lia.
    right; left. replace (ex + 0) with ex by lia. lia.
  - assert (n = fexp64 (Zdigits2 mx + ex) - ex) as Hn by lia.
    assert (Her : -1074 ≤ ex + n) by (rewrite Hn; unfold fexp64; lia).
    destruct (Z.eq_dec mr 0) as [->|Hnz]; [by left|].
    assert (Hmrpos : 0 < mr) by lia.
    (* the rounded mantissa has at most 53 digits, or is 2^53 *)
    assert (Hle : mr ≤ 2 ^ 53 ∧ (mr = 2 ^ 53 → fexp64 (54 + (ex + n)) = ex + n + 1)).
    { destruct (Z.eq_dec m1 0) as [->|Hm1nz].
      - split; [lia|]. intros ->. lia.
      - assert (0 < m1) by lia.
        pose proof (Zdigits2_shift mx m1 n ltac:(done) ltac:(lia) Hflm) as Hd.
        pose proof (Zdigits2_bounds m1 ltac:(done)) as [_ Hb].
        assert (Hd53 : Zdigits2 m1 ≤ 53) by (rewrite Hd, Hn; unfold fexp64; lia).
        pose proof (Z.pow_le_mono_r 2 (Zdigits2 m1) 53 ltac:(lia) Hd53).
        split; [lia|]. intros ->.
        assert (Zdigits2 m1 = 53).
        { destruct (Z.eq_dec (Zdigits2 m1) 53); [done|].
          pose proof (Z.pow_le_mono_r 2 (Zdigits2 m1) 52 ltac:(lia) ltac:(lia)).
          change (2 ^ 53) with (2 * 2 ^ 52) in *. lia. }
        unfold fexp64 in *. lia. }
    destruct Hle as [Hle Heq].
    destruct (Z.eq_dec mr (2 ^ 53)) as [->|Hne].
    + right; right. split; [done|]. by apply Heq.
    + right; left.
      assert (Zdigits2 mr ≤ 53).
      { pose proof (Zdigits2_bounds mr Hmrpos) as [Hb _].
        assert (Zdigits2 mr - 1 < 53) by (apply pow2_lt_inv; lia). lia. }
      unfold fexp64. lia.
Qed.

(** *** The specification of [binary_round_aux] *)

Theorem binary_round_aux_spec sx mx ex lx N D :
  0 < D → 0 ≤ mx → shr_inv N D (shr_record_of_loc mx lx) →
  roundable mx ex lx →
  ∃ mr, rounds N D ex mr (ex + Z.max (fexp64 (Zdigits2 mx + ex) - ex) 0) ∧
    round_result sx mr (ex + Z.max (fexp64 (Zdigits2 mx + ex) - ex) 0)
      (binary_round_aux prec emax sx mx ex lx).
Proof.
  intros HD Hmx H0 Hr.
  destruct (rounded_spec mx ex lx N D HD Hmx H0)
    as (He & m1 & Hm1 & Hfl & Hmr & Hex & Hhalf & Ht1 & Ht2).
  destruct (rounded_fits mx ex lx N D HD Hmx H0 Hr) as [Hnn Hfit].
  rewrite binary_round_aux_rounded.
  set (n := Z.max (fexp64 (Zdigits2 mx + ex) - ex) 0) in *.
  set (mr := (rounded mx ex lx).1) in *. rewrite He in *. clearbody mr.
  assert (Hp : 0 < 2 ^ n) by (apply Z.pow_pos_nonneg; lia).
  exists mr. split.
  - set (U := 2 ^ n * D) in *. assert (0 < U) by (unfold U; nia).
    split; try (replace (ex + n - ex) with n by lia; fold U);
      [lia|lia| | |lia|done|done].
    + intros k Hk. assert (k ≤ m1) by nia. lia.
    + intros k Hk. destruct (Z.eq_dec N (m1 * U)) as [HN|HN].
      * rewrite (Hex HN). nia.
      * assert (m1 < k) by nia. lia.
  - exact (classify_rounded_spec sx mr (ex + n) Hnn Hfit).
Qed.

(** *** Finite values and their order *)

Lemma bounded_spec m e :
  bounded prec emax m e = true ↔
  fexp64 (Zpos (digits2_pos m) + e) = e ∧ e ≤ 971.
Proof.
  unfold bounded, canonical_mantissa. rewrite fexp64_eq.
  rewrite andb_true_iff, Z.eqb_eq, Z.leb_le. done.
Qed.

Lemma bounded_facts m e :
  bounded prec emax m e = true →
  -1074 ≤ e ≤ 971 ∧ Zpos (digits2_pos m) ≤ 53 ∧ Zpos m < 2 ^ 53 ∧
  (e = -1074 ∨ 2 ^ 52 ≤ Zpos m).
Proof.
  intros [Hc He]%bounded_spec. unfold fexp64 in Hc.
  pose proof (digits2_pos_bounds m) as [Hb1 Hb2].
  set (d := Zpos (digits2_pos m)) in *.
  assert (d ≤ 53) by lia.
  pose proof (Z.pow_le_mono_r 2 d 53 ltac:(lia) ltac:(lia)).
  repeat split; try lia.
  destruct (Z.eq_dec e (-1074)); [by left|right].
  assert (d = 53) as Hd by lia. by rewrite Hd in Hb1.
Qed.

Lemma round_result_value sx mr er r :
  -2200 ≤ er → round_result sx mr er r → mr ≠ 0 →
  ∃ m2 e2, er ≤ e2 ≤ er + 1 ∧ Zpos m2 * P e2 = mr * P er ∧
    (e2 = er ∨ mr = 2 ^ 53) ∧
    r = if e2 <=? 971 then S754_finite sx m2 e2 else S754_infinity sx.
Proof.
  intros Her [[? _]|(m2 & e2 & Hs & Hr)] Hnz; [done|].
  exists m2, e2. destruct Hs as [[-> <-]|(-> & Hm & ->)].
  - split; [lia|]. split; [done|]. split; [by left|done].
  - split; [lia|]. split; [|split; [by right|done]].
    rewrite Hm, P_add by lia. change (2 ^ 53) with (2 ^ 52 * 2 ^ 1). ring.
Qed.

(** A value of the format is a multiple of every smaller unit. *)
Lemma P_multiple ma ea er :
  -2200 ≤ er → er ≤ ea → ma * P ea = (ma * 2 ^ (ea - er)) * P er.
Proof.
  intros. replace ea with (er + (ea - er)) at 1 by lia.
  rewrite P_add by lia. ring.
Qed.

Section RoundOrder.

Variables (sx : bool) (mx ex : Z) (lx : location) (N D : Z).
Hypothesis HD : 0 < D.
Hypothesis Hmx : 0 ≤ mx.
Hypothesis Hloc : shr_inv N D (shr_record_of_loc mx lx).
Hypothesis Hk : ex ≤ fexp64 (Zdigits2 mx + ex).
Hypothesis Hex : -2200 ≤ ex.

Let er := fexp64 (Zdigits2 mx + ex).
Let r := binary_round_aux prec emax sx mx ex lx.

Lemma round_facts :
  ∃ mr, rounds N D ex mr er ∧ round_result sx mr er r ∧ mx * D ≤ N ∧
        -1074 ≤ er ∧ (er = -1074 ∨ (0 < mx ∧ er = Zdigits2 mx + ex - 53)).
Proof.
  destruct (binary_round_aux_spec sx mx ex lx N D HD Hmx Hloc (or_intror Hk))
    as (mr & Hr & Hres).
  replace (ex + Z.max (fexp64 (Zdigits2 mx + ex) - ex) 0) with er in *
    by (unfold er; lia).
  exists mr. split; [done|]. split; [done|].
  destruct Hloc as (_ & J & _).
  assert (Hx : shr_m (shr_record_of_loc mx lx) = mx) by (by destruct lx as [|[| |]]).
  rewrite Hx in J. split; [lia|].
  unfold er, fexp64 in *. split; [lia|].
  destruct (Z.eq_dec mx 0) as [->|]; [left; simpl in *; lia|].
  destruct (Z_le_gt_dec (Zdigits2 mx + ex - 53) (-1074)); [left|right]; lia.
Qed.

(** Rounding does not step over a value of the format from below. *)
Lemma round_le ma ea :
  bounded prec emax ma ea = true →
  N * P ex ≤ D * (Zpos ma * P ea) →
  r = S754_zero sx ∨
  ∃ m e, r = S754_finite sx m e ∧ -2200 ≤ e ∧ Zpos m * P e ≤ Zpos ma * P ea.
Proof.
  intros Hb Hle. destruct (bounded_facts ma ea Hb) as (Hea & Hda & Hma & _).
  apply bounded_spec in Hb as [Hcan _].
  destruct round_facts as (mr & Hr & Hres & HN & Her & Hcase).
  pose proof (P_pos ex Hex) as HPex. pose proof (P_pos ea ltac:(lia)) as HPea.
  pose proof (P_pos er ltac:(lia)) as HPer.
  (* the unit of the bound is not finer than the rounding unit *)
  assert (Hee : er ≤ ea).
  { destruct Hcase as [->|[Hpos ->]]; [lia|].
    pose proof (Zdigits2_bounds mx Hpos) as [Hd1 _].
    pose proof (digits2_pos_bounds ma) as [_ Hd2].
    set (dx := Zdigits2 mx) in *. set (da := Zpos (digits2_pos ma)) in *.
    assert (2 ^ (dx - 1) * P ex < 2 ^ da * P ea).
    { assert (A1 : 2 ^ (dx - 1) * D ≤ N) by nia.
      assert (A2 : 2 ^ (dx - 1) * D * P ex ≤ N * P ex)
        by (apply Z.mul_le_mono_nonneg_r; lia).
      assert (A3 : D * (Zpos ma * P ea) < D * (2 ^ da * P ea)).
      { apply Z.mul_lt_mono_pos_l; [lia|]. apply Z.mul_lt_mono_pos_r; lia. }
      apply (Z.mul_lt_mono_pos_l D); lia. }
    pose proof (Zdigits2_pos mx Hpos) as Hdx. fold dx in Hdx.
    unfold P in H. rewrite <- !Z.pow_add_r in H by lia.
    apply pow2_lt_inv in H; [|lia]. unfold fexp64 in Hcan |- *. lia. }
  set (K := Zpos ma * 2 ^ (ea - er)).
  assert (HK : Zpos ma * P ea = K * P er) by (by apply P_multiple; lia).
  assert (HPU : P er = P ex * 2 ^ (er - ex)).
  { replace er with (ex + (er - ex)) at 1 by lia. apply P_add; lia. }
  destruct Hr as [R1 R2 R3 R4 _ _ _].
  assert (Hmr : mr ≤ K).
  { apply R4. rewrite HK, HPU in Hle. nia. }
  destruct (Z.eq_dec mr 0) as [Hz|Hnz].
  { left. destruct Hres as [[_ ?]|(m2 & e2 & Hs & _)]; [done|]. exfalso.
    destruct Hs as [[_ ?]|(_ & _ & ?)]; lia. }
  right. destruct (round_result_value sx mr er r ltac:(lia) Hres Hnz)
    as (m2 & e2 & He2 & Hv & Hsh & Hrr).
  assert (Hval : Zpos m2 * P e2 ≤ Zpos ma * P ea) by (rewrite Hv, HK; nia).
  assert (e2 ≤ 971).
  { destruct Hsh as [->|Hmr53]; [lia|].
    (* 2^53 ≤ K < 2^53 * 2^(ea - er) *)
    destruct (Z.eq_dec ea er) as [Heq|]; [|lia].
    exfalso. unfold K in Hmr. rewrite Heq, Z.sub_diag in Hmr. simpl in Hmr. lia. }
  exists m2, e2. rewrite Hrr. rewrite (proj2 (Z.leb_le e2 971)) by done.
  split; [done|]. split; [lia|done].
Qed.

(** Rounding does not step over a value of the format from above. *)
Lemma round_ge ma ea :
  bounded prec emax ma ea = true →
  D * (Zpos ma * P ea) ≤ N * P ex →
  r = S754_infinity sx ∨
  ∃ m e, r = S754_finite sx m e ∧ -2200 ≤ e ∧ Zpos ma * P ea ≤ Zpos m * P e.
Proof.
  intros Hb Hle. destruct (bounded_facts ma ea Hb) as (Hea & Hda & Hma & _).
  destruct round_facts as (mr & Hr & Hres & HN & Her & Hcase).
  pose proof (P_pos ex Hex) as HPex. pose proof (P_pos ea ltac:(lia)) as HPea.
  pose proof (P_pos er ltac:(lia)) as HPer.
  assert (HPU : P er = P ex * 2 ^ (er - ex)).
  { replace er with (ex + (er - ex)) at 1 by lia. apply P_add; lia. }
  destruct Hr as [R1 R2 R3 R4 _ _ _].
  assert (Hp : 0 < 2 ^ (er - ex)) by (apply Z.pow_pos_nonneg; lia).
  assert (Hval : Zpos ma * P ea ≤ mr * P er).
  { destruct (Z_le_gt_dec er ea) as [Hee|Hee].
    - set (K := Zpos ma * 2 ^ (ea - er)).
      assert (HK : Zpos ma * P ea = K * P er) by (by apply P_multiple; lia).
      assert (K ≤ mr). { apply R3. rewrite HK, HPU in Hle. nia. }
      rewrite HK. nia.
    - (* the bound is below the smallest normal mantissa at this unit *)
      destruct Hcase as [->|[Hpos Heq]]; [lia|].
      pose proof (Zdigits2_bounds mx Hpos) as [Hd1 _].
      assert (2 ^ 52 ≤ mr).
      { apply R3. replace (er - ex) with (Zdigits2 mx - 53) by lia.
        assert (2 ^ (Zdigits2 mx - 1) = 2 ^ 52 * 2 ^ (Zdigits2 mx - 53)) as Hs.
        { rewrite <- Z.pow_add_r by lia. f_equal. lia. }
        nia. }
      assert (P ea * 2 ≤ P er).
      { replace er with (ea + (er - ea)) by lia. rewrite P_add by lia.
        pose proof (Z.pow_le_mono_r 2 1 (er - ea) ltac:(lia) ltac:(lia)).
        simpl in H0. nia. }
      change (2 ^ 53) with (2 ^ 52 * 2) in Hma. nia. }
  assert (Hnz : mr ≠ 0) by nia.
  destruct (round_result_value sx mr er r ltac:(lia) Hres Hnz)
    as (m2 & e2 & He2 & Hv & Hsh & Hrr).
  rewrite Hrr. destruct (Z.leb_spec e2 971).
  - right. exists m2, e2. split; [done|]. split; [lia|]. by rewrite Hv.
  - by left.
Qed.

End RoundOrder.

(** *** Non-negative finite values *)

Lemma V_nonneg x : nn x → 0 ≤ V x.
Proof.
  destruct x as [| | |[] m e]; simpl; try lia. intros Hb.
  destruct (bounded_facts m e Hb) as (He & _). pose proof (P_pos e ltac:(lia)). lia.
Qed.

Lemma V_pos m e : bounded prec emax m e = true → 0 < V (S754_finite false m e).
Proof.
  intros Hb. destruct (bounded_facts m e Hb) as (He & _).
  pose proof (P_pos e ltac:(lia)). simpl. lia.
Qed.

Lemma P_mul e1 e2 : -2200 ≤ e1 → -2200 ≤ e2 → -2200 ≤ e1 + e2 →
  P e1 * P e2 = P (e1 + e2) * P 0.
Proof.
  intros. unfold P. rewrite <- !Z.pow_add_r by lia. f_equal. lia.
Qed.

Lemma nn0_valid x : nn0 x → valid_binary x = true → nn x.
Proof. by destruct x as [| | |[] m e]. Qed.

Lemma round_le_V (mx ex : Z) lx N D a :
  0 < D → 0 ≤ mx → shr_inv N D (shr_record_of_loc mx lx) →
  ex ≤ fexp64 (Zdigits2 mx + ex) → -2200 ≤ ex → 0 < N →
  nn a → N * P ex ≤ D * V a →
  nn0 (binary_round_aux prec emax false mx ex lx) ∧
  V (binary_round_aux prec emax false mx ex lx) ≤ V a.
Proof.
  intros HD Hmx Hloc Hk Hex HN Ha Hle.
  destruct a as [| | |[] ma ea]; simpl in Ha; try done.
  - simpl in Hle. pose proof (P_pos ex Hex). nia.
  - simpl in Hle.
    destruct (round_le false mx ex lx N D HD Hmx Hloc Hk Hex ma ea Ha Hle)
      as [->|(m & e & -> & He & Hv)]; simpl.
    + split; [done|]. pose proof (V_pos ma ea Ha). simpl in *. lia.
    + done.
Qed.

(** *** Multiplication *)

Lemma mul_roundable mx ex my ey :
  bounded prec emax mx ex = true → bounded prec emax my ey = true →
  ex + ey ≤ fexp64 (Zdigits2 (Zpos (mx * my)) + (ex + ey)).
Proof.
  intros Hx Hy.
  destruct (bounded_facts mx ex Hx) as (Hex & _ & _ & Hnx).
  destruct (bounded_facts my ey Hy) as (Hey & _ & _ & Hny).
  assert (Hd : 2 ^ 52 ≤ Zpos mx * Zpos my → 53 ≤ Zdigits2 (Zpos (mx * my))).
  { intros H. change 53 with (Zdigits2 (2 ^ 52)).
    apply Zdigits2_le; [done|]. by rewrite Pos2Z.inj_mul. }
  unfold fexp64.
  destruct Hnx as [->|Hnx]; destruct Hny as [->|Hny]; [lia| | |];
    (assert (2 ^ 52 ≤ Zpos mx * Zpos my) as H by nia; specialize (Hd H); lia).
Qed.

(** The product of two non-negative numbers does not exceed a number of the
    format that bounds the exact product. *)
Lemma SFmul_le x y a :
  nn x → nn y → nn a → V x * V y ≤ V a * P 0 →
  nn0 (SFmul prec emax x y) ∧ V (SFmul prec emax x y) ≤ V a.
Proof.
  intros Hx Hy Ha Hle. pose proof (V_nonneg a Ha) as Hva.
  destruct x as [sx| | |[] mx ex]; try done;
    destruct y as [sy| | |[] my ey]; try done; simpl SFmul; try done.
  simpl in Hx, Hy.
  destruct (bounded_facts mx ex Hx) as (Hex & _).
  destruct (bounded_facts my ey Hy) as (Hey & _).
  apply round_le_V with (N := Zpos (mx * my)) (D := 1); try lia; try done.
  - apply shr_record_of_loc_exact. lia.
  - by apply mul_roundable.
  - simpl in Hle. rewrite Pos2Z.inj_mul.
    assert (HP : P ex * P ey = P (ex + ey) * P 0) by (apply P_mul; lia).
    pose proof (P_pos 0 ltac:(lia)) as HP0.
    apply (Z.mul_le_mono_pos_r _ _ (P 0)); [done|].
    replace (Zpos mx * Zpos my * P (ex + ey) * P 0)
      with (Zpos mx * Zpos my * (P (ex + ey) * P 0)) by ring.
    rewrite <- HP. lia.
Qed.

(** *** Alignment and normalisation of an exact integer mantissa *)

Lemma pos_iter_xO (m d : positive) :
  Zpos (Pos.iter xO m d) = Zpos m * 2 ^ Zpos d.
Proof.
  induction d as [|d IH] using Pos.peano_ind.
  - simpl. lia.
  - rewrite Pos.iter_succ, Pos2Z.inj_xO, IH, Pos2Z.inj_succ.
    rewrite Z.pow_succ_r by lia. ring.
Qed.

Lemma shl_align_spec mx ex ex' :
  (shl_align mx ex ex').2 = Z.min ex ex' ∧
  Zpos (shl_align mx ex ex').1 = Zpos mx * 2 ^ (ex - Z.min ex ex').
Proof.
  unfold shl_align. destruct (ex' - ex) as [|d|d] eqn:E; simpl.
  - rewrite Z.min_l by lia. rewrite Z.sub_diag. simpl. lia.
  - rewrite Z.min_l by lia. rewrite Z.sub_diag. simpl. lia.
  - rewrite Z.min_r by lia. split; [done|].
    rewrite pos_iter_xO. f_equal. f_equal. lia.
Qed.

Lemma Zdigits2_mul_pow2 m k :
  0 < m → 0 ≤ k → Zdigits2 (m * 2 ^ k) = Zdigits2 m + k.
Proof.
  intros Hm Hk. pose proof (Zdigits2_bounds m Hm) as [H1 H2].
  pose proof (Zdigits2_pos m Hm) as Hd.
  assert (Hp : 0 < 2 ^ k) by (apply Z.pow_pos_nonneg; lia).
  apply Zdigits2_unique; [nia|lia|].
  replace (Zdigits2 m + k - 1) with (Zdigits2 m - 1 + k) by lia.
  rewrite !Z.pow_add_r by lia. nia.
Qed.

(** [binary_round] is [binary_round_aux] on an aligned mantissa of the same
    value. *)
Lemma binary_round_aligned sx (mx : positive) ex :
  -2200 ≤ ex →
  ∃ (mz : positive) ez,
    binary_round prec emax sx mx ex =
      binary_round_aux prec emax sx (Zpos mz) ez loc_Exact ∧
    -2200 ≤ ez ∧ ez ≤ ex ∧ Zpos mz * P ez = Zpos mx * P ex ∧
    Zdigits2 (Zpos mz) + ez = Zdigits2 (Zpos mx) + ex ∧
    ez ≤ fexp64 (Zdigits2 (Zpos mz) + ez).
Proof.
  intros Hex. unfold binary_round. rewrite fexp64_eq.
  pose proof (shl_align_spec mx ex (fexp64 (Zpos (digits2_pos mx) + ex))) as [H2 H1].
  destruct (shl_align mx ex (fexp64 (Zpos (digits2_pos mx) + ex))) as [mz ez].
  simpl in H1, H2. exists mz, ez. split; [done|].
  set (F := fexp64 (Zpos (digits2_pos mx) + ex)) in *.
  assert (-1074 ≤ F) by (unfold F, fexp64; lia).
  assert (Hd : Zdigits2 (Zpos mz) = Zdigits2 (Zpos mx) + (ex - ez)).
  { rewrite H1, <- H2. apply Zdigits2_mul_pow2; lia. }
  split; [lia|]. split; [lia|]. split.
  - rewrite H1, <- H2. replace ex with (ez + (ex - ez)) at 2 by lia.
    rewrite P_add by lia. ring.
  - split; [lia|]. rewrite Hd.
    replace (Zdigits2 (Zpos mx) + (ex - ez) + ez) with (Zdigits2 (Zpos mx) + ex) by lia.
    change (Zdigits2 (Zpos mx)) with (Zpos (digits2_pos mx)). fold F. lia.
Qed.

Lemma binary_normalize_pos m e :
  0 < m → binary_normalize prec emax m e false =
          binary_round prec emax false (Z.to_pos m) e.
Proof. by destruct m. Qed.

(** Normalising a non-negative integer mantissa stays below a bounding
    number of the format. *)
Lemma normalize_le m e a :
  0 ≤ m → -2200 ≤ e → nn a → m * P e ≤ V a →
  nn0 (binary_normalize prec emax m e false) ∧
  V (binary_normalize prec emax m e false) ≤ V a.
Proof.
  intros Hm He Ha Hle.
  destruct (Z.eq_dec m 0) as [->|Hnz].
  { simpl. split; [done|]. by apply V_nonneg. }
  rewrite binary_normalize_pos by lia.
  destruct (binary_round_aligned false (Z.to_pos m) e He)
    as (mz & ez & -> & Hez & _ & Hv & _ & Hk).
  rewrite Z2Pos.id in Hv by lia.
  apply round_le_V with (N := Zpos mz) (D := 1); try lia; try done.
  apply shr_record_of_loc_exact. lia.
Qed.

(** The rounding performed by [binary_normalize] on a positive mantissa. *)
Lemma normalize_rounds m e :
  0 < m → -2200 ≤ e →
  ∃ mz ez mr,
    -2200 ≤ ez ∧ ez ≤ fexp64 (Zdigits2 m + e) ∧ 0 < mz ∧
    mz * P ez = m * P e ∧
    rounds mz 1 ez mr (fexp64 (Zdigits2 m + e)) ∧
    round_result false mr (fexp64 (Zdigits2 m + e))
      (binary_normalize prec emax m e false).
Proof.
  intros Hm He. rewrite binary_normalize_pos by lia.
  destruct (binary_round_aligned false (Z.to_pos m) e He)
    as (mz & ez & -> & Hez & _ & Hv & Hd & Hk).
  rewrite Z2Pos.id in Hv, Hd by lia.
  destruct (round_facts false (Zpos mz) ez loc_Exact (Zpos mz) 1 ltac:(lia) ltac:(lia)
              (shr_record_of_loc_exact (Zpos mz) ltac:(lia)) Hk)
    as (mr & Hr & Hres & _).
  rewrite Hd in Hr, Hres, Hk.
  exists (Zpos mz), ez, mr.
  split; [done|]. split; [done|]. split; [lia|]. by split.
Qed.

Lemma P_unit ez er : -2200 ≤ ez → ez ≤ er → P er = 2 ^ (er - ez) * P ez.
Proof.
  intros. replace er with (ez + (er - ez)) at 1 by lia.
  rewrite P_add by lia. ring.
Qed.

(** Below one, rounding adds at most half a unit in the last place. *)
Lemma normalize_half m e :
  0 < m → -2200 ≤ e → m * P e < P 0 →
  nn0 (binary_normalize prec emax m e false) ∧
  V (binary_normalize prec emax m e false) ≤ m * P e + P (-54).
Proof.
  intros Hm He Hlt.
  destruct (normalize_rounds m e Hm He)
    as (mz & ez & mr & Hez & Hk & Hmz & Hv & Hr & Hres).
  set (er := fexp64 (Zdigits2 m + e)) in *.
  assert (Her : -1074 ≤ er ≤ -53).
  { pose proof (Zdigits2_bounds m Hm) as [Hd _].
    pose proof (Zdigits2_pos m Hm) as Hdp.
    pose proof (P_pos e He) as HPe.
    assert (2 ^ (Zdigits2 m - 1) * P e < P 0) as H by nia.
    unfold P in H. rewrite <- Z.pow_add_r in H by lia.
    apply pow2_lt_inv in H; [|lia]. unfold er, fexp64. lia. }
  pose proof (P_unit ez er ltac:(lia) Hk) as HU.
  set (U := 2 ^ (er - ez)) in *.
  destruct Hr as [_ R2 _ _ R5 _ _]. fold U in R5. rewrite Z.mul_1_r in R5.
  pose proof (P_pos ez ltac:(lia)) as HPez.
  assert (Hval : 2 * (mr * P er) ≤ 2 * (m * P e) + P er).
  { rewrite HU, <- Hv. nia. }
  assert (HP54 : P er ≤ 2 * P (-54)).
  { change (2 * P (-54)) with (P (-53)). apply P_le; lia. }
  destruct (Z.eq_dec mr 0) as [Hz|Hnz].
  { destruct Hres as [[_ ->]|(m2 & e2 & Hs & _)].
    - simpl. split; [done|]. pose proof (P_pos e He).
      pose proof (P_pos (-54) ltac:(lia)). nia.
    - exfalso. destruct Hs as [[_ ?]|(_ & _ & ?)]; lia. }
  destruct (round_result_value false mr er _ ltac:(lia) Hres Hnz)
    as (m2 & e2 & He2 & Hv2 & _ & ->).
  rewrite (proj2 (Z.leb_le e2 971)) by lia. simpl. split; [done|]. lia.
Qed.

(** Just above one, up to half a unit, rounding returns one. *)
Lemma normalize_near_one m e :
  0 < m → -2200 ≤ e → P 0 < m * P e → 2 * (m * P e) ≤ 2 * P 0 + P (-52) →
  nn0 (binary_normalize prec emax m e false) ∧
  V (binary_normalize prec emax m e false) = P 0.
Proof.
  intros Hm He Hlo Hhi.
  destruct (normalize_rounds m e Hm He)
    as (mz & ez & mr & Hez & Hk & Hmz & Hv & Hr & Hres).
  set (er := fexp64 (Zdigits2 m + e)) in *.
  assert (Her : er = -52).
  { pose proof (Zdigits2_bounds m Hm) as [Hd1 Hd2].
    pose proof (Zdigits2_pos m Hm) as Hdp.
    pose proof (P_pos e He) as HPe.
    assert (P 0 < 2 ^ Zdigits2 m * P e) as H1 by nia.
    assert (P (-52) ≤ P 0) as HP by (apply P_le; lia).
    assert (2 ^ (Zdigits2 m - 1) * P e < P 1) as H2.
    { change (P 1) with (2 * P 0). nia. }
    unfold P in H1, H2. rewrite <- Z.pow_add_r in H1, H2 by lia.
    apply pow2_lt_inv in H1; [|lia]. apply pow2_lt_inv in H2; [|lia].
    unfold er, fexp64. lia. }
  rewrite Her in *.
  pose proof (P_unit ez (-52) ltac:(lia) Hk) as HU.
  set (U := 2 ^ (-52 - ez)) in *.
  assert (HUpos : 0 < U) by (apply Z.pow_pos_nonneg; lia).
  pose proof (P_pos ez ltac:(lia)) as HPez.
  assert (HP0 : P 0 = 2 ^ 52 * U * P ez).
  { change (P 0) with (2 ^ 52 * P (-52)). rewrite HU. ring. }
  rewrite <- Hv, HP0 in Hlo. rewrite <- Hv, HP0, HU in Hhi.
  assert (Hlo' : 2 ^ 52 * U < mz) by nia.
  assert (Hhi' : 2 * mz ≤ (2 ^ 53 + 1) * U).
  { apply (Z.mul_le_mono_pos_r _ _ (P ez)); [done|].
    change (2 ^ 53) with (2 * 2 ^ 52). nia. }
  destruct Hr as [_ R2 R3 R4 R5 R6 _].
  fold U in R3, R4, R5, R6. rewrite Z.mul_1_r in R3, R4, R5, R6.
  assert (Hge : 2 ^ 52 ≤ mr) by (apply R3; lia).
  assert (Hle : mr ≤ 2 ^ 52 + 1).
  { apply R4. change (2 ^ 53) with (2 * 2 ^ 52) in Hhi'. nia. }
  assert (Hmr : mr = 2 ^ 52).
  { destruct (Z.eq_dec mr (2 ^ 52)) as [|Hne]; [done|exfalso].
    assert (mr = 2 ^ 52 + 1) as Heq by lia. rewrite Heq in R5, R6.
    change (2 ^ 53) with (2 * 2 ^ 52) in Hhi'.
    assert (Z.even (2 ^ 52 + 1) = true) by (apply R6; nia). done. }
  assert (Hnz : mr ≠ 0) by (rewrite Hmr; done).
  destruct (round_result_value false mr (-52) _ ltac:(lia) Hres Hnz)
    as (m2 & e2 & He2 & Hv2 & Hs & ->).
  assert (e2 = -52) as -> by (destruct Hs as [|Hs]; [done|rewrite Hmr in Hs; done]).
  simpl. split; [done|]. rewrite Hv2, Hmr. done.
Qed.

(** *** Addition and subtraction *)

Lemma shl_align_value mx ex ez :
  -2200 ≤ ez → ez ≤ ex →
  Zpos (shl_align mx ex ez).1 * P ez = Zpos mx * P ex.
Proof.
  intros H1 H2. destruct (shl_align_spec mx ex ez) as [_ ->].
  rewrite Z.min_r by lia. rewrite (P_unit ez ex) by lia. ring.
Qed.

(** The sum of two numbers whose exact sum is at most one plus half a unit
    in the last place of one. *)
Lemma SFadd_le_one x y :
  nn x → nn y → V x ≤ P 0 → V y ≤ P 0 →
  2 * (V x + V y) ≤ 2 * P 0 + P (-52) →
  nn0 (SFadd prec emax x y) ∧ V (SFadd prec emax x y) ≤ P 0.
Proof.
  intros Hx Hy Hvx Hvy Hsum.
  pose proof (P_pos 0 ltac:(lia)) as HP0.
  destruct x as [sx| | |[] mx ex]; try done;
    destruct y as [sy| | |[] my ey]; try done.
  - simpl. destruct sx, sy; simpl; split; (done || lia).
  - simpl in Hx, Hy.
    destruct (bounded_facts mx ex Hx) as (Hex & _).
    destruct (bounded_facts my ey Hy) as (Hey & _).
    unfold SFadd. set (ez := Z.min ex ey). simpl cond_Zopp.
    pose proof (shl_align_value mx ex ez ltac:(lia) ltac:(lia)) as Ha.
    pose proof (shl_align_value my ey ez ltac:(lia) ltac:(lia)) as Hb.
    set (m := Zpos (shl_align mx ex ez).1 + Zpos (shl_align my ey ez).1) in *.
    assert (Hm : 0 < m) by (unfold m; lia).
    assert (Hv : m * P ez = V (S754_finite false mx ex) + V (S754_finite false my ey)).
    { unfold m. simpl. lia. }
    destruct (Z_le_gt_dec (m * P ez) (P 0)) as [Hle|Hgt].
    + apply (normalize_le m ez (S754_finite false (2 ^ 52) (-52))); try lia; done.
    + destruct (normalize_near_one m ez Hm ltac:(lia) ltac:(lia) ltac:(lia))
        as [H1 H2].
      split; [done|lia].
Qed.

Lemma V_one : V SFone = P 0.
Proof. reflexivity. Qed.

(** [1 - y] for [0 ≤ y ≤ 1]: it stays in the unit interval and overshoots the
    exact difference by at most [2^-54]. *)
Lemma SFsub_one y :
  nn y → V y ≤ P 0 →
  nn0 (SFsub prec emax SFone y) ∧ V (SFsub prec emax SFone y) ≤ P 0 ∧
  V (SFsub prec emax SFone y) + V y ≤ P 0 + P (-54).
Proof.
  intros Hy Hvy.
  pose proof (P_pos 0 ltac:(lia)) as HP0.
  pose proof (P_pos (-54) ltac:(lia)) as HP54.
  destruct y as [sy|sy| |[] my ey]; [|done|done|done|].
  - change (SFsub prec emax SFone (S754_zero sy)) with SFone.
    rewrite V_one. change (V (S754_zero sy)) with 0. split; [done|lia].
  - simpl in Hy. destruct (bounded_facts my ey Hy) as (Hey & _).
    pose proof (V_pos my ey Hy) as Hpos.
    unfold SFsub, SFone. set (ez := Z.min (-52) ey). simpl cond_Zopp.
    pose proof (shl_align_value (2 ^ 52) (-52) ez ltac:(lia) ltac:(lia)) as Ha.
    pose proof (shl_align_value my ey ez ltac:(lia) ltac:(lia)) as Hb.
    change (Zpos (2 ^ 52) * P (-52)) with (P 0) in Ha.
    set (m := Zpos (shl_align (2 ^ 52) (-52) ez).1 - Zpos (shl_align my ey ez).1) in *.
    pose proof (P_pos ez ltac:(lia)) as HPez.
    assert (Hv : m * P ez = P 0 - V (S754_finite false my ey)).
    { unfold m. simpl. lia. }
    assert (Hm : 0 ≤ m) by nia.
    destruct (normalize_le m ez SFone Hm ltac:(lia) ltac:(done) ltac:(rewrite V_one; lia))
      as [H1 H2].
    split; [done|]. split; [by rewrite V_one in H2|].
    destruct (Z.eq_dec m 0) as [Hz|Hnz].
    + rewrite Hz in *. simpl. simpl in Hv. lia.
    + destruct (normalize_half m ez ltac:(lia) ltac:(lia) ltac:(lia)) as [_ H3]. lia.
Qed.

(** *** Exactly representable integers *)

(** A mantissa that already fits its exponent is kept as it is. *)
Lemma normalize_exact m e :
  0 < m → -2200 ≤ e → fexp64 (Zdigits2 m + e) ≤ e → e ≤ 900 →
  nn0 (binary_normalize prec emax m e false) ∧
  V (binary_normalize prec emax m e false) = m * P e.
Proof.
  intros Hm He Hfit Hhi.
  destruct (normalize_rounds m e Hm He)
    as (mz & ez & mr & Hez & Hk & Hmz & Hv & Hr & Hres).
  set (er := fexp64 (Zdigits2 m + e)) in *.
  assert (Her : -1074 ≤ er) by (unfold er, fexp64; lia).
  pose proof (P_unit ez er ltac:(lia) Hk) as HU.
  pose proof (P_unit er e ltac:(lia) Hfit) as HE.
  set (U := 2 ^ (er - ez)) in *. set (T := 2 ^ (e - er)) in *.
  assert (HUpos : 0 < U) by (apply Z.pow_pos_nonneg; lia).
  assert (HTpos : 0 < T) by (apply Z.pow_pos_nonneg; lia).
  pose proof (P_pos ez ltac:(lia)) as HPez.
  assert (Hmz' : mz = m * T * U).
  { apply (Z.mul_cancel_r _ _ (P ez)); [lia|]. rewrite Hv, HE, HU. ring. }
  destruct Hr as [_ R2 R3 R4 _ _ _].
  fold U in R3, R4. rewrite Z.mul_1_r in R3, R4.
  assert (Hmr : mr = m * T) by (apply Z.le_antisymm; [apply R4|apply R3]; lia).
  assert (Hnz : mr ≠ 0) by nia.
  destruct (round_result_value false mr er _ ltac:(lia) Hres Hnz)
    as (m2 & e2 & He2 & Hv2 & _ & ->).
  rewrite (proj2 (Z.leb_le e2 971)) by lia. simpl. split; [done|].
  rewrite Hv2, Hmr, HE. ring.
Qed.

(** *** Division *)

Lemma new_location_inv D r :
  0 < D → 0 ≤ r < D →
  ∀ q, 0 ≤ q →
  shr_inv (q * D + r) D (shr_record_of_loc q (new_location D r)).
Proof.
  intros HD Hr q Hq. unfold new_location, new_location_even, new_location_odd.
  assert (Hm : ∀ l, shr_m (shr_record_of_loc q l) = q) by (by intros [|[| |]]).
  unfold shr_inv. rewrite !Hm.
  split; [done|]. split; [nia|].
  replace (2 * (q * D + r - q * D)) with (2 * r) by ring.
  destruct (Z.even D) eqn:Ev.
  - destruct (Z.eqb_spec r 0) as [->|Hnz]; [simpl; lia|].
    destruct (Z.compare_spec (2 * r) D); simpl; lia.
  - destruct (Z.eqb_spec r 0) as [->|Hnz]; [simpl; lia|].
    assert (2 * r ≠ D).
    { intros <-. rewrite Z.even_mul in Ev. done. }
    destruct (Z.compare_spec (2 * r + 1) D); simpl; lia.
Qed.

(** The quotient of two positive finite numbers as a located integer. *)
Lemma SFdiv_core_spec (m1 m2 : positive) e1 e2 :
  bounded prec emax m1 e1 = true → bounded prec emax m2 e2 = true →
  ∃ q ex lx s,
    SFdiv_core_binary prec emax (Zpos m1) e1 (Zpos m2) e2 = (q, ex, lx) ∧
    0 ≤ s ∧ ex + s = e1 - e2 ∧ -2200 ≤ ex ∧ 0 ≤ q ∧
    shr_inv (Zpos m1 * 2 ^ s) (Zpos m2) (shr_record_of_loc q lx) ∧
    ex ≤ fexp64 (Zdigits2 q + ex) ∧
    (ex = Z.min (fexp64 (Zdigits2 (Zpos m1) + e1 - (Zdigits2 (Zpos m2) + e2)))
                (e1 - e2)) ∧
    (ex ≤ -1074 ∨ 2 ^ 52 ≤ q).
Proof.
  intros H1 H2.
  destruct (bounded_facts m1 e1 H1) as (He1 & Hd1 & _).
  destruct (bounded_facts m2 e2 H2) as (He2 & Hd2 & _).
  unfold SFdiv_core_binary. rewrite fexp64_eq.
  set (d1 := Zdigits2 (Zpos m1)). set (d2 := Zdigits2 (Zpos m2)).
  set (mu := d1 + e1 - (d2 + e2)).
  set (ex := Z.min (fexp64 mu) (e1 - e2)).
  set (s := e1 - e2 - ex).
  assert (Hs : 0 ≤ s) by (unfold s, ex; lia).
  assert (Hm' : (match s with
                 | 0 => Zpos m1 | Zpos _ => Z.shiftl (Zpos m1) s | Zneg _ => 0
                 end) = Zpos m1 * 2 ^ s).
  { destruct s as [|p|p] eqn:E; [simpl; lia| |lia].
    rewrite Z.shiftl_mul_pow2 by lia. done. }
  rewrite Hm'.
  assert (Hp : 0 < 2 ^ s) by (apply Z.pow_pos_nonneg; lia).
  pose proof (Z_div_mod (Zpos m1 * 2 ^ s) (Zpos m2) ltac:(lia)) as Hdm.
  destruct (Z.div_eucl (Zpos m1 * 2 ^ s) (Zpos m2)) as [q r].
  destruct Hdm as [Heq Hr].
  assert (Hq : 0 ≤ q) by nia.
  exists q, ex, (new_location (Zpos m2) r), s.
  split; [done|]. split; [done|]. split; [unfold s; lia|].
  split; [unfold ex, fexp64; lia|]. split; [done|]. split.
  - rewrite Heq. replace (Zpos m2 * q + r) with (q * Zpos m2 + r) by ring.
    apply new_location_inv; lia.
  - (* the quotient has enough digits *)
    cut (ex ≤ -1074 ∨ 2 ^ 52 ≤ q).
    { intros Hc. split; [|split; [done|exact Hc]].
      destruct Hc as [|Hq52]; [unfold fexp64; lia|].
      assert (53 ≤ Zdigits2 q).
      { change 53 with (Zdigits2 (2 ^ 52)). apply Zdigits2_le; [done|lia]. }
      unfold fexp64. lia. }
    destruct (Z_le_gt_dec ex (-1074)) as [|Hgt]; [by left|right].
    assert (Hmu : ex ≤ mu - 53) by (unfold ex, fexp64 in *; lia).
    assert (Hs53 : 53 ≤ d1 + s - d2) by (unfold s, mu in *; lia).
    pose proof (digits2_pos_bounds m1) as [Hb1 _]. fold (Zdigits2 (Zpos m1)) in Hb1.
    pose proof (digits2_pos_bounds m2) as [_ Hb2]. fold (Zdigits2 (Zpos m2)) in Hb2.
    fold d1 in Hb1. fold d2 in Hb2.
    assert (Hd1p : 0 < d1) by (unfold d1; simpl; lia).
    assert (Hd2p : 0 < d2) by (unfold d2; simpl; lia).
    assert (Hq52 : 2 ^ 52 ≤ q).
    { assert (2 ^ (d1 - 1 + s) ≤ Zpos m1 * 2 ^ s).
      { rewrite Z.pow_add_r by lia. nia. }
      assert (2 ^ (d1 - 1 + s) = 2 ^ (d1 - 1 + s - d2) * 2 ^ d2) as Hsplit.
      { rewrite <- Z.pow_add_r by lia. f_equal. lia. }
      assert (2 ^ 52 ≤ 2 ^ (d1 - 1 + s - d2)) by (apply Z.pow_le_mono_r; lia).
      assert (0 < 2 ^ d2) by (apply Z.pow_pos_nonneg; lia).
      destruct (Z_le_gt_dec (2 ^ 52) q); [done|exfalso]. nia. }
    done.
Qed.

End Rounding.

(** ** Facts on binary64 values used by the image operations *)

Module FloatFacts.

Import Binary64 Rounding.
Local Open Scope Z_scope.

(** *** Exact products with one *)

Lemma SFmul_one_finite s m e :
  bounded prec emax m e = true →
  binary_round_aux prec emax s (Zpos (2 ^ 52 * m)) (-52 + e) loc_Exact =
  S754_finite s m e.
Proof.
  intros Hb. destruct (bounded_facts m e Hb) as (He & Hd & Hm & _).
  apply bounded_spec in Hb as [Hcan _].
  assert (Hdig : Zdigits2 (Zpos (2 ^ 52 * m)) = Zpos (digits2_pos m) + 52).
  { rewrite Pos2Z.inj_mul, Z.mul_comm.
    change (Zpos (2 ^ 52)) with (2 ^ 52). by rewrite Zdigits2_mul_pow2 by lia. }
  assert (Hk : -52 + e ≤ fexp64 (Zdigits2 (Zpos (2 ^ 52 * m)) + (-52 + e))).
  { rewrite Hdig. replace (Zpos (digits2_pos m) + 52 + (-52 + e))
      with (Zpos (digits2_pos m) + e) by lia. lia. }
  destruct (round_facts s (Zpos (2 ^ 52 * m)) (-52 + e) loc_Exact
              (Zpos (2 ^ 52 * m)) 1 ltac:(lia) ltac:(lia)
              (shr_record_of_loc_exact (Zpos (2 ^ 52 * m)) ltac:(lia)) Hk)
    as (mr & Hr & Hres & _).
  rewrite Hdig in Hr, Hres.
  replace (Zpos (digits2_pos m) + 52 + (-52 + e))
    with (Zpos (digits2_pos m) + e) in Hr, Hres by lia.
  rewrite Hcan in Hr, Hres.
  destruct Hr as [_ _ R3 R4 _ _ _].
  replace (e - (-52 + e)) with 52 in R3, R4 by lia.
  assert (Hmr : mr = Zpos m).
  { assert (Zpos (2 ^ 52 * m) = Zpos m * (2 ^ 52 * 1)) as Heq.
    { rewrite Pos2Z.inj_mul. change (Zpos (2 ^ 52)) with (2 ^ 52). ring. }
    apply Z.le_antisymm; [apply R4|apply R3]; lia. }
  destruct (round_result_value s mr e _ ltac:(lia) Hres ltac:(lia))
    as (m2 & e2 & He2 & Hv2 & Hs & ->).
  assert (e2 = e) as -> by (destruct Hs as [|Hs]; [done|lia]).
  rewrite (proj2 (Z.leb_le e 971)) by lia.
  f_equal. pose proof (P_pos e ltac:(lia)). nia.
Qed.

Lemma SFmul_one_l x :
  valid_binary x = true → SFmul prec emax SFone x = x.
Proof.
  destruct x as [s|s| |s m e]; [done|done|done|].
  intros Hb. unfold SFone. cbn [SFmul xorb].
  by apply SFmul_one_finite.
Qed.

Lemma SFmul_one_r x :
  valid_binary x = true → SFmul prec emax x SFone = x.
Proof.
  destruct x as [s|s| |s m e]; [by destruct s|by destruct s|done|].
  intros Hb. unfold SFone. cbn [SFmul].
  rewrite Pos.mul_comm, Z.add_comm, xorb_false_r.
  by apply SFmul_one_finite.
Qed.

Lemma Prim2SF_one : Prim2SF 1 = SFone.
Proof. reflexivity. Qed.

(** [1 * x] and [x * 1] are [x], for every binary64 value. *)
Lemma mul_one_l (x : float) : (1 * x)%float = x.
Proof.
  apply Prim2SF_inj. rewrite FloatAxioms.mul_spec, Prim2SF_one.
  apply SFmul_one_l, Prim2SF_valid.
Qed.

Lemma mul_one_r (x : float) : (x * 1)%float = x.
Proof.
  apply Prim2SF_inj. rewrite FloatAxioms.mul_spec, Prim2SF_one.
  apply SFmul_one_r, Prim2SF_valid.
Qed.

(** *** The unit interval of binary64 *)

Lemma SFcompare_one_le m e :
  bounded prec emax m e = true →
  (SFleb (S754_finite false m e) SFone = true ↔ Zpos m * P e ≤ P 0).
Proof.
  intros Hb. destruct (bounded_facts m e Hb) as (He & _ & Hm & Hn).
  pose proof (P_pos e ltac:(lia)) as HPe.
  unfold SFleb, SFcompare, SFone.
  destruct (Z.compare_spec e (-52)) as [->|Hlt|Hgt].
  - change (P 0) with (2 ^ 52 * P (-52)).
    rewrite Pos.compare_cont_spec. simpl.
    destruct (Pos.compare_spec m (2 ^ 52)) as [->|Hc|Hc]; simpl.
    + split; [lia|done].
    + split; [|done]. intros _. nia.
    + split; [done|]. intros H. exfalso.
      assert (Zpos (2 ^ 52) < Zpos m) by lia.
      change (Zpos (2 ^ 52)) with (2 ^ 52) in *. nia.
  - split; [|done]. intros _.
    assert (P e * 2 ≤ P (-52)).
    { replace (-52) with (e + (-52 - e)) by lia. rewrite P_add by lia.
      pose proof (Z.pow_le_mono_r 2 1 (-52 - e) ltac:(lia) ltac:(lia)) as Hp.
      simpl in Hp. nia. }
    change (P 0) with (2 ^ 52 * P (-52)). change (2 ^ 53) with (2 ^ 52 * 2) in Hm. nia.
  - split; [done|]. intros H. exfalso.
    destruct Hn as [->|Hn]; [lia|].
    assert (P (-51) ≤ P e) by (apply P_le; lia).
    change (P 0) with (2 ^ 51 * P (-51)) in H. nia.
Qed.

Lemma unitf_of_leb (x : float) :
  (0 <=? x)%float = true → (x <=? 1)%float = true → unitf x.
Proof.
  rewrite !leb_spec. pose proof (Prim2SF_valid x) as Hv.
  change (Prim2SF 0) with (S754_zero false). rewrite Prim2SF_one.
  unfold unitf. destruct (Prim2SF x) as [s|s| |s m e]; simpl in Hv.
  - intros _ _. simpl. split; [done|]. pose proof (P_pos 0). lia.
  - by destruct s.
  - done.
  - destruct s; [done|]. intros _ H. split; [done|].
    by apply SFcompare_one_le.
Qed.

Lemma leb_of_unitf (x : float) :
  unitf x → (0 <=? x)%float = true ∧ (x <=? 1)%float = true.
Proof.
  rewrite !leb_spec.
  change (Prim2SF 0) with (S754_zero false). rewrite Prim2SF_one.
  unfold unitf. destruct (Prim2SF x) as [s|s| |s m e]; simpl; try tauto.
  destruct s; [tauto|]. intros [Hb Hv]. split; [done|].
  by apply SFcompare_one_le.
Qed.

Lemma unitf_nonneg x : unitf x → 0 ≤ V (Prim2SF x).
Proof. intros [H _]. by apply V_nonneg. Qed.

Lemma unitf_mul (x y : float) :
  unitf x → unitf y →
  unitf (x * y) ∧ V (Prim2SF (x * y)) ≤ V (Prim2SF x) ∧
  V (Prim2SF (x * y)) ≤ V (Prim2SF y).
Proof.
  intros [Hx Hvx] [Hy Hvy].
  pose proof (V_nonneg _ Hx). pose proof (V_nonneg _ Hy).
  pose proof (Prim2SF_valid (x * y)) as Hval.
  unfold unitf. rewrite !FloatAxioms.mul_spec. rewrite FloatAxioms.mul_spec in Hval.
  destruct (SFmul_le _ _ _ Hx Hy Hy ltac:(nia)) as [H1 H2].
  destruct (SFmul_le _ _ _ Hx Hy Hx ltac:(nia)) as [_ H3].
  unfold SF64mul in *.
  split; [|lia]. split; [by apply nn0_valid|lia].
Qed.

Lemma unitf_one_sub (y : float) :
  unitf y →
  unitf (1 - y) ∧ V (Prim2SF (1 - y)) + V (Prim2SF y) ≤ P 0 + P (-54).
Proof.
  intros [Hy Hvy].
  pose proof (Prim2SF_valid (1 - y)) as Hval.
  unfold unitf. rewrite !FloatAxioms.sub_spec. rewrite FloatAxioms.sub_spec in Hval.
  rewrite Prim2SF_one in *. unfold SF64sub in *.
  destruct (SFsub_one _ Hy Hvy) as (H1 & H2 & H3).
  split; [|done]. split; [by apply nn0_valid|done].
Qed.

Lemma unitf_add (x y : float) :
  unitf x → unitf y →
  2 * (V (Prim2SF x) + V (Prim2SF y)) ≤ 2 * P 0 + P (-52) →
  unitf (x + y).
Proof.
  intros [Hx Hvx] [Hy Hvy] Hs.
  pose proof (Prim2SF_valid (x + y)) as Hval.
  unfold unitf. rewrite !FloatAxioms.add_spec. rewrite FloatAxioms.add_spec in Hval.
  unfold SF64add in *.
  destruct (SFadd_le_one _ _ Hx Hy Hvx Hvy Hs) as [H1 H2].
  split; [by apply nn0_valid|done].
Qed.

(** The compositing rule keeps values of the unit interval in it. *)
Lemma unitf_composite (base b strength : float) :
  unitf base → unitf b → unitf strength →
  unitf (Blend.composite base b strength).
Proof.
  intros Hbase Hb Hs. unfold Blend.composite.
  destruct (unitf_one_sub strength Hs) as [H1 Hsum].
  destruct (unitf_mul base _ Hbase H1) as (Hu & _ & Hu2).
  destruct (unitf_mul b strength Hb Hs) as (Hv & _ & Hv2).
  apply unitf_add; [done|done|].
  change (P (-52)) with (4 * P (-54)).
  pose proof (P_pos (-54) ltac:(lia)). lia.
Qed.

(** Scaling a value of the unit interval by 255 and truncating gives a byte. *)
Lemma trunc_SF_bound x :
  nn x → V x ≤ 255 * P 0 →
  ∃ z, F64.trunc_SF x = Some z ∧ 0 ≤ z ≤ 255.
Proof.
  destruct x as [s|s| |[] m e]; try done.
  - intros _ _. exists 0. simpl. split; [done|lia].
  - simpl. intros Hb Hv. destruct (bounded_facts m e Hb) as (He & _).
    eexists. split; [done|].
    destruct (Z.leb_spec 0 e) as [Hpos|Hneg].
    + unfold F64.signed. simpl cond_Zopp.
      rewrite (P_unit 0 e) in Hv by lia. rewrite Z.sub_0_r in Hv.
      pose proof (P_pos 0 ltac:(lia)). pose proof (Z.pow_pos_nonneg 2 e ltac:(lia) Hpos).
      split; [lia|]. nia.
    + unfold F64.signed. simpl cond_Zopp.
      assert (Hp : 0 < 2 ^ (- e)) by (apply Z.pow_pos_nonneg; lia).
      rewrite Z.quot_div_nonneg by lia.
      pose proof (Z.div_pos (Zpos m) (2 ^ (- e)) ltac:(lia) Hp).
      split; [done|].
      pose proof (Z.mul_div_le (Zpos m) (2 ^ (- e)) Hp) as Hdiv.
      rewrite (P_unit e 0) in Hv by lia. rewrite Z.sub_0_l in Hv.
      pose proof (P_pos e ltac:(lia)). nia.
Qed.

Lemma unitf_byte (x : float) :
  unitf x → ∃ z, F64.py_int (x * 255) = Some z ∧ 0 ≤ z ≤ 255.
Proof.
  intros [Hx Hvx]. unfold F64.py_int.
  pose proof (Prim2SF_valid (x * 255)) as Hval.
  unfold unitf. rewrite !FloatAxioms.mul_spec. rewrite FloatAxioms.mul_spec in Hval.
  assert (H255 : nn (Prim2SF 255)) by reflexivity.
  assert (HV255 : V (Prim2SF 255) = 255 * P 0) by reflexivity.
  pose proof (V_nonneg _ Hx). pose proof (P_pos 0 ltac:(lia)).
  destruct (SFmul_le _ _ _ Hx H255 H255 ltac:(rewrite HV255; nia)) as [H1 H2].
  apply trunc_SF_bound; [by apply nn0_valid|]. unfold SF64mul. lia.
Qed.

Lemma astype_clamp_unit (x : float) :
  unitf x → F64.astype_uint8 (x * 255) = F64.clamp_uint8 (x * 255) ∧
            0 ≤ F64.astype_uint8 (x * 255) ≤ 255.
Proof.
  intros Hx. destruct (unitf_byte x Hx) as (z & Hz & Hr).
  unfold F64.astype_uint8, F64.clamp_uint8. rewrite Hz.
  rewrite Z.mod_small by lia. lia.
Qed.

(** *** Compositing with a zero strength or with strength one *)

Lemma sub_one_zeroish z : zeroish z → (1 - z)%float = 1%float.
Proof.
  intros [s Hz]. apply Prim2SF_inj. rewrite FloatAxioms.sub_spec, Hz. done.
Qed.

Lemma mul_zeroish_r b z : unitf b → zeroish z → zeroish (b * z).
Proof.
  intros [Hb _] [s Hz]. unfold zeroish. rewrite FloatAxioms.mul_spec, Hz.
  destruct (Prim2SF b) as [sb|sb| |[] m e]; try done; simpl; eauto.
Qed.

Lemma mul_zeroish_l z o : zeroish z → unitf o → zeroish (z * o).
Proof.
  intros [s Hz] [Ho _]. unfold zeroish. rewrite FloatAxioms.mul_spec, Hz.
  destruct (Prim2SF o) as [so|so| |[] m e]; try done; simpl; eauto.
Qed.

Lemma add_zeroish_r x z : plain x → zeroish z → (x + z)%float = x.
Proof.
  unfold plain, plainb. intros Hx [s Hz]. apply Prim2SF_inj.
  rewrite FloatAxioms.add_spec, Hz.
  destruct (Prim2SF x) as [[]|sx| |[] m e]; try done. by destruct s.
Qed.

(** With a zero strength the composite is the base. *)
Lemma composite_zeroish base b z :
  plain base → unitf b → zeroish z → Blend.composite base b z = base.
Proof.
  intros Hbase Hb Hz. unfold Blend.composite.
  rewrite sub_one_zeroish, mul_one_r by done.
  apply add_zeroish_r; [done|]. by apply mul_zeroish_r.
Qed.

Lemma zeroish_zero : zeroish 0.
Proof. by exists false. Qed.

(** With strength one the composite is the blended colour, up to the sign
    of a zero. *)
Lemma composite_one base b :
  plain base → unitf b →
  Blend.composite base b 1 = b ∨
  (Prim2SF b = S754_zero true ∧ Blend.composite base b 1 = 0%float).
Proof.
  unfold plain, plainb. intros Hbase [Hb _]. unfold Blend.composite.
  change (1 - 1)%float with 0%float. rewrite mul_one_r.
  assert (H0 : (base * 0)%float = 0%float).
  { apply Prim2SF_inj. rewrite FloatAxioms.mul_spec.
    destruct (Prim2SF base) as [[]|sx| |[] m e]; done. }
  rewrite H0.
  destruct (Prim2SF b) as [[]|sb| |[] m e] eqn:E; try done.
  - right. split; [done|]. apply Prim2SF_inj. rewrite FloatAxioms.add_spec, E. done.
  - left. apply Prim2SF_inj. rewrite FloatAxioms.add_spec, E. done.
  - left. apply Prim2SF_inj. rewrite FloatAxioms.add_spec, E. done.
Qed.

Lemma astype_composite_one base b :
  plain base → unitf b →
  F64.astype_uint8 (Blend.composite base b 1 * 255) = F64.astype_uint8 (b * 255).
Proof.
  intros Hbase Hb. destruct (composite_one base b Hbase Hb) as [->|[Hz ->]]; [done|].
  assert (b = (-0)%float) as -> by (apply Prim2SF_inj; by rewrite Hz).
  reflexivity.
Qed.

(** [unitb] decides the unit interval. *)
Lemma unitb_unitf x : unitb x = true → unitf x.
Proof.
  unfold unitb. intros [H1 H2]%andb_true_iff. by apply unitf_of_leb.
Qed.

Lemma unitf_unitb x : unitf x → unitb x = true.
Proof.
  intros H. destruct (leb_of_unitf x H) as [H1 H2].
  unfold unitb. by rewrite H1, H2.
Qed.

(** *** Integers as binary64 values *)

Lemma of_int_SF n :
  0 < n < 2 ^ 53 →
  ∃ m e, Prim2SF (F64.of_int n) = S754_finite false m e ∧
         bounded prec emax m e = true ∧ Zpos m * P e = n * P 0.
Proof.
  intros Hn. pose proof (Prim2SF_valid (F64.of_int n)) as Hval.
  unfold F64.of_int in *. rewrite of_uint63_spec in *.
  assert (Hto : Uint63.to_Z (Uint63.of_Z n) = n).
  { rewrite Uint63.of_Z_spec. apply Z.mod_small.
    change Uint63.wB with (2 ^ 63). change (2 ^ 63) with (2 ^ 53 * 1024). lia. }
  rewrite Hto in *.
  assert (Hfit : fexp64 (Zdigits2 n + 0) ≤ 0).
  { pose proof (Zdigits2_bounds n ltac:(lia)) as [Hb _].
    assert (Zdigits2 n - 1 < 53) by (apply pow2_lt_inv; lia).
    unfold fexp64. lia. }
  destruct (normalize_exact n 0 ltac:(lia) ltac:(lia) Hfit ltac:(lia)) as [H1 H2].
  destruct (binary_normalize prec emax n 0 false) as [s|s| |[] m e]; try done.
  - simpl in H2. pose proof (P_pos 0 ltac:(lia)). nia.
  - exists m, e. done.
Qed.

(** *** The ceiling of a positive finite value *)

Lemma ceil_SF_spec m e :
  -2200 ≤ e →
  ∃ z, F64.ceil_SF (S754_finite false m e) = Some z ∧
       (z - 1) * P 0 < Zpos m * P e ≤ z * P 0.
Proof.
  intros He. simpl. eexists. split; [done|].
  unfold F64.signed. simpl cond_Zopp.
  pose proof (P_pos 0 ltac:(lia)) as HP0.
  destruct (Z.leb_spec 0 e) as [Hpos|Hneg].
  - pose proof (P_unit 0 e ltac:(lia) ltac:(lia)) as HPe.
    rewrite Z.sub_0_r in HPe. nia.
  - pose proof (P_unit e 0 ltac:(lia) ltac:(lia)) as HPe.
    rewrite Z.sub_0_l in HPe.
    set (T := 2 ^ (- e)) in *. assert (HT : 0 < T) by (apply Z.pow_pos_nonneg; lia).
    pose proof (P_pos e He) as HPpos.
    pose proof (Z_div_mod_eq_full (- Zpos m) T) as Hdm.
    pose proof (Z.mod_pos_bound (- Zpos m) T HT) as Hmod.
    set (k := - Zpos m / T) in *. nia.
Qed.

(** *** [int(np.ceil(a / b))] on image dimensions *)

Lemma div_ceil_SF a b c :
  0 < a < 2 ^ 26 → 0 < b < 2 ^ 26 → (c - 1) * b < a ≤ c * b →
  F64.py_int_ceil (F64.of_int a / F64.of_int b)%float = Some c.
Proof.
  intros Ha Hb Hc.
  destruct (of_int_SF a ltac:(change (2 ^ 53) with (2 ^ 26 * 2 ^ 27); lia))
    as (m1 & e1 & HA & HbA & HvA).
  destruct (of_int_SF b ltac:(change (2 ^ 53) with (2 ^ 26 * 2 ^ 27); lia))
    as (m2 & e2 & HB & HbB & HvB).
  unfold F64.py_int_ceil. rewrite div_spec, HA, HB.
  unfold SF64div, SFdiv.
  destruct (SFdiv_core_spec m1 m2 e1 e2 HbA HbB)
    as (q & ex & lx & s & -> & Hs & Hes & Hex & Hq & Hinv & Hk & _ & Hq52).
  simpl xorb.
  destruct (bounded_facts m1 e1 HbA) as (He1 & _).
  destruct (bounded_facts m2 e2 HbB) as (He2 & _).
  set (N := Zpos m1 * 2 ^ s) in *. set (D := Zpos m2) in *.
  assert (HD : 0 < D) by (unfold D; lia).
  destruct (round_facts false q ex lx N D HD Hq Hinv Hk)
    as (mr & Hr & Hres & HqN & Her & Hcase).
  set (er := fexp64 (Zdigits2 q + ex)) in *.
  pose proof (P_pos 0 ltac:(lia)) as HP0.
  pose proof (P_pos ex Hex) as HPex.
  pose proof (P_pos e2 ltac:(lia)) as HPe2.
  pose proof (P_pos er ltac:(lia)) as HPer.
  (* the exact quotient: N / D * 2^ex = a / b *)
  assert (KR : N * P ex * b = D * (a * P 0)).
  { apply (Z.mul_cancel_r _ _ (P 0)); [lia|].
    replace (N * P ex * b * P 0) with (N * P ex * (b * P 0)) by ring.
    rewrite <- HvB. unfold N, D.
    assert (P ex * 2 ^ s = P (e1 - e2)) as HPs.
    { rewrite <- Hes. by rewrite P_add by lia. }
    assert (P (e1 - e2) * P e2 = P e1 * P 0) as HPm.
    { rewrite (P_mul (e1 - e2) e2) by lia. f_equal. f_equal. lia. }
    replace (Zpos m1 * 2 ^ s * P ex * (Zpos m2 * P e2))
      with (Zpos m1 * Zpos m2 * (P ex * 2 ^ s * P e2)) by ring.
    rewrite HPs, HPm.
    replace (Zpos m1 * Zpos m2 * (P e1 * P 0)) with (Zpos m2 * (Zpos m1 * P e1) * P 0) by ring.
    rewrite HvA. ring. }
  (* the rounding unit is at most 2^-26 *)
  assert (Her26 : er ≤ -26).
  { destruct Hcase as [->|[Hqpos Heq]]; [lia|].
    pose proof (Zdigits2_bounds q Hqpos) as [Hd _].
    pose proof (Zdigits2_pos q Hqpos) as Hdp.
    assert (q * P ex * b ≤ a * P 0).
    { apply (Z.mul_le_mono_pos_l _ _ D); [done|]. rewrite <- KR.
      replace (D * (q * P ex * b)) with (q * D * (P ex * b)) by ring.
      replace (N * P ex * b) with (N * (P ex * b)) by ring.
      apply Z.mul_le_mono_nonneg_r; [nia|done]. }
    assert (2 ^ (Zdigits2 q - 1) * P ex < 2 ^ 26 * P 0) as Hlt.
    { assert (2 ^ (Zdigits2 q - 1) * P ex ≤ q * P ex)
        by (apply Z.mul_le_mono_nonneg_r; lia).
      assert (q * P ex * 1 ≤ q * P ex * b)
        by (apply Z.mul_le_mono_nonneg_l; nia).
      assert (a * P 0 < 2 ^ 26 * P 0) by (apply Z.mul_lt_mono_pos_r; lia).
      lia. }
    unfold P in Hlt. rewrite <- !Z.pow_add_r in Hlt by lia.
    apply pow2_lt_inv in Hlt; [|lia]. lia. }
  pose proof (P_unit ex er Hex Hk) as HU.
  pose proof (P_unit er 0 ltac:(lia) ltac:(lia)) as HT.
  rewrite Z.sub_0_l in HT.
  set (U := 2 ^ (er - ex)) in *. set (T := 2 ^ (- er)) in *.
  assert (HUpos : 0 < U) by (apply Z.pow_pos_nonneg; lia).
  assert (HTpos : 0 < T) by (apply Z.pow_pos_nonneg; lia).
  assert (HT26 : 2 ^ 26 ≤ T) by (apply Z.pow_le_mono_r; lia).
  destruct Hr as [_ R2 R3 R4 _ _ _]. fold U in R3, R4.
  (* N * b * T = D * a * U ... in units of P ex *)
  assert (KR' : N * b * T = a * T * T * U * D).
  { apply (Z.mul_cancel_r _ _ (P ex)); [lia|].
    replace (N * b * T * P ex) with (N * P ex * b * T) by ring.
    rewrite KR, HT, HU. ring. }
  assert (Hup : mr ≤ c * T).
  { apply R4. apply (Z.mul_le_mono_pos_r _ _ (b * T)); [nia|].
    replace (N * (b * T)) with (N * b * T) by ring. rewrite KR'.
    replace (c * T * (U * D) * (b * T)) with ((c * b) * (T * T * U * D)) by ring.
    replace (a * T * T * U * D) with (a * (T * T * U * D)) by ring.
    apply Z.mul_le_mono_nonneg_r; [nia|lia]. }
  assert (Hlo : (c - 1) * T + 1 ≤ mr).
  { apply R3. apply (Z.mul_le_mono_pos_r _ _ (b * T)); [nia|].
    replace (N * (b * T)) with (N * b * T) by ring. rewrite KR'.
    replace (((c - 1) * T + 1) * (U * D) * (b * T))
      with (((c - 1) * b * T + b) * (T * U * D)) by ring.
    replace (a * T * T * U * D) with (a * T * (T * U * D)) by ring.
    apply Z.mul_le_mono_nonneg_r; [nia|]. nia. }
  assert (Hc1 : 1 ≤ c) by nia.
  assert (Hnz : mr ≠ 0) by nia.
  destruct (round_result_value false mr er _ ltac:(lia) Hres Hnz)
    as (m' & e' & He' & Hv' & _ & ->).
  rewrite (proj2 (Z.leb_le e' 971)) by lia.
  destruct (ceil_SF_spec m' e' ltac:(lia)) as (z & -> & Hz).
  f_equal. rewrite Hv', HT in Hz.
  assert (Hz1 : (z - 1) * T * P er < mr * P er) by lia.
  assert (Hz2 : mr * P er ≤ z * T * P er) by lia.
  apply Z.mul_lt_mono_pos_r in Hz1; [|done].
  apply Z.mul_le_mono_pos_r in Hz2; [|done].
  assert (Hzc : (z - 1) * T < c * T) by lia.
  assert (Hcz : (c - 1) * T < z * T) by lia.
  apply Z.mul_lt_mono_pos_r in Hzc; [|done].
  apply Z.mul_lt_mono_pos_r in Hcz; [|done].
  lia.
Qed.

End FloatFacts.

(** ** [tile_print] *)

Module TileFacts.

Import Tile.
Local Open Scope nat_scope.

Lemma has_shape_lookup {A} h w c (r : array3 A) y row :
  has_shape h w c r → r !! y = Some row →
  length row = w ∧ Forall (λ px, length px = c) row.
Proof.
  intros [_ Hr] Hy. rewrite Forall_lookup in Hr. exact (Hr _ _ Hy).
Qed.

Lemma has_shape_pixel {A} h w c (r : array3 A) y x :
  has_shape h w c r → y < h → x < w →
  ∃ px, pixel_at r y x = Some px ∧ length px = c.
Proof.
  intros Hs Hy Hx. pose proof Hs as [Hl _].
  destruct (lookup_lt_is_Some_2 r y) as [row Hrow]; [lia|].
  destruct (has_shape_lookup _ _ _ _ _ _ Hs Hrow) as [Hw Hc].
  destruct (lookup_lt_is_Some_2 row x) as [px Hpx]; [lia|].
  exists px. split.
  - unfold pixel_at. rewrite Hrow. exact Hpx.
  - rewrite Forall_lookup in Hc. exact (Hc _ _ Hpx).
Qed.

Lemma zeros_shape h w c : has_shape h w c (zeros h w c).
Proof.
  split; [apply length_replicate|].
  apply Forall_replicate. split; [apply length_replicate|].
  apply Forall_replicate, length_replicate.
Qed.

Lemma assign_row_length row x0 brow :
  length (assign_row row x0 brow) = length row.
Proof. apply length_imap. Qed.

Lemma assign_row_lookup row x0 brow x :
  assign_row row x0 brow !! x =
  (λ px, if x0 <=? x then default px (brow !! (x - x0)) else px) <$> row !! x.
Proof. unfold assign_row. by rewrite list_lookup_imap. Qed.

Lemma assign_block_lookup cv y0 x0 blk y :
  assign_block cv y0 x0 blk !! y =
  (λ row, if y0 <=? y
          then match blk !! (y - y0) with
               | Some brow => assign_row row x0 brow
               | None => row
               end
          else row) <$> cv !! y.
Proof. unfold assign_block. by rewrite list_lookup_imap. Qed.

Lemma assign_block_shape H W c ph pw cv y0 x0 blk :
  has_shape H W c cv → has_shape ph pw c blk →
  has_shape H W c (assign_block cv y0 x0 blk).
Proof.
  intros [HH Hrows] Hblk. split.
  - unfold assign_block. by rewrite length_imap.
  - apply Forall_lookup. intros y row'. rewrite assign_block_lookup.
    destruct (cv !! y) as [row|] eqn:Hrow; [|done]. simpl. intros [= <-].
    rewrite Forall_lookup in Hrows. destruct (Hrows _ _ Hrow) as [Hw Hc].
    destruct (y0 <=? y); [|done].
    destruct (blk !! (y - y0)) as [brow|] eqn:Hb; [|done].
    destruct (has_shape_lookup _ _ _ _ _ _ Hblk Hb) as [_ Hbc].
    split; [by rewrite assign_row_length|].
    apply Forall_lookup. intros x px'. rewrite assign_row_lookup.
    destruct (row !! x) as [px|] eqn:Hpx; [|done]. simpl. intros [= <-].
    rewrite Forall_lookup in Hc. specialize (Hc _ _ Hpx).
    destruct (x0 <=? x); [|done].
    destruct (brow !! (x - x0)) as [bpx|] eqn:Hbpx; [|done]. simpl.
    rewrite Forall_lookup in Hbc. exact (Hbc _ _ Hbpx).
Qed.

(** The cell [(y, x)] after a block assignment: the block's pixel inside the
    slice, the old one outside. *)
Lemma assign_block_pixel H W c ph pw cv y0 x0 blk y x :
  has_shape H W c cv → has_shape ph pw c blk → y < H → x < W →
  pixel_at (assign_block cv y0 x0 blk) y x =
  if (y0 <=? y) && (y <? y0 + ph) && (x0 <=? x) && (x <? x0 + pw)
  then pixel_at blk (y - y0) (x - x0)
  else pixel_at cv y x.
Proof.
  intros Hcv Hblk Hy Hx. pose proof Hcv as [HH _]. pose proof Hblk as [Hph _].
  unfold pixel_at at 1. rewrite assign_block_lookup.
  destruct (lookup_lt_is_Some_2 cv y) as [row Hrow]; [lia|].
  destruct (has_shape_lookup _ _ _ _ _ _ Hcv Hrow) as [Hw _].
  destruct (lookup_lt_is_Some_2 row x) as [px Hpx]; [lia|].
  assert (Hold : pixel_at cv y x = Some px).
  { unfold pixel_at. by rewrite Hrow. }
  rewrite Hrow. simpl.
  destruct (Nat.leb_spec y0 y) as [Hy0|Hy0]; simpl; [|by rewrite Hpx].
  destruct (Nat.ltb_spec y (y0 + ph)) as [Hy1|Hy1]; simpl.
  - destruct (lookup_lt_is_Some_2 blk (y - y0)) as [brow Hbrow]; [lia|].
    destruct (has_shape_lookup _ _ _ _ _ _ Hblk Hbrow) as [Hbw _].
    rewrite Hbrow, assign_row_lookup, Hpx. simpl.
    destruct (Nat.leb_spec x0 x) as [Hx0|Hx0]; simpl; [|done].
    destruct (Nat.ltb_spec x (x0 + pw)) as [Hx1|Hx1]; simpl.
    + destruct (lookup_lt_is_Some_2 brow (x - x0)) as [bpx Hbpx]; [lia|].
      unfold pixel_at. rewrite Hbrow. simpl. by rewrite Hbpx.
    + rewrite (lookup_ge_None_2 brow (x - x0)); [done|lia].
  - rewrite (lookup_ge_None_2 blk (y - y0)); [|lia]. by rewrite Hpx.
Qed.

(** Arithmetic of tile coordinates. *)
Lemma tile_coord ph i y :
  0 < ph → (i * ph ≤ y ∧ y < i * ph + ph) ↔ y / ph = i.
Proof.
  intros Hph. pose proof (Nat.div_mod_eq y ph) as Hd.
  pose proof (Nat.mod_upper_bound y ph ltac:(lia)) as Hm.
  split.
  - intros [H1 H2]. symmetry. apply (Nat.div_unique y ph i (y - i * ph)); lia.
  - intros <-. nia.
Qed.

Lemma tile_offset ph y : 0 < ph → y - y / ph * ph = y mod ph.
Proof. intros Hph. pose proof (Nat.div_mod_eq y ph). nia. Qed.

Section Loop.

Variables (print_img : raster) (ph pw c H W : nat).
Hypothesis Hprint : has_shape ph pw c print_img.
Hypothesis Hph : 0 < ph.
Hypothesis Hpw : 0 < pw.

(** Assigning the tile [(i, j)] writes the periodic pattern on its cells and
    leaves the others. *)
Lemma assign_tile_pixel cv i j y x :
  has_shape H W c cv → y < H → x < W →
  pixel_at (assign_block cv (i * ph) (j * pw) print_img) y x =
  if (y / ph =? i) && (x / pw =? j)
  then pixel_at print_img (y mod ph) (x mod pw)
  else pixel_at cv y x.
Proof.
  intros Hcv Hy Hx.
  rewrite (assign_block_pixel H W c ph pw) by done.
  pose proof (tile_coord ph i y Hph) as Ty.
  pose proof (tile_coord pw j x Hpw) as Tx.
  destruct (Nat.eqb_spec (y / ph) i) as [Ei|Ei];
    destruct (Nat.eqb_spec (x / pw) j) as [Ej|Ej]; simpl.
  - apply Ty in Ei as Ei'. apply Tx in Ej as Ej'.
    replace (i * ph <=? y) with true by (symmetry; apply Nat.leb_le; lia).
    replace (y <? i * ph + ph) with true by (symmetry; apply Nat.ltb_lt; lia).
    replace (j * pw <=? x) with true by (symmetry; apply Nat.leb_le; lia).
    replace (x <? j * pw + pw) with true by (symmetry; apply Nat.ltb_lt; lia).
    simpl. subst i j. by rewrite !tile_offset.
  - destruct ((i * ph <=? y) && (y <? i * ph + ph)) eqn:E1; simpl; [|done].
    destruct (Nat.leb_spec (j * pw) x); simpl; [|done].
    destruct (Nat.ltb_spec x (j * pw + pw)); simpl; [|done].
    exfalso. apply Ej, Tx. lia.
  - destruct (Nat.leb_spec (i * ph) y); simpl; [|done].
    destruct (Nat.ltb_spec y (i * ph + ph)); simpl; [|done].
    exfalso. apply Ei, Ty. lia.
  - destruct (Nat.leb_spec (i * ph) y); simpl; [|done].
    destruct (Nat.ltb_spec y (i * ph + ph)); simpl; [|done].
    exfalso. apply Ei, Ty. lia.
Qed.

Lemma row_loop_S i n cv :
  row_loop print_img ph pw i (S n) cv = assign_block (row_loop print_img ph pw i n cv) (i * ph) (n * pw) print_img.
Proof. unfold row_loop. by rewrite seq_S, foldl_app. Qed.

Lemma row_loop_spec i n cv :
  has_shape H W c cv →
  has_shape H W c (row_loop print_img ph pw i n cv) ∧
  ∀ y x, y < H → x < W →
    pixel_at (row_loop print_img ph pw i n cv) y x =
    if (y / ph =? i) && (x / pw <? n)
    then pixel_at print_img (y mod ph) (x mod pw)
    else pixel_at cv y x.
Proof.
  intros Hcv. induction n as [|n [IHs IHp]].
  - split; [done|]. intros y x _ _. by rewrite andb_false_r.
  - rewrite row_loop_S. split.
    + by apply (assign_block_shape H W c ph pw).
    + intros y x Hy Hx. rewrite assign_tile_pixel, IHp by done.
      destruct (Nat.eqb_spec (y / ph) i); simpl; [|done].
      destruct (Nat.eqb_spec (x / pw) n) as [->|Hn].
      * by rewrite (proj2 (Nat.ltb_lt n (S n))) by lia.
      * destruct (Nat.ltb_spec (x / pw) n), (Nat.ltb_spec (x / pw) (S n));
          try done; lia.
Qed.

Lemma tile_loop_S n tw cv :
  tile_loop print_img ph pw (S n) tw cv =
  row_loop print_img ph pw n tw (tile_loop print_img ph pw n tw cv).
Proof. unfold tile_loop, row_loop. by rewrite seq_S, foldl_app. Qed.

Lemma tile_loop_spec n tw cv :
  has_shape H W c cv →
  has_shape H W c (tile_loop print_img ph pw n tw cv) ∧
  ∀ y x, y < H → x < W →
    pixel_at (tile_loop print_img ph pw n tw cv) y x =
    if (y / ph <? n) && (x / pw <? tw)
    then pixel_at print_img (y mod ph) (x mod pw)
    else pixel_at cv y x.
Proof.
  intros Hcv. induction n as [|n [IHs IHp]].
  - split; [done|]. intros y x _ _. done.
  - rewrite tile_loop_S.
    destruct (row_loop_spec n tw _ IHs) as [Hs Hp]. split; [done|].
    intros y x Hy Hx. rewrite Hp, IHp by done.
    destruct (Nat.eqb_spec (y / ph) n) as [->|Hn]; simpl.
    + rewrite (proj2 (Nat.ltb_lt n (S n))) by lia.
      rewrite (proj2 (Nat.ltb_ge n n)) by lia. simpl.
      by destruct (x / pw <? tw).
    + destruct (Nat.ltb_spec (y / ph) n), (Nat.ltb_spec (y / ph) (S n));
        try done; lia.
Qed.

End Loop.

Lemma crop_shape {A} H W c h w (r : array3 A) :
  has_shape H W c r → h ≤ H → w ≤ W → has_shape h w c (crop h w r).
Proof.
  intros [HH Hrows] Hh Hw. split.
  - unfold crop. rewrite length_fmap, length_take. lia.
  - unfold crop. apply Forall_fmap, Forall_take.
    eapply Forall_impl; [exact Hrows|]. intros row [Hl Hc]. simpl. split.
    + rewrite length_take. lia.
    + by apply Forall_take.
Qed.

Lemma crop_pixel {A} h w (r : array3 A) y x :
  y < h → x < w → pixel_at (crop h w r) y x = pixel_at r y x.
Proof.
  intros Hy Hx. unfold pixel_at, crop.
  rewrite list_lookup_fmap, lookup_take_lt by done.
  destruct (r !! y) as [row|]; [|done]. simpl. by rewrite lookup_take_lt.
Qed.

Lemma ceil_div_covers a b : 0 < b → a ≤ ceil_div a b * b.
Proof.
  intros Hb. unfold ceil_div. pose proof (Nat.div_mod_eq a b).
  pose proof (Nat.mod_upper_bound a b ltac:(lia)).
  destruct (Nat.eqb_spec (a mod b) 0); nia.
Qed.

Lemma ceil_div_tight a b : 0 < b → 0 < a → (ceil_div a b - 1) * b < a.
Proof.
  intros Hb Ha. unfold ceil_div. pose proof (Nat.div_mod_eq a b).
  pose proof (Nat.mod_upper_bound a b ltac:(lia)).
  destruct (Nat.eqb_spec (a mod b) 0); nia.
Qed.


Lemma chans_of_shape {A} h w c (r : array3 A) :
  has_shape h w c r → 0 < h → 0 < w → chans r = c.
Proof.
  intros [Hh Hr] H1 H2. unfold chans.
  destruct r as [|row r]; [simpl in Hh; lia|].
  apply Forall_cons in Hr as [[Hw Hc] _]. simpl.
  destruct row as [|px row]; [simpl in Hw; lia|].
  apply Forall_cons in Hc as [Hc _]. done.
Qed.

(** Two arrays of one shape with the same pixels are equal. *)
Lemma array_ext {A} H W c (r1 r2 : array3 A) :
  has_shape H W c r1 → has_shape H W c r2 →
  (∀ y x, y < H → x < W → pixel_at r1 y x = pixel_at r2 y x) →
  r1 = r2.
Proof.
  intros [H1 Hr1] [H2 Hr2] Hpx. apply list_eq_same_length with H; [done|done|].
  intros y row1 row2 Hy Hy1 Hy2.
  rewrite Forall_lookup in Hr1. rewrite Forall_lookup in Hr2.
  destruct (Hr1 _ _ Hy1) as [Hw1 _]. destruct (Hr2 _ _ Hy2) as [Hw2 _].
  apply list_eq_same_length with W; [done|done|].
  intros x px1 px2 Hx Hx1 Hx2.
  specialize (Hpx y x Hy Hx). unfold pixel_at in Hpx.
  rewrite Hy1, Hy2 in Hpx. simpl in Hpx. congruence.
Qed.

(** On image sides the binary64 quotient rounds up to the integer ceiling. *)
Lemma tiles_needed_exact a b :
  0 < a → 0 < b → small_side a → small_side b →
  tiles_needed a b = Some (ceil_div a b).
Proof.
  intros Ha Hb Sa Sb. unfold tiles_needed, small_side in *.
  destruct (Nat.eqb_spec b 0) as [|_]; [lia|].
  unfold F64.of_nat.
  rewrite (FloatFacts.div_ceil_SF (Z.of_nat a) (Z.of_nat b) (Z.of_nat (ceil_div a b))).
  - simpl. by rewrite Nat2Z.id.
  - lia.
  - lia.
  - pose proof (ceil_div_covers a b Hb). pose proof (ceil_div_tight a b Hb Ha).
    assert (0 < ceil_div a b) by (destruct (ceil_div a b); simpl in *; lia).
    split.
    + replace (Z.of_nat (ceil_div a b) - 1)%Z with (Z.of_nat (ceil_div a b - 1)) by lia.
      rewrite <- Nat2Z.inj_mul. lia.
    + rewrite <- Nat2Z.inj_mul. lia.
Qed.



End TileFacts.

(** ** [blend_images] *)

Module BlendFacts.

Import Blend.
Local Open Scope nat_scope.

(** *** Broadcasting on arrays of one shape *)

(** Along an axis where the extents agree, broadcasting is a plain zip. *)
Lemma bzip_same_length {A B C} (F : A → B → option C) xs ys :
  length xs = length ys → bzip F xs ys = zipM F xs ys.
Proof.
  intros Hl. destruct xs as [|x [|x' xs]], ys as [|y [|y' ys]]; try done.
Qed.

(** Two arrays built pointwise from the same pair of lists combine
    pointwise. *)
Lemma bzip_zip_with {A B C D E} (R : A → B → Prop) (K1 : A → B → C)
    (K2 : A → B → D) (F : C → D → option E) (G : A → B → E) xs ys :
  Forall2 R xs ys →
  (∀ x y, R x y → F (K1 x y) (K2 x y) = Some (G x y)) →
  bzip F (zip_with K1 xs ys) (zip_with K2 xs ys) = Some (zip_with G xs ys).
Proof.
  intros HR HF. rewrite bzip_same_length by (by rewrite !length_zip_with).
  induction HR as [|x y xs ys Hxy _ IH]; [done|].
  simpl. rewrite (HF _ _ Hxy). simpl. by rewrite IH.
Qed.

Lemma fmap_as_zip_l {A B C} (R : A → B → Prop) (k : A → C) xs ys :
  Forall2 R xs ys → k <$> xs = zip_with (λ a _, k a) xs ys.
Proof. induction 1; simpl; by f_equal. Qed.

Lemma fmap_as_zip_r {A B C} (R : A → B → Prop) (k : B → C) xs ys :
  Forall2 R xs ys → k <$> ys = zip_with (λ _ b, k b) xs ys.
Proof. induction 1; simpl; by f_equal. Qed.

Lemma fmap_zip_with_compose {A B C D} (k : C → D) (K : A → B → C) xs ys :
  k <$> zip_with K xs ys = zip_with (λ a b, k (K a b)) xs ys.
Proof. revert ys. induction xs as [|x xs IH]; intros [|y ys]; simpl; by f_equal. Qed.

Lemma zip_with_ext_Forall2 {A B C} (R : A → B → Prop) (K1 K2 : A → B → C) xs ys :
  Forall2 R xs ys → (∀ x y, R x y → K1 x y = K2 x y) →
  zip_with K1 xs ys = zip_with K2 xs ys.
Proof. intros HR HK. induction HR; simpl; [done|]. f_equal; auto. Qed.

Lemma zip_with_snd {A B} (R : A → B → Prop) xs ys :
  Forall2 R xs ys → zip_with (λ _ b, b) xs ys = ys.
Proof. induction 1; simpl; by f_equal. Qed.

Lemma same_grid_of_shape h w c fabric print_img :
  has_shape h w 3 fabric → has_shape h w c print_img →
  same_grid c fabric print_img.
Proof.
  intros [Hh Hf] [Hh' Hp]. apply Forall2_same_length_lookup. split; [lia|].
  intros y frow prow Hfy Hpy.
  rewrite Forall_lookup in Hf. rewrite Forall_lookup in Hp.
  destruct (Hf _ _ Hfy) as [Hfw Hfc]. destruct (Hp _ _ Hpy) as [Hpw Hpc].
  apply Forall2_same_length_lookup. split; [lia|].
  intros x fp pp Hfx Hpx.
  rewrite Forall_lookup in Hfc. rewrite Forall_lookup in Hpc.
  split; eauto.
Qed.

Section Pointwise.

Variables (c : nat) (fabric print_img : raster).
Hypothesis Hgrid : same_grid c fabric print_img.

Lemma map3_fabric {C} (g : Z → C) :
  map3 g fabric = pointwise (λ fp _, g <$> fp) fabric print_img.
Proof.
  unfold map3, pointwise.
  rewrite (fmap_as_zip_l _ _ _ _ Hgrid).
  eapply zip_with_ext_Forall2; [exact Hgrid|].
  intros frow prow Hrow. simpl. by apply (fmap_as_zip_l (px_shape c)).
Qed.

Lemma map2_print {C} (k : pixel → list C) :
  (λ row : list pixel, k <$> row) <$> print_img =
  pointwise (λ _ pp, k pp) fabric print_img.
Proof.
  unfold pointwise.
  rewrite (fmap_as_zip_r _ _ _ _ Hgrid).
  eapply zip_with_ext_Forall2; [exact Hgrid|].
  intros frow prow Hrow. simpl. by apply (fmap_as_zip_r (px_shape c)).
Qed.

Lemma map3_print {C} (g : Z → C) :
  map3 g print_img = pointwise (λ _ pp, g <$> pp) fabric print_img.
Proof. apply (map2_print (fmap g)). Qed.

Lemma print_pointwise : print_img = pointwise (λ _ pp, pp) fabric print_img.
Proof.
  unfold pointwise. symmetry.
  rewrite (zip_with_ext_Forall2 _ _ (λ _ prow, prow) _ _ Hgrid).
  - by rewrite (zip_with_snd _ _ _ Hgrid).
  - intros frow prow Hrow. by apply (zip_with_snd (px_shape c)).
Qed.

Lemma map3_pointwise {C D} (g : C → D) (K : pixel → pixel → list C) :
  map3 g (pointwise K fabric print_img) =
  pointwise (λ fp pp, g <$> K fp pp) fabric print_img.
Proof.
  unfold map3, pointwise. rewrite fmap_zip_with_compose.
  eapply zip_with_ext_Forall2; [exact Hgrid|].
  intros frow prow _. simpl. by rewrite fmap_zip_with_compose.
Qed.

Lemma np_binop_pointwise {A B C} (f : A → B → C)
    (K1 : pixel → pixel → list A) (K2 : pixel → pixel → list B)
    (G : pixel → pixel → list C) :
  (∀ fp pp, px_shape c fp pp →
     bzip (λ a b, Some (f a b)) (K1 fp pp) (K2 fp pp) = Some (G fp pp)) →
  np_binop f (pointwise K1 fabric print_img) (pointwise K2 fabric print_img)
  = Some (pointwise G fabric print_img).
Proof.
  intros HK. unfold np_binop, pointwise.
  apply (bzip_zip_with (Forall2 (px_shape c))); [exact Hgrid|].
  intros frow prow Hrow.
  by apply (bzip_zip_with (px_shape c)).
Qed.

Lemma pointwise_ext {C} (K1 K2 : pixel → pixel → list C) :
  (∀ fp pp, px_shape c fp pp → K1 fp pp = K2 fp pp) →
  pointwise K1 fabric print_img = pointwise K2 fabric print_img.
Proof.
  intros HK. unfold pointwise.
  eapply zip_with_ext_Forall2; [exact Hgrid|].
  intros frow prow Hrow. simpl.
  by eapply zip_with_ext_Forall2.
Qed.

End Pointwise.

Lemma mapM_Some_fmap {A B} (g : A → B) (l : list A) :
  mapM (λ x, Some (g x)) l = Some (g <$> l).
Proof. induction l as [|x l IH]; [done|]. simpl. by rewrite IH. Qed.

Lemma zipM_Some_zip_with {A B C} (f : A → B → C) xs ys :
  length xs = length ys →
  zipM (λ a b, Some (f a b)) xs ys = Some (zip_with f xs ys).
Proof.
  revert ys. induction xs as [|x xs IH]; intros [|y ys] Hl; try done.
  simpl. rewrite IH by (simpl in Hl; lia). done.
Qed.

Lemma bzip_bpx {A B C} (f : A → B → C) px py :
  length px = length py ∨ length px = 1 ∨ length py = 1 →
  bzip (λ a b, Some (f a b)) px py = Some (bpx f px py).
Proof.
  intros H. unfold bzip, bpx.
  destruct px as [|a [|a' px]], py as [|b [|b' py]];
    try (by rewrite mapM_Some_fmap);
    try (by rewrite zipM_Some_zip_with by (simpl in *; lia));
    simpl in *; lia.
Qed.

Section BlendPointwise.

Variables (c : nat) (fabric print_img : raster).
Hypothesis Hgrid : same_grid c fabric print_img.

Lemma np_binop_bpx {A B C} (f : A → B → C)
    (K1 : pixel → pixel → list A) (K2 : pixel → pixel → list B) :
  (∀ fp pp, px_shape c fp pp →
     length (K1 fp pp) = length (K2 fp pp) ∨ length (K1 fp pp) = 1 ∨
     length (K2 fp pp) = 1) →
  np_binop f (pointwise K1 fabric print_img) (pointwise K2 fabric print_img)
  = Some (pointwise (λ fp pp, bpx f (K1 fp pp) (K2 fp pp)) fabric print_img).
Proof.
  intros HK. apply (np_binop_pointwise c); [done|].
  intros fp pp Hs. by apply bzip_bpx, HK.
Qed.

End BlendPointwise.

(** Destructs the two pixels of a position down to their channels. *)
Ltac px_cases :=
  let fp := fresh "fp" in let pp := fresh "pp" in
  let Hf := fresh "Hf" in let Hp := fresh "Hp" in
  intros fp pp [Hf Hp];
  repeat (destruct fp as [|? fp]; simpl in Hf; try lia);
  repeat (destruct pp as [|? pp]; simpl in Hp; try lia).

Ltac px_len := px_cases; simpl; auto.

(** Rewrites the array operations of [blend_result] into their pixel form. *)
Ltac np_steps c fabric print_img Hgrid :=
  repeat first
    [ rewrite (map3_pointwise c fabric print_img Hgrid)
    | rewrite (np_binop_bpx c fabric print_img Hgrid) by px_len
    | progress cbn [mbind option_bind fmap option_fmap option_map] ].

Section Characterise.

Variables (h w : nat) (fabric print_img : raster).
Hypothesis Hh : 0 < h.
Hypothesis Hw : 0 < w.
Hypothesis Hfabric : has_shape h w 3 fabric.

(** Without an alpha channel [result] is the channel-wise [result_ch]. *)
Lemma blend_result_rgb blend_mode opacity :
  has_shape h w 3 print_img →
  blend_result fabric print_img blend_mode opacity =
  Some (pointwise (result_px blend_mode opacity) fabric print_img).
Proof.
  intros Hprint.
  pose proof (same_grid_of_shape h w 3 _ _ Hfabric Hprint) as Hgrid.
  unfold blend_result.
  rewrite (TileFacts.chans_of_shape h w 3 _ Hprint Hh Hw). simpl (3 =? 4).
  cbv iota.
  rewrite !(map3_fabric 3 fabric print_img Hgrid).
  rewrite !(map3_print 3 fabric print_img Hgrid).
  unfold overlay, multiply, screen, np_where.
  np_steps 3 fabric print_img Hgrid.
  destruct (String.eqb blend_mode "overlay") eqn:E1;
    [|destruct (String.eqb blend_mode "multiply") eqn:E2;
      [|destruct (String.eqb blend_mode "screen") eqn:E3]];
  np_steps 3 fabric print_img Hgrid;
  f_equal; apply (pointwise_ext 3 fabric print_img Hgrid);
  px_cases; unfold result_px, result_ch, composite, blended_ch, overlay_ch,
    multiply_ch, screen_ch, overlay_low, overlay_high, F64.norm;
  rewrite ?E1, ?E2, ?E3; reflexivity.
Qed.

(** With an alpha channel each pixel is blended with its own strength. *)
Lemma blend_result_rgba blend_mode opacity :
  has_shape h w 4 print_img →
  blend_result fabric print_img blend_mode opacity =
  Some (pointwise (result_px blend_mode opacity) fabric print_img).
Proof.
  intros Hprint.
  pose proof (same_grid_of_shape h w 4 _ _ Hfabric Hprint) as Hgrid.
  unfold blend_result.
  rewrite (TileFacts.chans_of_shape h w 4 _ Hprint Hh Hw). simpl (4 =? 4).
  cbv iota.
  rewrite !(map3_fabric 4 fabric print_img Hgrid).
  rewrite !(map2_print 4 fabric print_img Hgrid).
  unfold overlay, multiply, screen, np_where.
  np_steps 4 fabric print_img Hgrid.
  destruct (String.eqb blend_mode "overlay") eqn:E1;
    [|destruct (String.eqb blend_mode "multiply") eqn:E2;
      [|destruct (String.eqb blend_mode "screen") eqn:E3]];
  np_steps 4 fabric print_img Hgrid;
  f_equal; apply (pointwise_ext 4 fabric print_img Hgrid);
  px_cases; unfold result_px, result_ch_alpha, composite,
    blended_ch, overlay_ch, multiply_ch, screen_ch, overlay_low, overlay_high,
    F64.norm;
  rewrite ?E1, ?E2, ?E3; reflexivity.
Qed.

(** Both cases, and the 8-bit output. *)
Lemma blend_result_pointwise c blend_mode opacity :
  c = 3 ∨ c = 4 → has_shape h w c print_img →
  blend_result fabric print_img blend_mode opacity =
  Some (pointwise (result_px blend_mode opacity) fabric print_img).
Proof.
  intros [-> | ->]; [apply blend_result_rgb|apply blend_result_rgba].
Qed.

Lemma blend_images_pointwise c blend_mode opacity :
  c = 3 ∨ c = 4 → has_shape h w c print_img →
  blend_images fabric print_img blend_mode opacity =
  Some (pointwise (blend_px blend_mode opacity) fabric print_img).
Proof.
  intros Hc Hprint. unfold blend_images.
  rewrite (blend_result_pointwise c) by done. simpl. f_equal.
  pose proof (same_grid_of_shape h w c _ _ Hfabric Hprint) as Hgrid.
  unfold to_uint8. by rewrite (map3_pointwise c fabric print_img Hgrid).
Qed.

End Characterise.

(** *** Facts checked on all 8-bit values *)

Lemma bytes_complete v : is_uint8 v → v ∈ bytes.
Proof.
  intros [H0 H255]. unfold bytes. apply list_elem_of_fmap.
  exists (Z.to_nat v). split; [lia|]. apply elem_of_seq. lia.
Qed.

(** The blended colour is one of the three formulas, whatever the mode. *)
Lemma blended_ch_cases blend_mode :
  blended_ch blend_mode = overlay_ch ∨ blended_ch blend_mode = multiply_ch ∨
  blended_ch blend_mode = screen_ch.
Proof.
  unfold blended_ch.
  destruct (String.eqb blend_mode "overlay"); [by left|].
  destruct (String.eqb blend_mode "multiply"); [by right; left|].
  destruct (String.eqb blend_mode "screen"); [by right; right|by left].
Qed.

Lemma formulas_spec (Q : (float → float → float) → Prop) blend_mode :
  Q overlay_ch → Q multiply_ch → Q screen_ch → Q (blended_ch blend_mode).
Proof.
  intros H1 H2 H3. destruct (blended_ch_cases blend_mode) as [-> | [-> | ->]]; done.
Qed.

(** *** Lifting facts about pixels to rasters *)

Lemma uint8_raster_lookup (r : raster) y x px :
  uint8_raster r → pixel_at r y x = Some px → Forall is_uint8 px.
Proof.
  unfold uint8_raster, pixel_at. intros Hu Hpx.
  destruct (r !! y) as [row|] eqn:Hrow; [|done]. simpl in Hpx.
  rewrite Forall_lookup in Hu. specialize (Hu _ _ Hrow).
  rewrite Forall_lookup in Hu. exact (Hu _ _ Hpx).
Qed.

Lemma byte_grid c (Qp : pixel → Prop) (fabric print_img : raster) :
  same_grid c fabric print_img → uint8_raster fabric → uint8_raster print_img →
  Forall (Forall Qp) print_img →
  Forall2 (Forall2 (λ fp pp, px_bytes c fp pp ∧ Qp pp)) fabric print_img.
Proof.
  intros Hg Hf Hp HQ. unfold uint8_raster in *.
  induction Hg as [|frow prow fabric print_img Hrow _ IH]; [constructor|].
  apply Forall_cons in Hf as [Hf1 Hf2]. apply Forall_cons in Hp as [Hp1 Hp2].
  apply Forall_cons in HQ as [HQ1 HQ2].
  constructor; [|by apply IH].
  clear -Hrow Hf1 Hp1 HQ1.
  induction Hrow as [|fp pp frow prow Hpx _ IH]; [constructor|].
  apply Forall_cons in Hf1 as [? ?]. apply Forall_cons in Hp1 as [? ?].
  apply Forall_cons in HQ1 as [? ?].
  constructor; [done|by apply IH].
Qed.

Lemma Forall_Forall_True {A} (r : list (list A)) : Forall (Forall (λ _, True)) r.
Proof. apply Forall_forall. intros row _. by apply Forall_forall. Qed.

Lemma pointwise_ext_where {C} c (Qp : pixel → Prop)
    (K1 K2 : pixel → pixel → list C) (fabric print_img : raster) :
  same_grid c fabric print_img → uint8_raster fabric → uint8_raster print_img →
  Forall (Forall Qp) print_img →
  (∀ fp pp, px_bytes c fp pp → Qp pp → K1 fp pp = K2 fp pp) →
  pointwise K1 fabric print_img = pointwise K2 fabric print_img.
Proof.
  intros Hg Hf Hp HQ HK. pose proof (byte_grid c Qp _ _ Hg Hf Hp HQ) as Hb.
  unfold pointwise. eapply zip_with_ext_Forall2; [exact Hb|].
  intros frow prow Hrow. simpl. eapply zip_with_ext_Forall2; [exact Hrow|].
  intros fp pp [? ?]. by apply HK.
Qed.

Lemma pointwise_ext_bytes {C} c (K1 K2 : pixel → pixel → list C)
    (fabric print_img : raster) :
  same_grid c fabric print_img → uint8_raster fabric → uint8_raster print_img →
  (∀ fp pp, px_bytes c fp pp → K1 fp pp = K2 fp pp) →
  pointwise K1 fabric print_img = pointwise K2 fabric print_img.
Proof.
  intros Hg Hf Hp HK.
  apply (pointwise_ext_where c (λ _, True)); auto using Forall_Forall_True.
Qed.

Lemma pointwise_Forall {C} c (Q : list C → Prop) (K : pixel → pixel → list C)
    (fabric print_img : raster) :
  same_grid c fabric print_img → uint8_raster fabric → uint8_raster print_img →
  (∀ fp pp, px_bytes c fp pp → Q (K fp pp)) →
  Forall (Forall Q) (pointwise K fabric print_img).
Proof.
  intros Hg Hf Hp HK.
  pose proof (byte_grid c (λ _, True) _ _ Hg Hf Hp (Forall_Forall_True _)) as Hb.
  unfold pointwise. clear -Hb HK.
  induction Hb as [|frow prow fabric print_img Hrow _ IH]; [constructor|].
  simpl. constructor; [|done].
  clear -Hrow HK. induction Hrow as [|fp pp ? ? [? _]]; simpl; constructor; auto.
Qed.

Lemma pointwise_fst c (fabric print_img : raster) :
  same_grid c fabric print_img →
  pointwise (λ fp _, fp) fabric print_img = fabric.
Proof.
  intros Hg. unfold pointwise.
  induction Hg as [|frow prow fabric print_img Hrow _ IH]; [done|].
  simpl. f_equal; [|done]. clear -Hrow. induction Hrow; simpl; by f_equal.
Qed.

Lemma pointwise_shape {C} c n h w (K : pixel → pixel → list C)
    (fabric print_img : raster) :
  has_shape h w 3 fabric → has_shape h w c print_img →
  (∀ fp pp, px_shape c fp pp → length (K fp pp) = n) →
  has_shape h w n (pointwise K fabric print_img).
Proof.
  intros Hf Hp HK. pose proof (same_grid_of_shape h w c _ _ Hf Hp) as Hg.
  destruct Hf as [Hh Hf]. destruct Hp as [Hh' Hp]. split.
  - unfold pointwise. rewrite length_zip_with. lia.
  - unfold pointwise. apply Forall_lookup. intros y row.
    rewrite lookup_zip_with.
    destruct (fabric !! y) as [frow|] eqn:E1; [|done]. simpl.
    destruct (print_img !! y) as [prow|] eqn:E2; [|done]. simpl. intros [= <-].
    rewrite Forall_lookup in Hf. destruct (Hf _ _ E1) as [Hfw _].
    rewrite Forall_lookup in Hp. destruct (Hp _ _ E2) as [Hpw _].
    split; [rewrite length_zip_with; lia|].
    pose proof (Forall2_lookup_lr _ _ _ _ _ _ Hg E1 E2) as Hrow.
    clear -Hrow HK. induction Hrow; simpl; constructor; auto.
Qed.



(** Normalising a channel and converting back returns it. *)
Lemma norm_roundtrip_ok :
  forallb (λ f, Z.eqb (F64.astype_uint8 (F64.norm f * 255)) f) bytes = true.
Proof. vm_compute. reflexivity. Qed.

(** A normalised channel is a positive zero or a positive finite number. *)
Lemma norm_plain_ok : forallb (λ f, Binary64.plainb (F64.norm f)) bytes = true.
Proof. vm_compute. reflexivity. Qed.

Lemma stays_unit_overlay : stays_unit overlay_ch = true.
Proof. vm_compute. reflexivity. Qed.

Lemma stays_unit_multiply : stays_unit multiply_ch = true.
Proof. vm_compute. reflexivity. Qed.

Lemma stays_unit_screen : stays_unit screen_ch = true.
Proof. vm_compute. reflexivity. Qed.

Lemma bytes_forallb (t : Z → bool) :
  forallb t bytes = true → ∀ f, is_uint8 f → t f = true.
Proof.
  rewrite forallb_forall. intros H f Hf.
  by apply H, list_elem_of_In, bytes_complete.
Qed.

Lemma stays_unit_spec g :
  stays_unit g = true →
  ∀ f p, is_uint8 f → is_uint8 p →
         Binary64.unitb (g (F64.norm f) (F64.norm p)) = true.
Proof.
  unfold stays_unit, all_bytes2. rewrite forallb_forall. intros Hall f p Hf Hp.
  specialize (Hall f). rewrite forallb_forall in Hall.
  apply Hall; apply list_elem_of_In; by apply bytes_complete.
Qed.

Lemma norm_byte f : is_uint8 f → F64.astype_uint8 (F64.norm f * 255) = f.
Proof.
  intros Hf. apply Z.eqb_eq.
  exact (bytes_forallb _ norm_roundtrip_ok f Hf).
Qed.

Lemma norm_is_plain f : is_uint8 f → Binary64.plain (F64.norm f).
Proof.
  intros Hf. exact (bytes_forallb _ norm_plain_ok f Hf).
Qed.

Lemma norm_unit f : is_uint8 f → Binary64.unitf (F64.norm f).
Proof.
  intros Hf. apply FloatFacts.unitb_unitf.
  pose proof (stays_unit_spec multiply_ch stays_unit_multiply f 255%Z Hf
                ltac:(unfold is_uint8; lia)) as H.
  unfold multiply_ch in H.
  change (F64.norm 255) with 1%float in H. by rewrite FloatFacts.mul_one_r in H.
Qed.

(** The blended colour of two channels lies in [0, 1], whatever the mode. *)
Lemma blended_unit blend_mode f p :
  is_uint8 f → is_uint8 p →
  Binary64.unitf (blended_ch blend_mode (F64.norm f) (F64.norm p)).
Proof.
  intros Hf Hp. apply FloatFacts.unitb_unitf.
  apply (formulas_spec (λ g, Binary64.unitb (g (F64.norm f) (F64.norm p)) = true)).
  - exact (stays_unit_spec overlay_ch stays_unit_overlay f p Hf Hp).
  - exact (stays_unit_spec multiply_ch stays_unit_multiply f p Hf Hp).
  - exact (stays_unit_spec screen_ch stays_unit_screen f p Hf Hp).
Qed.

(** With opacity 0 a channel keeps the fabric's value; with opacity 1 it is
    the blended colour, converted. *)
Lemma blend_ch_opacity_0 blend_mode f p :
  is_uint8 f → is_uint8 p → blend_ch blend_mode 0 f p = f.
Proof.
  intros Hf Hp. unfold blend_ch, result_ch.
  rewrite FloatFacts.composite_zeroish.
  - by apply norm_byte.
  - by apply norm_is_plain.
  - by apply blended_unit.
  - apply FloatFacts.zeroish_zero.
Qed.

Lemma blend_ch_opacity_1 blend_mode f p :
  is_uint8 f → is_uint8 p → blend_ch blend_mode 1 f p = blended_byte blend_mode f p.
Proof.
  intros Hf Hp. unfold blend_ch, result_ch, blended_byte.
  apply FloatFacts.astype_composite_one; [by apply norm_is_plain|by apply blended_unit].
Qed.

Lemma within_one_refl (r : raster) : within_one r r.
Proof.
  unfold within_one. apply Forall_Forall2_diag, Forall_forall. intros row _.
  apply Forall_Forall2_diag, Forall_forall. intros px _.
  apply Forall_Forall2_diag, Forall_forall. intros v _. lia.
Qed.

(** The output on the path without alpha, channel by channel. *)
Lemma blend_images_rgb h w (fabric print_img : raster) blend_mode opacity :
  0 < h → 0 < w → has_shape h w 3 fabric → has_shape h w 3 print_img →
  blend_images fabric print_img blend_mode opacity =
  Some (zip_with (zip_with (zip_with (blend_ch blend_mode opacity)))
          fabric print_img).
Proof.
  intros Hh Hw Hf Hp.
  rewrite (blend_images_pointwise h w fabric print_img Hh Hw Hf 3) by auto.
  f_equal.
  change (zip_with (zip_with (zip_with (blend_ch blend_mode opacity))) fabric print_img)
    with (pointwise (zip_with (blend_ch blend_mode opacity)) fabric print_img).
  apply (pointwise_ext 3); [by apply (same_grid_of_shape h w)|].
  px_cases. reflexivity.
Qed.

(** C3. Opacity bounds, for a 3-channel fabric and a 3-channel overlay of one
    size and every blend mode.  Each output channel is the 8-bit conversion
    of [base * (1 - opacity) + B * opacity].  With opacity 0 the output is the
    fabric, within one unit per channel (it is in fact the fabric itself);
    with opacity 1 it is the blended colour [B] after the 8-bit conversion. *)
Theorem opacity_bounds h w (fabric print_img : raster) (blend_mode : string) :
  0 < h → 0 < w → has_shape h w 3 fabric → has_shape h w 3 print_img →
  uint8_raster fabric → uint8_raster print_img →
  (∀ opacity,
     blend_images fabric print_img blend_mode opacity =
     Some (zip_with (zip_with (zip_with (λ f p,
             F64.astype_uint8
               (composite (F64.norm f)
                  (blended_ch blend_mode (F64.norm f) (F64.norm p)) opacity
                * 255)))) fabric print_img)) ∧
  (∃ out, blend_images fabric print_img blend_mode 0 = Some out ∧
          within_one out fabric ∧ out = fabric) ∧
  blend_images fabric print_img blend_mode 1 =
    Some (zip_with (zip_with (zip_with (blended_byte blend_mode)))
            fabric print_img).
Proof.
  intros Hh Hw Hf Hp Uf Up.
  pose proof (same_grid_of_shape h w 3 _ _ Hf Hp) as Hg.
  split; [intros opacity; by apply (blend_images_rgb h w)|].
  split.
  - exists fabric. split; [|split; [apply within_one_refl|done]].
    rewrite (blend_images_rgb h w) by done. f_equal.
    transitivity (pointwise (λ fp _ : pixel, fp) fabric print_img);
      [|by apply (pointwise_fst 3)].
    change (zip_with (zip_with (zip_with (blend_ch blend_mode 0))) fabric print_img)
      with (pointwise (zip_with (blend_ch blend_mode 0)) fabric print_img).
    apply (pointwise_ext_bytes 3); [done|done|done|].
    intros fp pp [[Hlf Hlp] [Bf Bp]].
    repeat (destruct fp as [|? fp]; simpl in Hlf; try lia).
    repeat (destruct pp as [|? pp]; simpl in Hlp; try lia).
    repeat match goal with H : Forall _ (_ :: _) |- _ =>
      apply Forall_cons in H as [? H] end.
    simpl. by rewrite !blend_ch_opacity_0.
  - rewrite (blend_images_rgb h w) by done. f_equal.
    change (zip_with (zip_with (zip_with (blend_ch blend_mode 1))) fabric print_img)
      with (pointwise (zip_with (blend_ch blend_mode 1)) fabric print_img).
    change (zip_with (zip_with (zip_with (blended_byte blend_mode))) fabric print_img)
      with (pointwise (zip_with (blended_byte blend_mode)) fabric print_img).
    apply (pointwise_ext_bytes 3); [done|done|done|].
    intros fp pp [[Hlf Hlp] [Bf Bp]].
    repeat (destruct fp as [|? fp]; simpl in Hlf; try lia).
    repeat (destruct pp as [|? pp]; simpl in Hlp; try lia).
    repeat match goal with H : Forall _ (_ :: _) |- _ =>
      apply Forall_cons in H as [? H] end.
    simpl. by rewrite !blend_ch_opacity_1.
Qed.

(** A grey fabric pixel under a white print pixel. *)
Lemma opacity_bounds_witness :
  (∀ opacity,
     blend_images [[[128; 128; 128]]]%Z [[[255; 255; 255]]]%Z "multiply" opacity =
     Some (zip_with (zip_with (zip_with (λ f p,
             F64.astype_uint8
               (composite (F64.norm f)
                  (blended_ch "multiply" (F64.norm f) (F64.norm p)) opacity
                * 255)))) [[[128; 128; 128]]]%Z [[[255; 255; 255]]]%Z)) ∧
  (∃ out, blend_images [[[128; 128; 128]]]%Z [[[255; 255; 255]]]%Z "multiply" 0
            = Some out ∧
          within_one out [[[128; 128; 128]]]%Z ∧ out = [[[128; 128; 128]]]%Z) ∧
  blend_images [[[128; 128; 128]]]%Z [[[255; 255; 255]]]%Z "multiply" 1 =
    Some (zip_with (zip_with (zip_with (blended_byte "multiply")))
            [[[128; 128; 128]]]%Z [[[255; 255; 255]]]%Z).
Proof.
  apply (opacity_bounds 1 1 [[[128; 128; 128]]]%Z [[[255; 255; 255]]]%Z
           "multiply"); try lia.
  - split; [done|]. repeat constructor.
  - split; [done|]. repeat constructor.
  - repeat constructor; unfold is_uint8; lia.
  - repeat constructor; unfold is_uint8; lia.
Defined.

(** *** The alpha path *)

(** Splits the pixels of a position into their 8-bit channels. *)
Ltac px_bytes_cases :=
  let fp := fresh "fp" in let pp := fresh "pp" in
  let Hlf := fresh "Hlf" in let Hlp := fresh "Hlp" in
  let Bf := fresh "Bf" in let Bp := fresh "Bp" in
  intros fp pp [[Hlf Hlp] [Bf Bp]];
  repeat (destruct fp as [|? fp]; simpl in Hlf; try lia);
  repeat (destruct pp as [|? pp]; simpl in Hlp; try lia);
  repeat match goal with H : Forall _ (_ :: _) |- _ =>
    apply Forall_cons in H as [? H] end.

Lemma result_ch_alpha_0 blend_mode opacity f p :
  Binary64.unitb opacity = true → is_uint8 f → is_uint8 p →
  F64.astype_uint8 (result_ch_alpha blend_mode opacity 0 f p * 255) = f.
Proof.
  intros Ho Hf Hp. unfold result_ch_alpha.
  change (F64.norm 0) with 0%float.
  rewrite FloatFacts.composite_zeroish.
  - by apply norm_byte.
  - by apply norm_is_plain.
  - by apply blended_unit.
  - apply FloatFacts.mul_zeroish_l;
      [apply FloatFacts.zeroish_zero|by apply FloatFacts.unitb_unitf].
Qed.

Lemma result_ch_alpha_255 blend_mode opacity f p :
  result_ch_alpha blend_mode opacity 255 f p = result_ch blend_mode opacity f p.
Proof.
  unfold result_ch_alpha, result_ch.
  change (F64.norm 255) with 1%float. by rewrite FloatFacts.mul_one_l.
Qed.

Lemma rgb_of_shape h w (print_img : raster) :
  has_shape h w 4 print_img → has_shape h w 3 (rgb_of print_img).
Proof.
  intros [Hh Hr]. split; [unfold rgb_of; by rewrite length_fmap|].
  unfold rgb_of. apply Forall_fmap. eapply Forall_impl; [exact Hr|].
  intros row [Hw Hc]. simpl. split; [by rewrite length_fmap|].
  apply Forall_fmap. eapply Forall_impl; [exact Hc|].
  intros px Hpx. simpl. rewrite length_take, Hpx. done.
Qed.

Lemma pointwise_rgb_of {C} (K : pixel → pixel → list C) (fabric print_img : raster) :
  pointwise K fabric (rgb_of print_img) =
  pointwise (λ fp pp, K fp (take 3 pp)) fabric print_img.
Proof.
  unfold pointwise, rgb_of. rewrite zip_with_fmap_r.
  apply zip_with_ext; [|done|done]. intros frow prow.
  by rewrite zip_with_fmap_r.
Qed.

(** C4. Alpha compositing, for a 3-channel fabric and a 4-channel overlay of
    one size.  The strength of a pixel is [(alpha / 255) * opacity]: the
    output pixel is the conversion of [result_px], whose channels composite
    with that strength.  With alpha 0 everywhere (and an opacity in [0, 1])
    the output is the fabric unchanged; with alpha 255 everywhere it is the
    output of the path without alpha on the overlay's RGB channels. *)
Theorem alpha_compositing h w (fabric print_img : raster)
    (blend_mode : string) (opacity : float) :
  0 < h → 0 < w → has_shape h w 3 fabric → has_shape h w 4 print_img →
  uint8_raster fabric → uint8_raster print_img →
  blend_images fabric print_img blend_mode opacity =
    Some (zip_with (zip_with (blend_px blend_mode opacity)) fabric print_img) ∧
  (Binary64.unitb opacity = true → alpha_is 0 print_img →
   blend_images fabric print_img blend_mode opacity = Some fabric) ∧
  (alpha_is 255 print_img →
   blend_images fabric print_img blend_mode opacity =
   blend_images fabric (rgb_of print_img) blend_mode opacity).
Proof.
  intros Hh Hw Hf Hp Uf Up.
  pose proof (same_grid_of_shape h w 4 _ _ Hf Hp) as Hg.
  pose proof (blend_images_pointwise h w fabric print_img Hh Hw Hf 4
                blend_mode opacity ltac:(auto) Hp) as Himg.
  split; [exact Himg|]. split.
  - intros Ho Ha. rewrite Himg. f_equal.
    transitivity (pointwise (λ fp _ : pixel, fp) fabric print_img);
      [|by apply (pointwise_fst 4)].
    apply (pointwise_ext_where 4 (λ px, px !! 3 = Some 0%Z)); [done..|].
    px_bytes_cases. simpl. intros [= ->].
    unfold blend_px, result_px. simpl.
    by rewrite !result_ch_alpha_0.
  - intros Ha. rewrite Himg.
    rewrite (blend_images_rgb h w) by (done || by apply rgb_of_shape).
    f_equal.
    change (zip_with (zip_with (zip_with (blend_ch blend_mode opacity)))
              fabric (rgb_of print_img))
      with (pointwise (zip_with (blend_ch blend_mode opacity)) fabric
              (rgb_of print_img)).
    rewrite pointwise_rgb_of.
    apply (pointwise_ext_where 4 (λ px, px !! 3 = Some 255%Z)); [done..|].
    px_bytes_cases. simpl. intros [= ->].
    unfold blend_px, result_px, blend_ch. simpl.
    by rewrite !result_ch_alpha_255.
Qed.

(** A transparent and an opaque print pixel over a grey fabric pixel. *)
Lemma alpha_compositing_witness :
  blend_images [[[128; 64; 200]]]%Z [[[255; 0; 90; 0]]]%Z "screen" 0.5 =
    Some (zip_with (zip_with (blend_px "screen" 0.5))
            [[[128; 64; 200]]]%Z [[[255; 0; 90; 0]]]%Z) ∧
  (Binary64.unitb 0.5 = true → alpha_is 0 [[[255; 0; 90; 0]]]%Z →
   blend_images [[[128; 64; 200]]]%Z [[[255; 0; 90; 0]]]%Z "screen" 0.5 =
   Some [[[128; 64; 200]]]%Z) ∧
  (alpha_is 255 [[[255; 0; 90; 0]]]%Z →
   blend_images [[[128; 64; 200]]]%Z [[[255; 0; 90; 0]]]%Z "screen" 0.5 =
   blend_images [[[128; 64; 200]]]%Z (rgb_of [[[255; 0; 90; 0]]]%Z) "screen" 0.5).
Proof.
  apply (alpha_compositing 1 1 [[[128; 64; 200]]]%Z [[[255; 0; 90; 0]]]%Z
           "screen" 0.5%float); try lia.
  - split; [done|]. repeat constructor.
  - split; [done|]. repeat constructor.
  - repeat constructor; unfold is_uint8; lia.
  - repeat constructor; unfold is_uint8; lia.
Defined.

(** *** The range of the result *)

Lemma result_ch_unit blend_mode opacity f p :
  Binary64.unitb opacity = true → is_uint8 f → is_uint8 p →
  Binary64.unitf (result_ch blend_mode opacity f p).
Proof.
  intros Ho Hf Hp. unfold result_ch. apply FloatFacts.unitf_composite.
  - by apply norm_unit.
  - by apply blended_unit.
  - by apply FloatFacts.unitb_unitf.
Qed.

Lemma result_ch_alpha_unit blend_mode opacity a f p :
  Binary64.unitb opacity = true → is_uint8 a → is_uint8 f → is_uint8 p →
  Binary64.unitf (result_ch_alpha blend_mode opacity a f p).
Proof.
  intros Ho Ha Hf Hp. unfold result_ch_alpha. apply FloatFacts.unitf_composite.
  - by apply norm_unit.
  - by apply blended_unit.
  - apply FloatFacts.unitf_mul; [by apply norm_unit|by apply FloatFacts.unitb_unitf].
Qed.

Lemma result_px_unit c blend_mode opacity fp pp :
  c = 3 ∨ c = 4 → Binary64.unitb opacity = true → px_bytes c fp pp →
  Forall Binary64.unitf (result_px blend_mode opacity fp pp).
Proof.
  intros Hc Ho. revert fp pp.
  destruct Hc as [-> | ->]; px_bytes_cases; unfold result_px; simpl;
    repeat constructor;
    (by apply result_ch_unit) || (by apply result_ch_alpha_unit).
Qed.

Lemma result_px_length c blend_mode opacity fp pp :
  c = 3 ∨ c = 4 → px_shape c fp pp →
  length (result_px blend_mode opacity fp pp) = 3.
Proof.
  intros Hc [Hlf Hlp].
  repeat (destruct fp as [|? fp]; simpl in Hlf; try lia).
  destruct Hc as [-> | ->];
    repeat (destruct pp as [|? pp]; simpl in Hlp; try lia); done.
Qed.

Lemma map3_ext_Forall {A B} (Q : A → Prop) (g1 g2 : A → B) (r : array3 A) :
  Forall (Forall (Forall Q)) r → (∀ v, Q v → g1 v = g2 v) →
  map3 g1 r = map3 g2 r.
Proof.
  intros Hr Hg. unfold map3.
  apply Forall_fmap_ext_1. eapply Forall_impl; [exact Hr|].
  intros row Hrow. simpl.
  apply Forall_fmap_ext_1. eapply Forall_impl; [exact Hrow|].
  intros px Hpx. simpl.
  apply Forall_fmap_ext_1. eapply Forall_impl; [exact Hpx|]. auto.
Qed.

Lemma map3_Forall {A B} (Q : A → Prop) (R : B → Prop) (g : A → B) (r : array3 A) :
  Forall (Forall (Forall Q)) r → (∀ v, Q v → R (g v)) →
  Forall (Forall (Forall R)) (map3 g r).
Proof.
  intros Hr Hg. unfold map3.
  apply Forall_fmap. eapply Forall_impl; [exact Hr|].
  intros row Hrow. simpl.
  apply Forall_fmap. eapply Forall_impl; [exact Hrow|].
  intros px Hpx. simpl.
  apply Forall_fmap. eapply Forall_impl; [exact Hpx|]. auto.
Qed.

Lemma map3_shape {A B} h w c (g : A → B) (r : array3 A) :
  has_shape h w c r → has_shape h w c (map3 g r).
Proof.
  intros [Hh Hr]. unfold map3. split; [by rewrite length_fmap|].
  apply Forall_fmap. eapply Forall_impl; [exact Hr|].
  intros row [Hw Hc]. simpl. split; [by rewrite length_fmap|].
  apply Forall_fmap. eapply Forall_impl; [exact Hc|].
  intros px Hpx. simpl. by rewrite length_fmap.
Qed.

(** C7. For a 3-channel fabric and a 3- or 4-channel print of one size, with
    8-bit channels and an opacity in [0, 1]: the floating-point result exists,
    has three channels, and each of its values lies in [0, 1]; hence the
    conversion to 8 bits (scale by 255, truncate, wrap modulo 256) equals the
    conversion that saturates to [0, 255], and the returned raster has three
    8-bit channels. *)
Theorem result_in_unit_interval h w c (fabric print_img : raster)
    (blend_mode : string) (opacity : float) :
  0 < h → 0 < w → c = 3 ∨ c = 4 →
  has_shape h w 3 fabric → has_shape h w c print_img →
  uint8_raster fabric → uint8_raster print_img →
  Binary64.unitb opacity = true →
  ∃ result : array3 float,
    blend_result fabric print_img blend_mode opacity = Some result ∧
    has_shape h w 3 result ∧
    Forall (Forall (Forall (λ v, Binary64.unitb v = true))) result ∧
    to_uint8 result = map3 (λ v, F64.clamp_uint8 (v * 255)) result ∧
    blend_images fabric print_img blend_mode opacity = Some (to_uint8 result) ∧
    has_shape h w 3 (to_uint8 result) ∧
    uint8_raster (to_uint8 result).
Proof.
  intros Hh Hw Hc Hf Hp Uf Up Ho.
  pose proof (same_grid_of_shape h w c _ _ Hf Hp) as Hg.
  pose proof (blend_result_pointwise h w fabric print_img Hh Hw Hf c
                blend_mode opacity Hc Hp) as Hres.
  set (result := pointwise (result_px blend_mode opacity) fabric print_img) in *.
  assert (has_shape h w 3 result) as Hshape.
  { apply (pointwise_shape c 3 h w); [done..|].
    intros fp pp Hs. by apply (result_px_length c). }
  assert (Forall (Forall (Forall Binary64.unitf)) result) as Hunit.
  { apply (pointwise_Forall c); [done..|].
    intros fp pp Hb. by apply (result_px_unit c). }
  exists result. split; [done|]. split; [done|]. split.
  { eapply Forall_impl; [exact Hunit|]. intros row Hrow.
    eapply Forall_impl; [exact Hrow|]. intros px Hpx.
    eapply Forall_impl; [exact Hpx|]. apply FloatFacts.unitf_unitb. }
  split.
  { unfold to_uint8. apply (map3_ext_Forall Binary64.unitf); [done|].
    intros v Hv. by apply FloatFacts.astype_clamp_unit. }
  split; [unfold blend_images; by rewrite Hres|].
  split; [by apply map3_shape|].
  unfold to_uint8, uint8_raster.
  apply (map3_Forall Binary64.unitf); [done|].
  intros v Hv. by apply FloatFacts.astype_clamp_unit.
Qed.

(** A saturated print pixel with partial alpha under the screen formula. *)
Lemma result_in_unit_interval_witness :
  ∃ result : array3 float,
    blend_result [[[255; 0; 128]]]%Z [[[255; 255; 7; 200]]]%Z "screen" 1 =
      Some result ∧
    has_shape 1 1 3 result ∧
    Forall (Forall (Forall (λ v, Binary64.unitb v = true))) result ∧
    to_uint8 result = map3 (λ v, F64.clamp_uint8 (v * 255)) result ∧
    blend_images [[[255; 0; 128]]]%Z [[[255; 255; 7; 200]]]%Z "screen" 1 =
      Some (to_uint8 result) ∧
    has_shape 1 1 3 (to_uint8 result) ∧
    uint8_raster (to_uint8 result).
Proof.
  apply (result_in_unit_interval 1 1 4 [[[255; 0; 128]]]%Z
           [[[255; 255; 7; 200]]]%Z "screen" 1%float); try lia.
  - split; [done|]. repeat constructor.
  - split; [done|]. repeat constructor.
  - repeat constructor; unfold is_uint8; lia.
  - repeat constructor; unfold is_uint8; lia.
  - reflexivity.
Defined.

(** *** The overlay formula at its boundary *)

Lemma overlay_low_half p : overlay_low 0.5 p = p.
Proof.
  unfold overlay_low. change (2 * 0.5)%float with 1%float.
  apply FloatFacts.mul_one_l.
Qed.

Lemma overlay_high_half p : overlay_high 0.5 p = (1 - (1 - p))%float.
Proof.
  unfold overlay_high. change (2 * (1 - 0.5))%float with 1%float.
  by rewrite FloatFacts.mul_one_l.
Qed.

(** C5 (as the code computes it). At [base = 0.5] the low branch
    [2 * base * p] is exactly [p] for every binary64 [p]; the high branch
    [1 - 2 * (1 - base) * (1 - p)] is [1 - (1 - p)], computed with one
    rounding of [1 - p]; the piecewise rule takes the high branch there.  On
    the print values [k / 255] of an 8-bit channel the high branch is within
    [2^-54] of [p], its 8-bit conversion is within one of the low branch's,
    and it is exactly [p] for [k >= 128].  No 8-bit fabric channel normalises
    to 0.5. *)
Theorem overlay_boundary :
  (∀ p, overlay_low 0.5 p = p) ∧
  (∀ p, overlay_high 0.5 p = (1 - (1 - p))%float) ∧
  (∀ p, overlay_ch 0.5 p = overlay_high 0.5 p) ∧
  forallb boundary_close bytes = true ∧
  forallb boundary_exact bytes = true ∧
  forallb off_boundary bytes = true.
Proof.
  split; [exact overlay_low_half|]. split; [exact overlay_high_half|].
  split; [done|]. repeat split; by vm_compute.
Qed.

(** C5 fails as stated: for the print value [1 / 255] the high branch yields
    [0x1.010101010101p-8], not [1 / 255 = 0x1.0101010101010p-8 + 2^-60]; the
    8-bit conversions of the two branches are 0 and 1. *)
Lemma overlay_boundary_inexact :
  ¬ (∀ p, Binary64.unitb p = true →
          overlay_low 0.5 p = p ∧ overlay_high 0.5 p = p) ∧
  Binary64.unitb (F64.norm 1) = true ∧
  overlay_high 0.5 (F64.norm 1) ≠ F64.norm 1 ∧
  F64.astype_uint8 (overlay_high 0.5 (F64.norm 1) * 255) = 0%Z ∧
  F64.astype_uint8 (overlay_low 0.5 (F64.norm 1) * 255) = 1%Z.
Proof.
  assert (overlay_high 0.5 (F64.norm 1) ≠ F64.norm 1) as Hne.
  { intros H. apply (f_equal Prim2SF) in H. vm_compute in H. discriminate. }
  split; [|by repeat split].
  intros H. by destruct (H (F64.norm 1) eq_refl) as [_ ?].
Qed.

(** *** Arrays of different sizes *)

Lemma zipM_length {A B C} (f : A → B → option C) xs ys cs :
  zipM f xs ys = Some cs → length xs = length ys.
Proof.
  revert ys cs. induction xs as [|x xs IH]; intros [|y ys] cs; simpl; try done.
  destruct (f x y); simpl; [|done].
  destruct (zipM f xs ys) eqn:E; simpl; [|done].
  intros _. f_equal. by eapply IH.
Qed.

Lemma bzip_clash {A B C} (f : A → B → option C) xs ys :
  clash (length xs) (length ys) → bzip f xs ys = None.
Proof.
  intros (Hne & H1 & H2).
  assert (zipM f xs ys = None) as Hz.
  { destruct (zipM f xs ys) eqn:E; [|done]. by apply zipM_length in E. }
  destruct xs as [|x [|x' xs]]; [| |]; simpl in *; try done;
    destruct ys as [|y [|y' ys]]; simpl in *; done.
Qed.

Lemma mapM_all_fail {A B} (g : A → option B) x xs :
  (∀ y, y ∈ x :: xs → g y = None) → mapM g (x :: xs) = None.
Proof. intros H. simpl. rewrite (H x) by left. done. Qed.

Lemma bzip_all_fail {A B C} (f : A → B → option C) xs ys :
  0 < length xs → 0 < length ys →
  (∀ x y, x ∈ xs → y ∈ ys → f x y = None) → bzip f xs ys = None.
Proof.
  intros Hx Hy Hf.
  destruct xs as [|x xs]; [simpl in Hx; lia|].
  destruct ys as [|y ys]; [simpl in Hy; lia|].
  assert (f x y = None) as Hxy by (apply Hf; left).
  destruct xs as [|x' xs].
  - simpl. by rewrite Hxy.
  - destruct ys as [|y' ys]; simpl; by rewrite Hxy.
Qed.

Lemma np_binop_clash {A B C} (f : A → B → C) h1 w1 h2 w2
    (x : array3 A) (y : array3 B) :
  0 < h1 → 0 < h2 → extent h1 w1 x → extent h2 w2 y →
  clash h1 h2 ∨ clash w1 w2 → np_binop f x y = None.
Proof.
  intros Hh1 Hh2 [Hx Hxr] [Hy Hyr] [Hc | Hc]; unfold np_binop.
  - apply bzip_clash. by rewrite Hx, Hy.
  - apply bzip_all_fail; [lia..|].
    intros xr yr Hxin Hyin. apply bzip_clash.
    rewrite Forall_forall in Hxr. rewrite Forall_forall in Hyr.
    by rewrite (Hxr _ Hxin), (Hyr _ Hyin).
Qed.

Lemma extent_fmap {A B} (g : A → B) h w (r : list (list A)) :
  extent h w r → extent h w ((λ row : list A, g <$> row) <$> r).
Proof.
  intros [Hh Hr]. split; [by rewrite length_fmap|].
  apply Forall_fmap. eapply Forall_impl; [exact Hr|].
  intros row Hrow. simpl. by rewrite length_fmap.
Qed.

Lemma extent_map3 {A B} (g : A → B) h w (r : array3 A) :
  extent h w r → extent h w (map3 g r).
Proof. apply (extent_fmap (fmap g)). Qed.

Lemma extent_of_shape h w c (r : raster) : has_shape h w c r → extent h w r.
Proof.
  intros [Hh Hr]. split; [done|].
  eapply Forall_impl; [exact Hr|]. by intros row [? _].
Qed.

(** C9 (as the code behaves). [blend_images] has no size check of its own;
    it fails, with numpy's broadcasting [ValueError], when the heights or the
    widths of the two rasters differ and neither of the two differing extents
    is 1. *)
Theorem clashing_sizes_fail h1 w1 h2 w2 c (fabric print_img : raster)
    (blend_mode : string) (opacity : float) :
  0 < h1 → 0 < w1 → 0 < h2 → 0 < w2 →
  has_shape h1 w1 3 fabric → has_shape h2 w2 c print_img →
  clash h1 h2 ∨ clash w1 w2 →
  blend_images fabric print_img blend_mode opacity = None.
Proof.
  intros Hh1 Hw1 Hh2 Hw2 Hf%extent_of_shape Hp%extent_of_shape Hc.
  assert (∀ (k : float → float → float) (x y : array3 float),
            extent h1 w1 x → extent h2 w2 y → np_binop k x y = None) as Hfail.
  { intros k x y Hx Hy. by apply (np_binop_clash k h1 w1 h2 w2). }
  unfold blend_images, blend_result. cbv zeta.
  destruct (chans print_img =? 4)%nat;
    unfold overlay, multiply, screen;
    repeat match goal with |- context [String.eqb ?a ?b] =>
      destruct (String.eqb a b) end;
    repeat rewrite Hfail
      by (repeat first [apply extent_map3 | apply extent_fmap]; assumption);
    done.
Qed.

(** Fabric and print of heights 4 and 3. *)
Lemma clashing_sizes_fail_witness :
  blend_images (replicate 4 [[10; 20; 30]]%Z) (replicate 3 [[1; 2; 3]]%Z)
    "overlay" 0.7 = None.
Proof.
  apply (clashing_sizes_fail 4 1 3 1 3); try lia.
  - split; [done|]. repeat constructor.
  - split; [done|]. repeat constructor.
  - left. unfold clash. lia.
Defined.

(** C9 fails as stated: a fabric of one row and a print of three rows have
    different heights, and the blend returns a raster of three rows. *)
Lemma broadcast_sizes_succeed :
  height [[[10; 20; 30]; [40; 50; 60]]]%Z ≠
  height (replicate 3 [[255; 255; 255]; [0; 0; 0]]%Z) ∧
  blend_images [[[10; 20; 30]; [40; 50; 60]]]%Z
    (replicate 3 [[255; 255; 255]; [0; 0; 0]]%Z) "multiply" 1 =
  Some (replicate 3 [[10; 20; 30]; [0; 0; 0]]%Z).
Proof. split; [by vm_compute|by vm_compute]. Qed.

End BlendFacts.

(** ** [load_fabric], [load_print] and [resize_print] *)

Module LoaderFacts.

Import Loader.

(** *** Suffixes *)

Lemma lower_ascii_not_P c : lower_ascii c ≠ "P"%char.
Proof. destruct c as [[] [] [] [] [] [] [] []]; by vm_compute. Qed.

Lemma endswith_lower_PNG s : endswith (lower s) "PNG" = false.
Proof.
  induction s as [|c s IH]; [done|].
  simpl. rewrite IH, orb_false_r.
  pose proof (lower_ascii_not_P c) as Hc.
  destruct (Ascii.eqb_spec (lower_ascii c) "P"); [done|].
  simpl. destruct (Ascii.eqb (lower_ascii c) "P") eqn:E; [|done].
  by apply Ascii.eqb_eq in E.
Qed.

Lemma png_branch_suffix path : png_branch path = endswith (lower path) "png".
Proof. unfold png_branch. by rewrite endswith_lower_PNG, orb_false_r. Qed.

Lemma endswith_cases s suffix :
  endswith s suffix = true →
  s = suffix ∨ ∃ c s', s = String c s' ∧ endswith s' suffix = true.
Proof.
  destruct s as [|c s]; simpl; intros [H|H]%orb_true_iff; try done.
  - left. by apply String.eqb_eq.
  - left. by apply String.eqb_eq.
  - right. by exists c, s.
Qed.

Lemma endswith_dot_png s : endswith s ".png" = true → endswith s "png" = true.
Proof.
  induction s as [|c s IH]; intros H.
  - done.
  - apply endswith_cases in H as [->|(c' & s' & [= -> ->] & H)]; [by vm_compute|].
    change (endswith (String c' s') "png")
      with (String.eqb (String c' s') "png" || endswith s' "png").
    rewrite (IH H). apply orb_true_r.
Qed.

(** Two suffixes that do not end alike exclude each other. *)
Lemma endswith_exclusive (u v : string) s :
  endswith u v = false → endswith v u = false →
  (∀ c s', u = String c s' → endswith s' v = false) →
  (∀ c s', v = String c s' → endswith s' u = false) →
  endswith s u = true → endswith s v = false.
Proof.
  intros Huv Hvu Hu Hv. induction s as [|c s IH]; intros H.
  - apply endswith_cases in H as [<-|(? & ? & [=] & _)]. exact Huv.
  - apply endswith_cases in H as [<-|(c' & s' & [= <- <-] & H)]; [exact Huv|].
    change (endswith (String c s) v)
      with (String.eqb (String c s) v || endswith s v).
    rewrite (IH H), orb_false_r.
    destruct (String.eqb_spec (String c s) v) as [<-|]; [|done].
    by rewrite (Hv c s eq_refl) in H.
Qed.

Lemma endswith_jpg s :
  endswith s ".jpg" = true ∨ endswith s ".jpeg" = true →
  endswith s "png" = false.
Proof.
  intros [H|H]; revert H; apply endswith_exclusive; try (by vm_compute);
    by intros c s' [= <- <-]; vm_compute.
Qed.

(** *** Decoding *)

Lemma mapM_Forall_fmap {A B} (f : A → option B) (g : A → B) (l : list A) :
  Forall (λ x, f x = Some (g x)) l → mapM f l = Some (g <$> l).
Proof.
  induction 1 as [|x l Hx _ IH]; [done|]. simpl. by rewrite Hx, IH.
Qed.

Lemma cvtColor_fmap conv (g : pixel → pixel) (a : raster) :
  Forall (Forall (λ px, conv px = Some (g px))) a →
  cvtColor conv (Some (Arr3 a)) = Some ((λ row : list pixel, g <$> row) <$> a).
Proof.
  intros H. simpl. apply mapM_Forall_fmap.
  eapply Forall_impl; [exact H|]. intros row Hrow. simpl.
  by apply mapM_Forall_fmap.
Qed.

Lemma chans_decoded c (a : raster) : decodes_to c (Arr3 a) → chans a = c.
Proof.
  intros (_ & Ha & Hr). unfold chans.
  destruct a as [|row a]; [done|].
  apply Forall_cons in Hr as [[Hrow Hpx] _]. simpl.
  destruct row as [|px row]; [done|].
  by apply Forall_cons in Hpx as [? _].
Qed.

Lemma decoded_pixels c (Q : pixel → Prop) (a : raster) :
  decodes_to c (Arr3 a) → (∀ px, length px = c → Q px) → Forall (Forall Q) a.
Proof.
  intros (_ & _ & Hr) HQ. eapply Forall_impl; [exact Hr|].
  intros row [_ Hpx]. simpl. eapply Forall_impl; [exact Hpx|]. auto.
Qed.

Lemma fmap_pixels (Q : pixel → Prop) (g : pixel → pixel) (a : raster) :
  (∀ px, Q (g px)) →
  Forall (Forall Q) ((λ row : list pixel, g <$> row) <$> a).
Proof.
  intros HQ. apply Forall_fmap, Forall_forall. intros row _. simpl.
  apply Forall_fmap, Forall_forall. intros px _. apply HQ.
Qed.

Lemma bgr2rgb_three (a : raster) :
  all_chans 3 a →
  cvtColor bgr2rgb_px (Some (Arr3 a)) =
    Some ((λ row : list pixel, swap_rb <$> row) <$> a) ∧
  all_chans 3 ((λ row : list pixel, swap_rb <$> row) <$> a).
Proof.
  intros Ha. split.
  - apply cvtColor_fmap. eapply Forall_impl; [exact Ha|].
    intros row Hrow. simpl. eapply Forall_impl; [exact Hrow|].
    by intros [|b [|g [|r [|? ?]]]] [=].
  - apply Forall_fmap. eapply Forall_impl; [exact Ha|].
    intros row Hrow. simpl. apply Forall_fmap.
    eapply Forall_impl; [exact Hrow|].
    by intros [|b [|g [|r [|? ?]]]] [=].
Qed.

(** The default decode, converted: three channels in the order [R, G, B]. *)
Lemma default_decode_rgb (img : bgr_image) :
  cvtColor bgr2rgb_px (Some (of_bgr img)) =
    Some ((λ row : list (Z * Z * Z), rgb_px <$> row) <$> img) ∧
  all_chans 3 ((λ row : list (Z * Z * Z), rgb_px <$> row) <$> img).
Proof.
  split.
  - unfold of_bgr. rewrite (cvtColor_fmap bgr2rgb_px swap_rb).
    + f_equal. rewrite <- list_fmap_compose. apply list_fmap_ext.
      intros _ row _. simpl. rewrite <- list_fmap_compose.
      apply list_fmap_ext. by intros _ [[b g] r] _.
    + apply Forall_fmap, Forall_forall. intros row _. simpl.
      apply Forall_fmap, Forall_forall. by intros [[b g] r] _.
  - apply Forall_fmap, Forall_forall. intros row _. simpl.
    apply Forall_fmap, Forall_forall. by intros [[b g] r] _.
Qed.

(** C10. For a readable fabric file, whatever the image stored in it (gray,
    colour, or colour with alpha, at any bit depth), [load_fabric] returns a
    raster all of whose pixels have exactly three channels: it is what the
    default [imread] decodes, which has no alpha channel, with B and R
    exchanged by the conversion. *)
Theorem load_fabric_three_channels (file : string → option ndarray)
    (color : string → bgr_image) (path : string) (img : ndarray) :
  file path = Some img →
  ∃ r, load_fabric file color path = Some r ∧ all_chans 3 r ∧
       r = (λ row : list (Z * Z * Z), rgb_px <$> row) <$> color path.
Proof.
  intros Hfile. unfold load_fabric, imread. rewrite Hfile. cbv zeta.
  destruct (default_decode_rgb (color path)) as [Hcv Hout].
  eexists. split; [exact Hcv|]. by split.
Qed.

(** A PNG fabric with an alpha channel. *)
Lemma load_fabric_three_channels_witness :
  ∃ r, load_fabric (λ _, Some (Arr3 [[[10; 20; 30; 128]; [1; 2; 3; 0]]]%Z))
         (λ _, [[(10, 20, 30); (1, 2, 3)]]%Z) "fabric.png" = Some r ∧
       all_chans 3 r ∧ r = [[[30; 20; 10]; [3; 2; 1]]]%Z.
Proof.
  apply (load_fabric_three_channels
           (λ _, Some (Arr3 [[[10; 20; 30; 128]; [1; 2; 3; 0]]]%Z))
           (λ _, [[(10, 20, 30); (1, 2, 3)]]%Z)
           "fabric.png" (Arr3 [[[10; 20; 30; 128]; [1; 2; 3; 0]]]%Z)).
  reflexivity.
Defined.

(** C8 (as the code decides it). The PNG branch is taken exactly when the
    lower-cased path ends in the three letters [png], with or without a dot
    before them: every path with the extension [.png] (in any case) takes it,
    no path ending in [.jpg] or [.jpeg] does.  In the PNG branch a 4-channel
    decode is returned as RGBA and a 3-channel decode as RGB; outside it
    every readable image is returned with exactly three channels. *)
Theorem load_print_branch (file : string → option ndarray)
    (color : string → bgr_image) (path : string) :
  png_branch path = endswith (lower path) "png" ∧
  (has_png_extension path = true → png_branch path = true) ∧
  (endswith (lower path) ".jpg" = true ∨ endswith (lower path) ".jpeg" = true →
   png_branch path = false) ∧
  (∀ a, png_branch path = true → file path = Some (Arr3 a) →
        decodes_to 4 (Arr3 a) →
        load_print file color path = Some ((λ row : list pixel, swap_rb <$> row) <$> a) ∧
        all_chans 4 ((λ row : list pixel, swap_rb <$> row) <$> a)) ∧
  (∀ a, png_branch path = true → file path = Some (Arr3 a) →
        decodes_to 3 (Arr3 a) →
        load_print file color path = Some ((λ row : list pixel, swap_rb <$> row) <$> a) ∧
        all_chans 3 ((λ row : list pixel, swap_rb <$> row) <$> a)) ∧
  (∀ img, png_branch path = false → file path = Some img → well_decoded img →
          ∃ r, load_print file color path = Some r ∧ all_chans 3 r).
Proof.
  split; [apply png_branch_suffix|]. split.
  { unfold has_png_extension. rewrite png_branch_suffix. apply endswith_dot_png. }
  split.
  { rewrite png_branch_suffix. apply endswith_jpg. }
  split; [|split].
  - intros a Hb Hfile Hdec. unfold load_print, imread_unchanged.
    rewrite Hb, Hfile. simpl. rewrite (chans_decoded 4 a Hdec). simpl.
    assert (Forall (Forall (λ px : pixel, length px = 4)) a) as Hlen
      by (apply (decoded_pixels _ _ _ Hdec); auto).
    split.
    + apply mapM_Forall_fmap. eapply Forall_impl; [exact Hlen|].
      intros row Hrow. simpl. apply mapM_Forall_fmap.
      eapply Forall_impl; [exact Hrow|].
      by intros [|b [|g [|r [|? [|? ?]]]]] [=].
    + apply Forall_fmap. eapply Forall_impl; [exact Hlen|].
      intros row Hrow. simpl. apply Forall_fmap.
      eapply Forall_impl; [exact Hrow|].
      by intros [|b [|g [|r [|? [|? ?]]]]] [=].
  - intros a Hb Hfile Hdec. unfold load_print, imread_unchanged.
    rewrite Hb, Hfile. simpl. rewrite (chans_decoded 3 a Hdec). simpl.
    assert (all_chans 3 a) as Hlen
      by (apply (decoded_pixels _ _ _ Hdec); auto).
    destruct (bgr2rgb_three a Hlen) as [Hcv Hout]. simpl in Hcv. done.
  - intros img Hb Hfile Himg. unfold load_print, imread.
    rewrite Hb, Hfile. cbv zeta.
    destruct (default_decode_rgb (color path)) as [Hcv Hout].
    eexists. split; [exact Hcv|exact Hout].
Qed.

(** C8 fails as stated: the extension of [leaf.apng] is not [.png], yet the
    path takes the PNG branch and the alpha channel of the file is kept. *)
Lemma png_suffix_without_dot :
  has_png_extension "leaf.apng" = false ∧
  png_branch "leaf.apng" = true ∧
  load_print (λ _, Some (Arr3 [[[10; 20; 30; 128]]]%Z))
    (λ _, [[(10, 20, 30)]]%Z) "leaf.apng" =
    Some [[[30; 20; 10; 128]]]%Z ∧
  ¬ (∀ path, png_branch path = true ↔ has_png_extension path = true).
Proof.
  split; [by vm_compute|]. split; [by vm_compute|]. split; [by vm_compute|].
  intros H. pose proof (proj1 (H "leaf.apng") eq_refl) as Hext.
  by vm_compute in Hext.
Qed.

End LoaderFacts.

Module ResizeFacts.

Import Binary64 Rounding Resize.

(** *** Truncation *)

(** [int] of a non-negative value is its integer part. *)
Lemma trunc_SF_floor x z :
  nn x → F64.trunc_SF x = Some z →
  (z * P 0 ≤ V x < (z + 1) * P 0)%Z.
Proof.
  pose proof (P_pos 0%Z ltac:(lia)) as HP0.
  destruct x as [s|s| |[] m e]; try done.
  - intros _ [= <-]. simpl. lia.
  - simpl. intros Hb [= <-]. destruct (bounded_facts m e Hb) as (He & _).
    unfold F64.signed. simpl cond_Zopp.
    destruct (Z.leb_spec 0 e) as [Hpos|Hneg].
    + pose proof (P_unit 0%Z e ltac:(lia) Hpos) as HPe.
      rewrite Z.sub_0_r in HPe. rewrite HPe. nia.
    + pose proof (P_unit e 0%Z ltac:(lia) ltac:(lia)) as HPu.
      rewrite Z.sub_0_l in HPu. rewrite HPu.
      pose proof (P_pos e ltac:(lia)) as HPe.
      assert (0 < 2 ^ (- e))%Z as Hd by (apply Z.pow_pos_nonneg; lia).
      rewrite Z.quot_div_nonneg by lia.
      pose proof (Z.div_mod (Zpos m) (2 ^ (- e)) ltac:(lia)) as Hdm.
      pose proof (Z.mod_pos_bound (Zpos m) (2 ^ (- e)) Hd) as Hmod.
      nia.
Qed.

Lemma py_int_of_int n : (0 ≤ n < 2 ^ 53)%Z → F64.py_int (F64.of_int n) = Some n.
Proof.
  intros Hn. destruct (Z.eq_dec n 0%Z) as [->|Hne]; [done|].
  destruct (FloatFacts.of_int_SF n ltac:(lia)) as (m & e & HSF & Hb & Hv).
  unfold F64.py_int. rewrite HSF.
  destruct (F64.trunc_SF (S754_finite false m e)) as [z|] eqn:Hz; [|done].
  pose proof (trunc_SF_floor (S754_finite false m e) z Hb Hz) as Hfl.
  simpl in Hfl.
  pose proof (P_pos 0%Z ltac:(lia)) as HP0.
  f_equal. nia.
Qed.

(** *** [cv2.resize] *)

Section Resampled.

Variable interp : raster → nat → nat → nat → nat → nat → Z.

Lemma cv2_resize_shape (src : raster) (w h : Z) :
  (0 < w)%Z → (0 < h)%Z → 0 < height src → 0 < width src →
  ∃ out, cv2_resize interp src w h = Some out ∧
         has_shape (Z.to_nat h) (Z.to_nat w) (chans src) out ∧
         ∀ y x k, y < Z.to_nat h → x < Z.to_nat w → k < chans src →
           pixel_at out y x ≫= (.!! k) =
           Some (interp src (Z.to_nat h) (Z.to_nat w) y x k).
Proof.
  intros Hw Hh Hsh Hsw. unfold cv2_resize.
  rewrite (proj2 (Z.ltb_lt 0 w) Hw), (proj2 (Z.ltb_lt 0 h) Hh).
  rewrite (proj2 (Nat.ltb_lt 0 _) Hsh), (proj2 (Nat.ltb_lt 0 _) Hsw). simpl.
  eexists. split; [done|]. split; [split|].
  - by rewrite length_fmap, length_seq.
  - apply Forall_fmap, Forall_forall. intros y _. simpl. split.
    + by rewrite length_fmap, length_seq.
    + apply Forall_fmap, Forall_forall. intros x _. simpl.
      by rewrite length_fmap, length_seq.
  - intros y x k Hy Hx Hk. unfold pixel_at.
    rewrite list_lookup_fmap, lookup_seq_lt by done. simpl.
    rewrite list_lookup_fmap, lookup_seq_lt by done. simpl.
    by rewrite list_lookup_fmap, lookup_seq_lt.
Qed.

Lemma cv2_resize_fails (src : raster) (w h : Z) :
  (w < 1 ∨ h < 1)%Z → cv2_resize interp src w h = None.
Proof.
  intros Hwh. unfold cv2_resize.
  destruct (Z.ltb_spec 0 w), (Z.ltb_spec 0 h); try done; lia.
Qed.

End Resampled.

(** C2 (as the code computes it). The target sides are
    [int(target * scale)]: the binary64 product truncated toward zero, not
    rounded, so for a non-negative product the integer part.  When both are at
    least 1 the print is resampled to exactly that height and width, with its
    channel count; when one of them is 0 (or negative) [cv2.resize] fails.
    With scale 1 the sides are the target's. *)
Theorem resize_print_truncates (interp : raster → nat → nat → nat → nat → nat → Z)
    (print_img : raster) (ph pw c th tw : nat) (scale : float) (sh sw : Z) :
  0 < ph → 0 < pw → has_shape ph pw c print_img →
  scaled_side th scale = Some sh → scaled_side tw scale = Some sw →
  (nn (Prim2SF (F64.of_nat th * scale)) →
   (sh * P 0 ≤ V (Prim2SF (F64.of_nat th * scale)) < (sh + 1) * P 0)%Z) ∧
  (nn (Prim2SF (F64.of_nat tw * scale)) →
   (sw * P 0 ≤ V (Prim2SF (F64.of_nat tw * scale)) < (sw + 1) * P 0)%Z) ∧
  ((1 ≤ sh)%Z → (1 ≤ sw)%Z →
   ∃ out, resize_print interp print_img (th, tw) scale = Some out ∧
          has_shape (Z.to_nat sh) (Z.to_nat sw) c out) ∧
  ((sh < 1 ∨ sw < 1)%Z →
   resize_print interp print_img (th, tw) scale = None) ∧
  ((Z.of_nat th < 2 ^ 53)%Z → scale = 1%float → sh = Z.of_nat th).
Proof.
  intros Hph Hpw Hshape Hsh Hsw.
  split; [intros Hnn; by apply trunc_SF_floor|].
  split; [intros Hnn; by apply trunc_SF_floor|].
  assert (resize_print interp print_img (th, tw) scale =
          cv2_resize interp print_img sw sh) as Hres.
  { unfold resize_print. rewrite Hsh. simpl. rewrite Hsw. done. }
  rewrite Hres. split; [|split].
  - intros H1 H2.
    assert (height print_img = ph) as Hh by (unfold height; apply Hshape).
    assert (width print_img = pw) as Hw.
    { unfold width. destruct Hshape as [Hl Hr].
      destruct print_img as [|row r]; [simpl in Hl; lia|].
      by apply Forall_cons in Hr as [[? _] _]. }
    destruct (cv2_resize_shape interp print_img sw sh) as (out & Hout & Hs & _);
      [lia..|].
    rewrite (TileFacts.chans_of_shape ph pw c) in Hs by done.
    by exists out.
  - intros H. apply cv2_resize_fails. lia.
  - intros Hth ->. unfold scaled_side in Hsh.
    rewrite FloatFacts.mul_one_r in Hsh. unfold F64.of_nat in Hsh.
    rewrite py_int_of_int in Hsh by lia. by injection Hsh.
Qed.

(** A 2 x 2 print for a 7 x 10 fabric at scale 0.25. *)
Lemma resize_print_truncates_witness :
  (nn (Prim2SF (F64.of_nat 7 * 0.25)) →
   (1 * P 0 ≤ V (Prim2SF (F64.of_nat 7 * 0.25)) < (1 + 1) * P 0)%Z) ∧
  (nn (Prim2SF (F64.of_nat 10 * 0.25)) →
   (2 * P 0 ≤ V (Prim2SF (F64.of_nat 10 * 0.25)) < (2 + 1) * P 0)%Z) ∧
  ((1 ≤ 1)%Z → (1 ≤ 2)%Z →
   ∃ out, resize_print (λ _ _ _ _ _ _, 0%Z)
            [[[1; 2; 3]; [4; 5; 6]]; [[7; 8; 9]; [10; 11; 12]]]%Z (7, 10) 0.25 =
            Some out ∧
          has_shape (Z.to_nat 1) (Z.to_nat 2) 3 out) ∧
  ((1 < 1 ∨ 2 < 1)%Z →
   resize_print (λ _ _ _ _ _ _, 0%Z)
     [[[1; 2; 3]; [4; 5; 6]]; [[7; 8; 9]; [10; 11; 12]]]%Z (7, 10) 0.25 = None) ∧
  ((Z.of_nat 7 < 2 ^ 53)%Z → 0.25%float = 1%float → 1%Z = Z.of_nat 7).
Proof.
  apply (resize_print_truncates (λ _ _ _ _ _ _, 0%Z)
           [[[1; 2; 3]; [4; 5; 6]]; [[7; 8; 9]; [10; 11; 12]]]%Z
           2 2 3 7 10 0.25%float 1 2); try lia.
  - split; [done|]. repeat constructor.
  - by vm_compute.
  - by vm_compute.
Defined.

(** C2 fails as stated: a target side 7 at scale 0.25 gives [int(1.75) = 1],
    not the rounded 2; a target side 1 at scale 0.5 gives 0, and the resize
    then fails. *)
Lemma scaled_side_not_rounded :
  scaled_side 7 0.25 = Some 1%Z ∧
  spec_round (F64.of_nat 7 * 0.25) = Some 2%Z ∧
  scaled_side 1 0.5 = Some 0%Z ∧
  resize_print (λ _ _ _ _ _ _, 0%Z) [[[1; 2; 3]]]%Z (1, 1) 0.5 = None.
Proof. repeat split; by vm_compute. Qed.

End ResizeFacts.

(** ** The order of binary64 values *)

Module OrderFacts.

Import Binary64 Rounding F64 F64.
Local Open Scope Z_scope.

(** The order of two positive numbers of the format. *)
Lemma SFleb_finite m1 e1 m2 e2 :
  bounded prec emax m1 e1 = true → bounded prec emax m2 e2 = true →
  (SFleb (S754_finite false m1 e1) (S754_finite false m2 e2) = true ↔
   Zpos m1 * P e1 ≤ Zpos m2 * P e2).
Proof.
  intros Hb1 Hb2.
  destruct (bounded_facts m1 e1 Hb1) as (He1 & _ & Hm1 & Hn1).
  destruct (bounded_facts m2 e2 Hb2) as (He2 & _ & Hm2 & Hn2).
  pose proof (P_pos e1 ltac:(lia)) as HP1.
  pose proof (P_pos e2 ltac:(lia)) as HP2.
  unfold SFleb, SFcompare.
  destruct (Z.compare_spec e1 e2) as [->|Hlt|Hgt].
  - rewrite Pos.compare_cont_spec. simpl.
    destruct (Pos.compare_spec m1 m2) as [->|Hc|Hc]; simpl.
    + split; [lia|done].
    + split; [|done]. intros _. nia.
    + split; [done|]. intros H. exfalso.
      assert (Zpos m2 < Zpos m1) by lia. nia.
  - split; [|done]. intros _.
    assert (P e1 * 2 ≤ P e2).
    { replace e2 with (e1 + (e2 - e1)) by lia. rewrite P_add by lia.
      pose proof (Z.pow_le_mono_r 2 1 (e2 - e1) ltac:(lia) ltac:(lia)) as Hp.
      simpl in Hp. nia. }
    destruct Hn2 as [->|Hn2]; [lia|].
    change (2 ^ 53) with (2 ^ 52 * 2) in Hm1. nia.
  - split; [done|]. intros H. exfalso.
    assert (P e2 * 2 ≤ P e1).
    { replace e1 with (e2 + (e1 - e2)) by lia. rewrite P_add by lia.
      pose proof (Z.pow_le_mono_r 2 1 (e1 - e2) ltac:(lia) ltac:(lia)) as Hp.
      simpl in Hp. nia. }
    destruct Hn1 as [->|Hn1]; [lia|].
    change (2 ^ 53) with (2 ^ 52 * 2) in Hm2. nia.
Qed.

(** The product of two positive numbers is not below a number of the format
    that the exact product reaches. *)
Lemma SFmul_ge mx ex my ey ma ea :
  bounded prec emax mx ex = true → bounded prec emax my ey = true →
  bounded prec emax ma ea = true →
  Zpos ma * P ea * P 0 ≤ (Zpos mx * P ex) * (Zpos my * P ey) →
  SFmul prec emax (S754_finite false mx ex) (S754_finite false my ey) =
    S754_infinity false ∨
  ∃ m e, SFmul prec emax (S754_finite false mx ex) (S754_finite false my ey) =
           S754_finite false m e ∧
         Zpos ma * P ea ≤ Zpos m * P e.
Proof.
  intros Hx Hy Ha Hle.
  destruct (bounded_facts mx ex Hx) as (Hex & _).
  destruct (bounded_facts my ey Hy) as (Hey & _).
  simpl SFmul.
  destruct (round_ge false (Zpos (mx * my)) (ex + ey) loc_Exact
              (Zpos (mx * my)) 1 ltac:(lia) ltac:(lia)
              (shr_record_of_loc_exact (Zpos (mx * my)) ltac:(lia))
              (mul_roundable mx ex my ey Hx Hy) ltac:(lia) ma ea Ha)
    as [Hinf|(m & e & Hr & _ & Hv)].
  - rewrite Pos2Z.inj_mul.
    assert (HP : P ex * P ey = P (ex + ey) * P 0) by (apply P_mul; lia).
    pose proof (P_pos 0 ltac:(lia)) as HP0.
    apply (Z.mul_le_mono_pos_r _ _ (P 0)); [done|].
    replace (Zpos mx * Zpos my * P (ex + ey) * P 0)
      with (Zpos mx * Zpos my * (P (ex + ey) * P 0)) by ring.
    rewrite <- HP. lia.
  - by left.
  - right. by exists m, e.
Qed.

Lemma SFltb_finite m1 e1 m2 e2 :
  bounded prec emax m1 e1 = true → bounded prec emax m2 e2 = true →
  (SFltb (S754_finite false m1 e1) (S754_finite false m2 e2) = true ↔
   Zpos m1 * P e1 < Zpos m2 * P e2).
Proof.
  intros Hb1 Hb2.
  destruct (bounded_facts m1 e1 Hb1) as (He1 & _ & Hm1 & Hn1).
  destruct (bounded_facts m2 e2 Hb2) as (He2 & _ & Hm2 & Hn2).
  pose proof (P_pos e1 ltac:(lia)) as HP1.
  pose proof (P_pos e2 ltac:(lia)) as HP2.
  unfold SFltb, SFcompare.
  destruct (Z.compare_spec e1 e2) as [->|Hlt|Hgt].
  - rewrite Pos.compare_cont_spec. simpl.
    destruct (Pos.compare_spec m1 m2) as [->|Hc|Hc]; simpl.
    + split; [done|lia].
    + split; [|done]. intros _. nia.
    + split; [done|]. intros H. exfalso.
      assert (Zpos m2 < Zpos m1) by lia. nia.
  - split; [|done]. intros _.
    assert (P e1 * 2 ≤ P e2).
    { replace e2 with (e1 + (e2 - e1)) by lia. rewrite P_add by lia.
      pose proof (Z.pow_le_mono_r 2 1 (e2 - e1) ltac:(lia) ltac:(lia)) as Hp.
      simpl in Hp. nia. }
    destruct Hn2 as [->|Hn2]; [lia|].
    change (2 ^ 53) with (2 ^ 52 * 2) in Hm1. nia.
  - split; [done|]. intros H. exfalso.
    assert (P e2 * 2 ≤ P e1).
    { replace e1 with (e2 + (e1 - e2)) by lia. rewrite P_add by lia.
      pose proof (Z.pow_le_mono_r 2 1 (e1 - e2) ltac:(lia) ltac:(lia)) as Hp.
      simpl in Hp. nia. }
    destruct Hn1 as [->|Hn1]; [lia|].
    change (2 ^ 53) with (2 ^ 52 * 2) in Hm2. nia.
Qed.

(** [float(n)] for a small natural number. *)
Lemma of_int_cases n :
  0 ≤ n < 2 ^ 53 →
  (n = 0 ∧ Prim2SF (of_int n) = S754_zero false) ∨
  ∃ m e, Prim2SF (of_int n) = S754_finite false m e ∧
         bounded prec emax m e = true ∧ Zpos m * P e = n * P 0.
Proof.
  intros Hn. destruct (Z.eq_dec n 0) as [->|Hne]; [by left|].
  right. apply FloatFacts.of_int_SF. lia.
Qed.

Lemma unit_interval_unique u v a b :
  0 < u → a * u ≤ v < (a + 1) * u → b * u ≤ v < (b + 1) * u → a = b.
Proof.
  intros Hu [Ha1 Ha2] [Hb1 Hb2].
  assert (a * u < (b + 1) * u) as H1 by lia.
  assert (b * u < (a + 1) * u) as H2 by lia.
  apply Z.mul_lt_mono_pos_r in H1; [|done].
  apply Z.mul_lt_mono_pos_r in H2; [|done]. lia.
Qed.

(** A value that the comparisons place in [[n, n + 1)] converts to [n]. *)
Lemma byte_is_astype n x : byte_is n x = true → F64.astype_uint8 x = n.
Proof.
  unfold byte_is. rewrite !andb_true_iff, !Z.leb_le.
  intros [[[Hn0 Hn255] Hlo] Hhi].
  rewrite leb_spec in Hlo. rewrite ltb_spec in Hhi.
  pose proof (Prim2SF_valid x) as Hval.
  assert (2 ^ 8 < 2 ^ 53) as Hpow by done.
  destruct (FloatFacts.of_int_SF (n + 1) ltac:(lia)) as (m1 & e1 & H1 & Hb1 & Hv1).
  rewrite H1 in Hhi.
  pose proof (P_pos 0 ltac:(lia)) as HP0.
  unfold F64.astype_uint8, F64.py_int.
  destruct (of_int_cases n ltac:(lia)) as [[-> H0]|(m0 & e0 & H0 & Hb0 & Hv0)];
    rewrite H0 in Hlo;
    destruct (Prim2SF x) as [s|s| |s m e] eqn:Hx;
    try (destruct s; simpl in Hlo, Hhi; done); try done.
  - destruct s; [simpl in Hlo, Hhi; done|]. simpl in Hval.
    apply SFltb_finite in Hhi; [|done|done].
    destruct (F64.trunc_SF (S754_finite false m e)) as [z|] eqn:Hz; [|done].
    pose proof (ResizeFacts.trunc_SF_floor (S754_finite false m e) z Hval Hz)
      as Hfl. simpl in Hfl.
    pose proof (V_pos m e Hval) as Hpos. simpl in Hpos.
    assert (z = 0) as -> by (apply (unit_interval_unique (P 0) (Zpos m * P e)); lia).
    done.
  - destruct s; [simpl in Hlo, Hhi; done|]. simpl in Hval.
    apply SFltb_finite in Hhi; [|done|done].
    apply SFleb_finite in Hlo; [|done|done].
    destruct (F64.trunc_SF (S754_finite false m e)) as [z|] eqn:Hz; [|done].
    pose proof (ResizeFacts.trunc_SF_floor (S754_finite false m e) z Hval Hz)
      as Hfl. simpl in Hfl.
    assert (z = n) as -> by (apply (unit_interval_unique (P 0) (Zpos m * P e)); lia).
    apply Z.mod_small. lia.
Qed.

End OrderFacts.

(** ** [generate_fusion] *)

Module FusionFacts.

Import Tile Blend Resize Fusion.

(** *** The tiled print *)

Lemma width_of_shape {A} h w c (r : array3 A) :
  has_shape h w c r → 0 < h → width r = w.
Proof.
  intros [Hl Hr] Hh. unfold width.
  destruct r as [|row r]; [simpl in Hl; lia|].
  by apply Forall_cons in Hr as [[? _] _].
Qed.

(** What [tile_print] returns, without the canvas. *)
Lemma tile_print_tiled (print_img : raster) (ph pw c h w : nat) :
  has_shape ph pw c print_img → 0 < ph → 0 < pw → c = 3 ∨ c = 4 →
  1 ≤ h → 1 ≤ w →
  small_side ph → small_side pw → small_side h → small_side w →
  ∃ out, tile_print print_img (h, w) = Some out ∧ has_shape h w c out ∧
         ∀ y x, y < h → x < w →
           pixel_at out y x = pixel_at print_img (y mod ph) (x mod pw).
Proof.
  intros Hprint Hph Hpw Hc Hh Hw Sph Spw Sh Sw.
  assert (Hheight : height print_img = ph) by apply Hprint.
  assert (Hwidth : width print_img = pw) by by apply (width_of_shape ph pw c).
  assert (Hchans : chans print_img = c)
    by (apply (TileFacts.chans_of_shape ph pw); done).
  set (th := ceil_div h ph). set (tw := ceil_div w pw).
  set (cv0 := if chans print_img =? 4 then zeros (th * ph) (tw * pw) 4
              else zeros (th * ph) (tw * pw) 3).
  assert (Hcv0 : has_shape (th * ph) (tw * pw) c cv0).
  { unfold cv0. rewrite Hchans.
    destruct Hc as [-> | ->]; simpl; apply TileFacts.zeros_shape. }
  destruct (TileFacts.tile_loop_spec print_img ph pw c (th * ph) (tw * pw)
              Hprint Hph Hpw th tw cv0 Hcv0) as [Hshape Hpix].
  set (canvas := tile_loop print_img ph pw th tw cv0) in *.
  assert (Hcanvas : tile_canvas print_img (h, w) = Some canvas).
  { unfold tile_canvas. rewrite Hheight, Hwidth.
    rewrite (TileFacts.tiles_needed_exact h ph),
            (TileFacts.tiles_needed_exact w pw) by (done || lia).
    done. }
  pose proof (TileFacts.ceil_div_covers h ph Hph) as Hch.
  pose proof (TileFacts.ceil_div_covers w pw Hpw) as Hcw.
  fold th in Hch. fold tw in Hcw.
  exists (crop h w canvas).
  split; [unfold tile_print; by rewrite Hcanvas|].
  split; [by apply (TileFacts.crop_shape (th * ph) (tw * pw))|].
  intros y x Hy Hx. rewrite TileFacts.crop_pixel by done.
  rewrite Hpix by lia.
  assert (y / ph < th) by (apply Nat.Div0.div_lt_upper_bound; lia).
  assert (x / pw < tw) by (apply Nat.Div0.div_lt_upper_bound; lia).
  by rewrite (proj2 (Nat.ltb_lt _ _)), (proj2 (Nat.ltb_lt _ _)).
Qed.

(** X1. A print that already has the fabric's size is returned as it is. *)
Theorem tile_print_same_size (print_img : raster) (h w c : nat) :
  has_shape h w c print_img → 1 ≤ h → 1 ≤ w → c = 3 ∨ c = 4 →
  small_side h → small_side w →
  tile_print print_img (h, w) = Some print_img.
Proof.
  intros Hs Hh Hw Hc Sh Sw.
  destruct (tile_print_tiled print_img h w c h w) as (out & Hout & Hshape & Hpx);
    try done.
  rewrite Hout. f_equal. apply (TileFacts.array_ext h w c); [done|done|].
  intros y x Hy Hx. rewrite Hpx by done. by rewrite !Nat.mod_small.
Qed.

Lemma tile_print_same_size_witness :
  tile_print [[[1; 2; 3; 255]; [4; 5; 6; 0]]]%Z (1, 2) =
  Some [[[1; 2; 3; 255]; [4; 5; 6; 0]]]%Z.
Proof.
  apply (tile_print_same_size [[[1; 2; 3; 255]; [4; 5; 6; 0]]]%Z 1 2 4);
    try lia; try (unfold small_side; simpl; lia).
  - split; [done|]. repeat constructor.
Defined.

(** *** The whole pipeline *)

Lemma astype_uint8_byte x : is_uint8 (F64.astype_uint8 x).
Proof.
  unfold F64.astype_uint8, is_uint8. destruct (F64.py_int x) as [z|]; [|lia].
  pose proof (Z.mod_pos_bound z 256 ltac:(lia)). lia.
Qed.

Lemma pointwise_all {C} (Q : list C → Prop) (K : pixel → pixel → list C)
    (a b : raster) :
  (∀ fp pp, Q (K fp pp)) → Forall (Forall Q) (pointwise K a b).
Proof.
  intros HK. unfold pointwise. apply Forall_forall. intros row Hrow.
  apply elem_of_lookup_zip_with in Hrow as (i & ra & rb & -> & _ & _).
  apply Forall_forall. intros px Hpx.
  apply elem_of_lookup_zip_with in Hpx as (j & pa & pb & -> & _ & _).
  apply HK.
Qed.

Lemma blend_px_bytes blend_mode opacity fp pp :
  Forall is_uint8 (blend_px blend_mode opacity fp pp).
Proof.
  unfold blend_px. apply Forall_fmap, Forall_forall. intros v _.
  apply astype_uint8_byte.
Qed.

Lemma height_of_shape {A} h w c (r : array3 A) : has_shape h w c r → height r = h.
Proof. by intros [? _]. Qed.

(** The blend of two grids of one size has three 8-bit channels. *)
Lemma blend_px_grid h w c (fabric tiled : raster) blend_mode opacity :
  has_shape h w 3 fabric → has_shape h w c tiled → c = 3 ∨ c = 4 →
  has_shape h w 3 (pointwise (blend_px blend_mode opacity) fabric tiled) ∧
  uint8_raster (pointwise (blend_px blend_mode opacity) fabric tiled).
Proof.
  intros Hf Ht Hc. split.
  - apply (BlendFacts.pointwise_shape c 3 h w); [done|done|].
    intros fp pp [Hlf Hlp].
    repeat (destruct fp as [|? fp]; simpl in Hlf; try lia).
    destruct Hc as [-> | ->];
      repeat (destruct pp as [|? pp]; simpl in Hlp; try lia); done.
  - apply pointwise_all. intros fp pp. apply blend_px_bytes.
Qed.

Section Pipeline.

Variable interp : raster → nat → nat → nat → nat → nat → Z.
Variables (fabric_img print_img : raster) (h w ph pw c : nat).
Variables (blend_mode : string) (opacity scale : float).

Hypothesis Hfabric : has_shape h w 3 fabric_img.
Hypothesis Hh : 1 ≤ h.
Hypothesis Hw : 1 ≤ w.
Hypothesis Sh : small_side h.
Hypothesis Sw : small_side w.
Hypothesis Hprint : has_shape ph pw c print_img.
Hypothesis Hph : 0 < ph.
Hypothesis Hpw : 0 < pw.
Hypothesis Hc : c = 3 ∨ c = 4.

Lemma resize_print_sides (zh zw : Z) :
  scaled_side h scale = Some zh → scaled_side w scale = Some zw →
  resize_print interp print_img (height fabric_img, width fabric_img) scale =
  cv2_resize interp print_img zw zh.
Proof.
  intros Hzh Hzw. rewrite (height_of_shape h w 3), (width_of_shape h w 3) by done.
  unfold resize_print. rewrite Hzh. simpl. by rewrite Hzw.
Qed.

(** The three steps, when both scaled sides are positive. *)
Lemma generate_fusion_steps (sh sw : nat) :
  scaled_side h scale = Some (Z.of_nat sh) →
  scaled_side w scale = Some (Z.of_nat sw) →
  1 ≤ sh → 1 ≤ sw → small_side sh → small_side sw →
  ∃ resized tiled,
    resize_print interp print_img (h, w) scale = Some resized ∧
    has_shape sh sw c resized ∧
    (∀ y x k, y < sh → x < sw → k < c →
       pixel_at resized y x ≫= (.!! k) = Some (interp print_img sh sw y x k)) ∧
    tile_print resized (h, w) = Some tiled ∧
    has_shape h w c tiled ∧
    (∀ y x, y < h → x < w →
       pixel_at tiled y x = pixel_at resized (y mod sh) (x mod sw)) ∧
    generate_fusion interp fabric_img print_img blend_mode opacity scale =
      Some (pointwise (blend_px blend_mode opacity) fabric_img tiled).
Proof.
  intros Hzh Hzw Hsh Hsw Ssh Ssw.
  pose proof (resize_print_sides _ _ Hzh Hzw) as Hres.
  rewrite (height_of_shape h w 3), (width_of_shape h w 3) in Hres by done.
  assert (chans print_img = c) as Hch
    by (apply (TileFacts.chans_of_shape ph pw); done).
  destruct (ResizeFacts.cv2_resize_shape interp print_img
              (Z.of_nat sw) (Z.of_nat sh)) as (resized & Hrz & Hshape & Hval).
  { lia. } { lia. }
  { rewrite (height_of_shape ph pw c); done. }
  { rewrite (width_of_shape ph pw c); done. }
  rewrite !Nat2Z.id, Hch in Hshape, Hval.
  destruct (tile_print_tiled resized sh sw c h w) as (tiled & Htl & Hts & Htp);
    try done.
  exists resized, tiled.
  split; [by rewrite Hres|]. split; [done|]. split; [done|].
  split; [done|]. split; [done|]. split; [done|].
  unfold generate_fusion.
  rewrite (height_of_shape h w 3), (width_of_shape h w 3) by done.
  rewrite Hres, Hrz. simpl. rewrite Htl. simpl.
  apply (BlendFacts.blend_images_pointwise h w fabric_img tiled Hh Hw Hfabric c);
    done.
Qed.

End Pipeline.

(** X2. The fusion pipeline, when both scaled sides are at least 1: the print
    is resampled to [sh x sw], repeated over the fabric's [h x w] grid, and
    blended pixel by pixel; the result has the fabric's size, three channels
    and 8-bit values, and its pixel [(y, x)] is the blend of the fabric's
    pixel with the resampled print's pixel [(y mod sh, x mod sw)]. *)
Theorem generate_fusion_tiles
    (interp : raster → nat → nat → nat → nat → nat → Z)
    (fabric_img print_img : raster) (h w ph pw c sh sw : nat)
    (blend_mode : string) (opacity scale : float) :
  has_shape h w 3 fabric_img → 1 ≤ h → 1 ≤ w → small_side h → small_side w →
  has_shape ph pw c print_img → 0 < ph → 0 < pw → c = 3 ∨ c = 4 →
  scaled_side h scale = Some (Z.of_nat sh) →
  scaled_side w scale = Some (Z.of_nat sw) →
  1 ≤ sh → 1 ≤ sw → small_side sh → small_side sw →
  ∃ resized out,
    resize_print interp print_img (h, w) scale = Some resized ∧
    has_shape sh sw c resized ∧
    generate_fusion interp fabric_img print_img blend_mode opacity scale =
      Some out ∧
    has_shape h w 3 out ∧ uint8_raster out ∧
    ∀ y x, y < h → x < w →
      ∃ fpx ppx, pixel_at fabric_img y x = Some fpx ∧
                 pixel_at resized (y mod sh) (x mod sw) = Some ppx ∧
                 pixel_at out y x = Some (blend_px blend_mode opacity fpx ppx).
Proof.
  intros Hf Hh Hw Sh Sw Hp Hph Hpw Hc Hzh Hzw Hsh Hsw Ssh Ssw.
  destruct (generate_fusion_steps interp fabric_img print_img h w ph pw c
              blend_mode opacity scale Hf Hh Hw Sh Sw Hp Hph Hpw Hc sh sw)
    as (resized & tiled & Hres & Hrs & _ & Htl & Hts & Htp & Hgen); try done.
  exists resized, (pointwise (blend_px blend_mode opacity) fabric_img tiled).
  split; [done|]. split; [done|]. split; [done|].
  destruct (blend_px_grid h w c fabric_img tiled blend_mode opacity Hf Hts Hc)
    as [Hos Hou].
  split; [done|]. split; [done|].
  intros y x Hy Hx.
  destruct (TileFacts.has_shape_pixel h w 3 fabric_img y x Hf Hy Hx)
    as (fpx & Hfpx & _).
  destruct (TileFacts.has_shape_pixel h w c tiled y x Hts Hy Hx)
    as (ppx & Hppx & _).
  exists fpx, ppx. split; [done|]. split; [by rewrite <- Htp|].
  unfold pointwise, pixel_at in *.
  rewrite lookup_zip_with.
  destruct (fabric_img !! y) as [frow|]; [|done].
  destruct (tiled !! y) as [trow|]; [|done]. simpl in *.
  rewrite lookup_zip_with. by rewrite Hfpx, Hppx.
Qed.

(** A 1 x 1 print resampled to 1 x 2 and repeated over a 2 x 5 fabric. *)
Lemma generate_fusion_tiles_witness :
  ∃ resized out,
    resize_print (λ _ _ _ y x k, Z.of_nat (10 * x + k)) [[[1; 2; 3]]]%Z
      (2, 5) 0.5 = Some resized ∧
    has_shape 1 2 3 resized ∧
    generate_fusion (λ _ _ _ y x k, Z.of_nat (10 * x + k))
      (replicate 2 (replicate 5 [9; 90; 255]%Z)) [[[1; 2; 3]]]%Z
      "multiply" 0.5 0.5 = Some out ∧
    has_shape 2 5 3 out ∧ uint8_raster out ∧
    ∀ y x, y < 2 → x < 5 →
      ∃ fpx ppx,
        pixel_at (replicate 2 (replicate 5 [9; 90; 255]%Z)) y x = Some fpx ∧
        pixel_at resized (y mod 1) (x mod 2) = Some ppx ∧
        pixel_at out y x = Some (blend_px "multiply" 0.5 fpx ppx).
Proof.
  apply (generate_fusion_tiles (λ _ _ _ y x k, Z.of_nat (10 * x + k))
           (replicate 2 (replicate 5 [9; 90; 255]%Z)) [[[1; 2; 3]]]%Z
           2 5 1 1 3 1 2 "multiply" 0.5%float 0.5%float);
    try lia; try (unfold small_side; simpl; lia); try (by vm_compute).
  - split; [done|]. simpl. repeat constructor.
  - split; [done|]. repeat constructor.
Defined.



Lemma scaled_side_one (n : nat) :
  (Z.of_nat n < 2 ^ 53)%Z → scaled_side n 1 = Some (Z.of_nat n).
Proof.
  intros Hn. unfold scaled_side. rewrite FloatFacts.mul_one_r.
  unfold F64.of_nat. apply ResizeFacts.py_int_of_int. lia.
Qed.

Lemma small_side_53 n : small_side n → (Z.of_nat n < 2 ^ 53)%Z.
Proof.
  unfold small_side. intros H.
  assert (2 ^ 26 < 2 ^ 53)%Z by (by apply Z.pow_lt_mono_r). lia.
Qed.

(** X4. At scale 1 the print is resampled to the fabric's size, the tiling
    step returns it unchanged, and the fusion is the blend of the fabric with
    the resampled print. *)
Theorem generate_fusion_scale_1
    (interp : raster → nat → nat → nat → nat → nat → Z)
    (fabric_img print_img : raster) (h w ph pw c : nat)
    (blend_mode : string) (opacity : float) :
  has_shape h w 3 fabric_img → 1 ≤ h → 1 ≤ w → small_side h → small_side w →
  has_shape ph pw c print_img → 0 < ph → 0 < pw → c = 3 ∨ c = 4 →
  ∃ resized,
    resize_print interp print_img (h, w) 1 = Some resized ∧
    has_shape h w c resized ∧
    tile_print resized (h, w) = Some resized ∧
    generate_fusion interp fabric_img print_img blend_mode opacity 1 =
      blend_images fabric_img resized blend_mode opacity.
Proof.
  intros Hf Hh Hw Sh Sw Hp Hph Hpw Hc.
  destruct (generate_fusion_steps interp fabric_img print_img h w ph pw c
              blend_mode opacity 1 Hf Hh Hw Sh Sw Hp Hph Hpw Hc h w)
    as (resized & tiled & Hres & Hrs & _ & Htl & Hts & Htp & Hgen);
    try done; try (apply scaled_side_one, small_side_53; done).
  assert (tiled = resized) as ->.
  { apply (TileFacts.array_ext h w c); [done|done|].
    intros y x Hy Hx. rewrite Htp by done. by rewrite !Nat.mod_small. }
  exists resized. split; [done|]. split; [done|]. split; [done|].
  rewrite Hgen. symmetry.
  apply (BlendFacts.blend_images_pointwise h w fabric_img resized Hh Hw Hf c);
    done.
Qed.

Lemma generate_fusion_scale_1_witness :
  ∃ resized,
    resize_print (λ _ _ _ y x k, Z.of_nat (y + x + k)) [[[1; 2; 3]]]%Z (2, 3) 1 =
      Some resized ∧
    has_shape 2 3 3 resized ∧
    tile_print resized (2, 3) = Some resized ∧
    generate_fusion (λ _ _ _ y x k, Z.of_nat (y + x + k))
      (replicate 2 (replicate 3 [9; 9; 9]%Z)) [[[1; 2; 3]]]%Z "screen" 0.5 1 =
      blend_images (replicate 2 (replicate 3 [9; 9; 9]%Z)) resized "screen" 0.5.
Proof.
  apply (generate_fusion_scale_1 (λ _ _ _ y x k, Z.of_nat (y + x + k))
           (replicate 2 (replicate 3 [9; 9; 9]%Z)) [[[1; 2; 3]]]%Z
           2 3 1 1 3 "screen" 0.5%float);
    try lia; try (unfold small_side; simpl; lia).
  - split; [done|]. repeat constructor.
  - split; [done|]. repeat constructor.
Defined.

(** *** Opacity 0 *)






(** *** The range of the scale control *)

Section Order.

Import Binary64 Rounding OrderFacts.
Local Open Scope Z_scope.

(** A scale between 0.2 and 2, the ends of the control. *)
Lemma slider_scale (scale : float) :
  (0.2 <=? scale)%float = true → (scale <=? 2)%float = true →
  ∃ m e, Prim2SF scale = S754_finite false m e ∧
         bounded prec emax m e = true ∧
         P 0 ≤ 5 * (Zpos m * P e) ∧ Zpos m * P e ≤ 2 * P 0.
Proof.
  rewrite !leb_spec. pose proof (Prim2SF_valid scale) as Hval.
  change (Prim2SF 0.2) with (S754_finite false 7205759403792794 (-55)).
  change (Prim2SF 2) with (S754_finite false 4503599627370496 (-51)).
  destruct (Prim2SF scale) as [s|s| |s m e]; try done.
  - by destruct s.
  - destruct s; [done|]. simpl in Hval. intros Hlo Hhi.
    apply SFleb_finite in Hlo; [|done|done].
    apply SFleb_finite in Hhi; [|done|done].
    exists m, e. split; [done|]. split; [done|].
    assert (P 0 = 2 ^ 55 * P (-55)) as H0 by (unfold P; by rewrite <- Z.pow_add_r).
    assert (P (-51) = 2 ^ 4 * P (-55)) as H1 by (unfold P; by rewrite <- Z.pow_add_r).
    pose proof (P_pos (-55) ltac:(lia)) as HP.
    rewrite H1 in Hhi. rewrite H0. split; lia.
Qed.

(** The scaled side of a fabric side of at least 5 pixels. *)
Lemma scaled_side_slider (th : nat) (scale : float) :
  (5 ≤ th)%nat → Z.of_nat th < 2 ^ 25 →
  (0.2 <=? scale)%float = true → (scale <=? 2)%float = true →
  ∃ sh : nat, scaled_side th scale = Some (Z.of_nat sh) ∧
              (1 ≤ sh ≤ 2 * th)%nat.
Proof.
  intros H5 Hth Hlo Hhi.
  destruct (slider_scale scale Hlo Hhi) as (m & e & Hs & Hb & Hl & Hu).
  assert (2 ^ 25 * 2 ^ 28 = 2 ^ 53) as Hpow by done.
  destruct (FloatFacts.of_int_SF (Z.of_nat th) ltac:(lia))
    as (m1 & e1 & H1 & Hb1 & Hv1).
  destruct (FloatFacts.of_int_SF (2 * Z.of_nat th) ltac:(lia))
    as (m2 & e2 & H2 & Hb2 & Hv2).
  pose proof (P_pos 0 ltac:(lia)) as HP0.
  pose proof (Prim2SF_valid (F64.of_nat th * scale)%float) as Hval.
  unfold scaled_side, F64.py_int.
  rewrite FloatAxioms.mul_spec in *. unfold F64.of_nat in *.
  rewrite H1, Hs in *.
  destruct (SFmul_le (S754_finite false m1 e1) (S754_finite false m e)
              (S754_finite false m2 e2)) as [Hnn Hle]; try done.
  { simpl. rewrite Hv1, Hv2. nia. }
  destruct (SFmul_ge m1 e1 m e (2 ^ 52) (-52)) as [Hinf|(m' & e' & Hr & Hge)];
    try done.
  { rewrite Hv1. change (Zpos (2 ^ 52) * P (-52)) with (P 0). nia. }
  { unfold SF64mul in *. by rewrite Hinf in Hnn. }
  unfold SF64mul in *. rewrite Hr in *. simpl in Hle, Hval.
  change (Zpos (2 ^ 52) * P (-52)) with (P 0) in Hge.
  destruct (F64.trunc_SF (S754_finite false m' e')) as [z|] eqn:Hz; [|done].
  pose proof (ResizeFacts.trunc_SF_floor (S754_finite false m' e') z Hval Hz)
    as Hfl. simpl in Hfl.
  exists (Z.to_nat z).
  assert (1 ≤ z ≤ 2 * Z.of_nat th) by nia.
  split; [f_equal; lia|lia].
Qed.

End Order.

(** X6. The scale control delivers values from 0.2 to 2.0.  For every such
    scale and every fabric with sides of at least 5 pixels (below 2^25), each
    scaled side lies between 1 and twice the fabric's side, so the fusion
    returns a raster of the fabric's size with three 8-bit channels. *)
Theorem generate_fusion_slider_range
    (interp : raster → nat → nat → nat → nat → nat → Z)
    (fabric_img print_img : raster) (h w ph pw c : nat)
    (blend_mode : string) (opacity scale : float) :
  has_shape h w 3 fabric_img → 5 ≤ h → 5 ≤ w →
  (Z.of_nat h < 2 ^ 25)%Z → (Z.of_nat w < 2 ^ 25)%Z →
  has_shape ph pw c print_img → 0 < ph → 0 < pw → c = 3 ∨ c = 4 →
  (0.2 <=? scale)%float = true → (scale <=? 2)%float = true →
  ∃ sh sw out,
    scaled_side h scale = Some (Z.of_nat sh) ∧ 1 ≤ sh ≤ 2 * h ∧
    scaled_side w scale = Some (Z.of_nat sw) ∧ 1 ≤ sw ≤ 2 * w ∧
    generate_fusion interp fabric_img print_img blend_mode opacity scale =
      Some out ∧
    has_shape h w 3 out ∧ uint8_raster out.
Proof.
  intros Hf Hh Hw Bh Bw Hp Hph Hpw Hc Hlo Hhi.
  destruct (scaled_side_slider h scale Hh Bh Hlo Hhi) as (sh & Hzh & Hsh).
  destruct (scaled_side_slider w scale Hw Bw Hlo Hhi) as (sw & Hzw & Hsw).
  assert (2 ^ 25 * 2 = 2 ^ 26)%Z as Hpow by done.
  destruct (generate_fusion_steps interp fabric_img print_img h w ph pw c
              blend_mode opacity scale Hf ltac:(lia) ltac:(lia)
              ltac:(unfold small_side; lia) ltac:(unfold small_side; lia)
              Hp Hph Hpw Hc sh sw)
    as (resized & tiled & _ & _ & _ & _ & Hts & _ & Hgen);
    try done; try lia; try (unfold small_side; lia).
  destruct (blend_px_grid h w c fabric_img tiled blend_mode opacity Hf Hts Hc)
    as [Hos Hou].
  exists sh, sw, (pointwise (blend_px blend_mode opacity) fabric_img tiled).
  done.
Qed.

(** A 5 x 6 fabric at the lower end of the control. *)
Lemma generate_fusion_slider_range_witness :
  ∃ sh sw out,
    scaled_side 5 0.2 = Some (Z.of_nat sh) ∧ 1 ≤ sh ≤ 2 * 5 ∧
    scaled_side 6 0.2 = Some (Z.of_nat sw) ∧ 1 ≤ sw ≤ 2 * 6 ∧
    generate_fusion (λ _ _ _ _ _ _, 7%Z) (replicate 5 (replicate 6 [9; 90; 255]%Z))
      [[[1; 2; 3]]]%Z "overlay" 0.7 0.2 = Some out ∧
    has_shape 5 6 3 out ∧ uint8_raster out.
Proof.
  apply (generate_fusion_slider_range (λ _ _ _ _ _ _, 7%Z)
           (replicate 5 (replicate 6 [9; 90; 255]%Z)) [[[1; 2; 3]]]%Z
           5 6 1 1 3 "overlay" 0.7%float 0.2%float);
    try lia; try (by vm_compute).
  - split; [done|]. simpl. repeat constructor.
  - split; [done|]. repeat constructor.
Defined.

End FusionFacts.

(** ** The three blend modes at full opacity *)

Module BlendModeFacts.

Import Blend BlendFacts.

(** *** A check on all pairs of 8-bit values *)

Lemma blended_bytes_spec f p m o s :
  blended_bytes f p = Some (m, o, s) →
  blended_byte "multiply" f p = m ∧ blended_byte "overlay" f p = o ∧
  blended_byte "screen" f p = s.
Proof.
  unfold blended_bytes, blended_byte. cbv zeta. intros H.
  destruct (F64.byte_is _ _) eqn:Hm in H; [|done].
  destruct (F64.byte_is _ _) eqn:Ho in H; [|done].
  destruct (F64.byte_is _ _) eqn:Hs in H; [|done].
  simpl in H. injection H as <- <- <-.
  by rewrite (OrderFacts.byte_is_astype _ _ Hm),
             (OrderFacts.byte_is_astype _ _ Ho),
             (OrderFacts.byte_is_astype _ _ Hs).
Qed.

Lemma modes_check_spec t :
  modes_check t = true →
  ∀ f p, is_uint8 f → is_uint8 p →
    t f p (blended_byte "multiply" f p) (blended_byte "overlay" f p)
          (blended_byte "screen" f p) = true.
Proof.
  unfold modes_check, all_bytes2. rewrite forallb_forall. intros Hall f p Hf Hp.
  specialize (Hall f (proj1 (list_elem_of_In _ _) (bytes_complete f Hf))).
  rewrite forallb_forall in Hall.
  specialize (Hall p (proj1 (list_elem_of_In _ _) (bytes_complete p Hp))).
  simpl in Hall.
  destruct (blended_bytes f p) as [[[m o] s]|] eqn:Hb; [|done].
  by destruct (blended_bytes_spec f p m o s Hb) as (-> & -> & ->).
Qed.

Lemma mode_facts_ok : modes_check mode_facts = true.
Proof. vm_cast_no_check (eq_refl true). Qed.

(** The facts of the check, for one pair of channels. *)
Lemma mode_facts_spec f p :
  is_uint8 f → is_uint8 p →
  let m := blended_byte "multiply" f p in
  let o := blended_byte "overlay" f p in
  let s := blended_byte "screen" f p in
  (m ≤ Z.min f p ∧ Z.max f p - 1 ≤ s ∧ m ≤ o ∧ o ≤ s ∧
   (p = 255 → m = f ∧ s = 255) ∧ (p = 0 → m = 0) ∧
   (f = 0 → o = 0) ∧ (f = 255 → o = 255))%Z.
Proof.
  intros Hf Hp m o s.
  pose proof (modes_check_spec mode_facts mode_facts_ok f p Hf Hp) as H.
  fold m o s in H. unfold mode_facts in H.
  rewrite !andb_true_iff, !Z.leb_le in H.
  destruct H as (((((((H1 & H2) & H3) & H4) & H5) & H6) & H7) & H8).
  split; [done|]. split; [done|]. split; [done|]. split; [done|].
  split.
  { intros ->. rewrite Z.eqb_refl in H5. simpl in H5.
    apply andb_true_iff in H5 as [? ?]. split; by apply Z.eqb_eq. }
  split.
  { intros ->. rewrite Z.eqb_refl in H6. simpl in H6. by apply Z.eqb_eq. }
  split.
  { intros ->. rewrite Z.eqb_refl in H7. simpl in H7. by apply Z.eqb_eq. }
  intros ->. rewrite Z.eqb_refl in H8. simpl in H8. by apply Z.eqb_eq.
Qed.

(** *** From channels to rasters *)

Lemma Forall2_zip_with_both {A B C} (Q : A → B → Prop) (R : C → C → Prop)
    (g1 g2 : A → B → C) l k :
  Forall2 Q l k → (∀ a b, Q a b → R (g1 a b) (g2 a b)) →
  Forall2 R (zip_with g1 l k) (zip_with g2 l k).
Proof. induction 1; intros HR; simpl; constructor; auto. Qed.

Lemma px_bytes_channels fp pp :
  px_bytes 3 fp pp → Forall2 (λ f p, is_uint8 f ∧ is_uint8 p) fp pp.
Proof.
  revert fp pp. px_bytes_cases.
  repeat (constructor; [done|]). constructor.
Qed.

Lemma solid_shape h w (px : pixel) : has_shape h w (length px) (solid h w px).
Proof.
  unfold solid. split; [by rewrite length_replicate|].
  apply Forall_replicate. split; [by rewrite length_replicate|].
  by apply Forall_replicate.
Qed.

Lemma solid_all (Q : pixel → Prop) h w px : Q px → Forall (Forall Q) (solid h w px).
Proof. intros HQ. unfold solid. by apply Forall_replicate, Forall_replicate. Qed.

Section Grid.

Variables (h w : nat) (fabric print_img : raster).
Hypothesis Hh : 0 < h.
Hypothesis Hw : 0 < w.
Hypothesis Hfabric : has_shape h w 3 fabric.
Hypothesis Hprint : has_shape h w 3 print_img.
Hypothesis Ufabric : uint8_raster fabric.
Hypothesis Uprint : uint8_raster print_img.

Lemma channelwise_zip (R : Z → Z → Prop) (g1 g2 : Z → Z → Z) :
  (∀ f p, is_uint8 f → is_uint8 p → R (g1 f p) (g2 f p)) →
  channelwise R (zip_with (zip_with (zip_with g1)) fabric print_img)
                (zip_with (zip_with (zip_with g2)) fabric print_img).
Proof.
  intros HR.
  pose proof (same_grid_of_shape h w 3 _ _ Hfabric Hprint) as Hg.
  pose proof (byte_grid 3 (λ _, True) _ _ Hg Ufabric Uprint
                (Forall_Forall_True _)) as Hb.
  unfold channelwise.
  eapply Forall2_zip_with_both; [exact Hb|]. intros frow prow Hrow. simpl in *.
  eapply Forall2_zip_with_both; [exact Hrow|]. intros fp pp [Hpx _].
  eapply Forall2_zip_with_both; [exact (px_bytes_channels _ _ Hpx)|].
  intros f p [Hf Hp]. by apply HR.
Qed.

Lemma zip3_fst :
  zip_with (zip_with (zip_with (λ f _ : Z, f))) fabric print_img = fabric.
Proof.
  pose proof (same_grid_of_shape h w 3 _ _ Hfabric Hprint) as Hg.
  transitivity (pointwise (λ fp _ : pixel, fp) fabric print_img);
    [|by apply (pointwise_fst 3)].
  change (zip_with (zip_with (zip_with (λ f _ : Z, f))) fabric print_img)
    with (pointwise (zip_with (λ f _ : Z, f)) fabric print_img).
  apply (pointwise_ext 3); [done|]. px_cases. reflexivity.
Qed.

Lemma zip3_snd :
  zip_with (zip_with (zip_with (λ _ p : Z, p))) fabric print_img = print_img.
Proof.
  pose proof (same_grid_of_shape h w 3 _ _ Hfabric Hprint) as Hg.
  transitivity (pointwise (λ _ pp : pixel, pp) fabric print_img);
    [|symmetry; by apply (print_pointwise 3)].
  change (zip_with (zip_with (zip_with (λ _ p : Z, p))) fabric print_img)
    with (pointwise (zip_with (λ _ p : Z, p)) fabric print_img).
  apply (pointwise_ext 3); [done|]. px_cases. reflexivity.
Qed.

(** The output at full opacity, channel by channel. *)
Lemma blend_images_full blend_mode :
  blend_images fabric print_img blend_mode 1 =
  Some (zip_with (zip_with (zip_with (blended_byte blend_mode)))
          fabric print_img).
Proof.
  pose proof (same_grid_of_shape h w 3 _ _ Hfabric Hprint) as Hg.
  rewrite (blend_images_rgb h w) by done. f_equal.
  change (zip_with (zip_with (zip_with (blend_ch blend_mode 1))) fabric print_img)
    with (pointwise (zip_with (blend_ch blend_mode 1)) fabric print_img).
  change (zip_with (zip_with (zip_with (blended_byte blend_mode))) fabric print_img)
    with (pointwise (zip_with (blended_byte blend_mode)) fabric print_img).
  apply (pointwise_ext_bytes 3); [done..|].
  px_bytes_cases. simpl. by rewrite !blend_ch_opacity_1.
Qed.

Lemma channelwise_fabric (R : Z → Z → Prop) (g : Z → Z → Z) :
  (∀ f p, is_uint8 f → is_uint8 p → R (g f p) f) →
  channelwise R (zip_with (zip_with (zip_with g)) fabric print_img) fabric.
Proof.
  intros HR. pose proof (channelwise_zip R g (λ f _, f) HR) as H.
  by rewrite zip3_fst in H.
Qed.

Lemma channelwise_print (R : Z → Z → Prop) (g : Z → Z → Z) :
  (∀ f p, is_uint8 f → is_uint8 p → R (g f p) p) →
  channelwise R (zip_with (zip_with (zip_with g)) fabric print_img) print_img.
Proof.
  intros HR. pose proof (channelwise_zip R g (λ _ p, p) HR) as H.
  by rewrite zip3_snd in H.
Qed.

End Grid.

(** The output at full opacity under a print of one colour. *)
Lemma blend_images_solid h w (fabric : raster) (v : Z) blend_mode
    (K : pixel → pixel) :
  0 < h → 0 < w → has_shape h w 3 fabric → uint8_raster fabric → is_uint8 v →
  (∀ f0 f1 f2, is_uint8 f0 → is_uint8 f1 → is_uint8 f2 →
     [blended_byte blend_mode f0 v; blended_byte blend_mode f1 v;
      blended_byte blend_mode f2 v] = K [f0; f1; f2]) →
  blend_images fabric (solid h w [v; v; v]) blend_mode 1 =
  Some (pointwise (λ fp _, K fp) fabric (solid h w [v; v; v])).
Proof.
  intros Hh Hw Hf Uf Hv HK.
  pose proof (solid_shape h w [v; v; v]) as Hs. simpl in Hs.
  assert (uint8_raster (solid h w [v; v; v])) as Us
    by (apply solid_all; repeat (constructor; [done|]); constructor).
  pose proof (same_grid_of_shape h w 3 _ _ Hf Hs) as Hg.
  rewrite (blend_images_full h w fabric _ Hh Hw Hf Hs Uf Us). f_equal.
  change (zip_with (zip_with (zip_with (blended_byte blend_mode))) fabric
            (solid h w [v; v; v]))
    with (pointwise (zip_with (blended_byte blend_mode)) fabric
            (solid h w [v; v; v])).
  apply (pointwise_ext_where 3 (λ px, px = [v; v; v])); [done..| |].
  { by apply solid_all. }
  px_bytes_cases. intros [= -> -> ->]. simpl. by apply HK.
Qed.

Lemma pointwise_solid_print h w (fabric : raster) (px : pixel) :
  has_shape h w 3 fabric → length px = 3 →
  pointwise (λ _ _, px) fabric (solid h w px) = solid h w px.
Proof.
  intros Hf Hpx. pose proof (solid_shape h w px) as Hs. rewrite Hpx in Hs.
  assert (Forall (Forall (λ pp, pp = px)) (solid h w px)) as Hall
    by by apply solid_all.
  remember (solid h w px) as print_img eqn:Heq. clear Heq.
  pose proof (same_grid_of_shape h w 3 _ _ Hf Hs) as Hg.
  transitivity (pointwise (λ _ pp : pixel, pp) fabric print_img);
    [|symmetry; by apply (print_pointwise 3)].
  unfold pointwise. clear Hs Hf.
  induction Hg as [|frow prow fabric' print' Hrow _ IH]; [done|].
  apply Forall_cons in Hall as [Hr Hall]. simpl. f_equal; [|by apply IH].
  clear -Hrow Hr. induction Hrow as [|fp pp frow prow _ _ IH]; [done|].
  apply Forall_cons in Hr as [-> Hr]. simpl. f_equal. by apply IH.
Qed.

(** X7. Multiply at full opacity never brightens: every output channel is at
    most the fabric's and at most the print's.  A white print leaves the
    fabric unchanged and a black print gives black. *)
Theorem multiply_full_opacity h w (fabric print_img : raster) :
  0 < h → 0 < w → has_shape h w 3 fabric → has_shape h w 3 print_img →
  uint8_raster fabric → uint8_raster print_img →
  (∃ out, blend_images fabric print_img "multiply" 1 = Some out ∧
          channelwise Z.le out fabric ∧ channelwise Z.le out print_img) ∧
  blend_images fabric (solid h w [255; 255; 255]%Z) "multiply" 1 = Some fabric ∧
  blend_images fabric (solid h w [0; 0; 0]%Z) "multiply" 1 =
    Some (solid h w [0; 0; 0]%Z).
Proof.
  intros Hh Hw Hf Hp Uf Up. split; [|split].
  - eexists. split; [by apply (blend_images_full h w)|]. split.
    + apply (channelwise_fabric h w); try done. intros f p Bf Bp.
      pose proof (mode_facts_spec f p Bf Bp) as (H & _). lia.
    + apply (channelwise_print h w); try done. intros f p Bf Bp.
      pose proof (mode_facts_spec f p Bf Bp) as (H & _). lia.
  - rewrite (blend_images_solid h w fabric 255 "multiply" (λ fp, fp));
      try done.
    + f_equal. apply (pointwise_fst 3).
      apply (same_grid_of_shape h w); [done|apply (solid_shape h w [_; _; _])].
    + intros f0 f1 f2 B0 B1 B2.
      pose proof (mode_facts_spec f0 255 B0 ltac:(done)) as (_ & _ & _ & _ & H0 & _).
      pose proof (mode_facts_spec f1 255 B1 ltac:(done)) as (_ & _ & _ & _ & H1 & _).
      pose proof (mode_facts_spec f2 255 B2 ltac:(done)) as (_ & _ & _ & _ & H2 & _).
      destruct (H0 eq_refl) as [-> _]. destruct (H1 eq_refl) as [-> _].
      by destruct (H2 eq_refl) as [-> _].
  - rewrite (blend_images_solid h w fabric 0 "multiply" (λ _, [0; 0; 0]%Z));
      try done.
    + f_equal. by apply pointwise_solid_print.
    + intros f0 f1 f2 B0 B1 B2.
      pose proof (mode_facts_spec f0 0 B0 ltac:(done)) as (_ & _ & _ & _ & _ & H0 & _).
      pose proof (mode_facts_spec f1 0 B1 ltac:(done)) as (_ & _ & _ & _ & _ & H1 & _).
      pose proof (mode_facts_spec f2 0 B2 ltac:(done)) as (_ & _ & _ & _ & _ & H2 & _).
      by rewrite (H0 eq_refl), (H1 eq_refl), (H2 eq_refl).
Qed.

Lemma multiply_full_opacity_witness :
  (∃ out, blend_images [[[200; 16; 255]]]%Z [[[100; 250; 3]]]%Z "multiply" 1 =
            Some out ∧
          channelwise Z.le out [[[200; 16; 255]]]%Z ∧
          channelwise Z.le out [[[100; 250; 3]]]%Z) ∧
  blend_images [[[200; 16; 255]]]%Z (solid 1 1 [255; 255; 255]%Z) "multiply" 1 =
    Some [[[200; 16; 255]]]%Z ∧
  blend_images [[[200; 16; 255]]]%Z (solid 1 1 [0; 0; 0]%Z) "multiply" 1 =
    Some (solid 1 1 [0; 0; 0]%Z).
Proof.
  apply (multiply_full_opacity 1 1 [[[200; 16; 255]]]%Z [[[100; 250; 3]]]%Z);
    try lia.
  - split; [done|]. repeat constructor.
  - split; [done|]. repeat constructor.
  - repeat constructor; unfold is_uint8; lia.
  - repeat constructor; unfold is_uint8; lia.
Defined.

(** X8. Screen at full opacity never darkens by more than one level: every
    output channel is at least the fabric's and the print's, less one (the
    8-bit conversion truncates).  A white print gives white; a black print
    can lower a channel by one. *)
Theorem screen_full_opacity h w (fabric print_img : raster) :
  0 < h → 0 < w → has_shape h w 3 fabric → has_shape h w 3 print_img →
  uint8_raster fabric → uint8_raster print_img →
  (∃ out, blend_images fabric print_img "screen" 1 = Some out ∧
          channelwise (λ o f, f - 1 ≤ o)%Z out fabric ∧
          channelwise (λ o p, p - 1 ≤ o)%Z out print_img) ∧
  blend_images fabric (solid h w [255; 255; 255]%Z) "screen" 1 =
    Some (solid h w [255; 255; 255]%Z) ∧
  blend_images [[[1; 1; 1]]]%Z [[[0; 0; 0]]]%Z "screen" 1 =
    Some [[[0; 0; 0]]]%Z.
Proof.
  intros Hh Hw Hf Hp Uf Up. split; [|split].
  - eexists. split; [by apply (blend_images_full h w)|]. split.
    + apply (channelwise_fabric h w); try done. intros f p Bf Bp.
      pose proof (mode_facts_spec f p Bf Bp) as (_ & H & _). lia.
    + apply (channelwise_print h w); try done. intros f p Bf Bp.
      pose proof (mode_facts_spec f p Bf Bp) as (_ & H & _). lia.
  - rewrite (blend_images_solid h w fabric 255 "screen"
               (λ _, [255; 255; 255]%Z)); try done.
    + f_equal. by apply pointwise_solid_print.
    + intros f0 f1 f2 B0 B1 B2.
      pose proof (mode_facts_spec f0 255 B0 ltac:(done)) as (_ & _ & _ & _ & H0 & _).
      pose proof (mode_facts_spec f1 255 B1 ltac:(done)) as (_ & _ & _ & _ & H1 & _).
      pose proof (mode_facts_spec f2 255 B2 ltac:(done)) as (_ & _ & _ & _ & H2 & _).
      destruct (H0 eq_refl) as [_ ->]. destruct (H1 eq_refl) as [_ ->].
      by destruct (H2 eq_refl) as [_ ->].
  - by vm_compute.
Qed.

Lemma screen_full_opacity_witness :
  (∃ out, blend_images [[[200; 16; 255]]]%Z [[[100; 250; 3]]]%Z "screen" 1 =
            Some out ∧
          channelwise (λ o f, f - 1 ≤ o)%Z out [[[200; 16; 255]]]%Z ∧
          channelwise (λ o p, p - 1 ≤ o)%Z out [[[100; 250; 3]]]%Z) ∧
  blend_images [[[200; 16; 255]]]%Z (solid 1 1 [255; 255; 255]%Z) "screen" 1 =
    Some (solid 1 1 [255; 255; 255]%Z) ∧
  blend_images [[[1; 1; 1]]]%Z [[[0; 0; 0]]]%Z "screen" 1 = Some [[[0; 0; 0]]]%Z.
Proof.
  apply (screen_full_opacity 1 1 [[[200; 16; 255]]]%Z [[[100; 250; 3]]]%Z);
    try lia.
  - split; [done|]. repeat constructor.
  - split; [done|]. repeat constructor.
  - repeat constructor; unfold is_uint8; lia.
  - repeat constructor; unfold is_uint8; lia.
Defined.

(** X9. Overlay at full opacity lies between multiply and screen in every
    channel, and keeps the fabric's pure black and pure white channels. *)
Theorem overlay_full_opacity h w (fabric print_img : raster) :
  0 < h → 0 < w → has_shape h w 3 fabric → has_shape h w 3 print_img →
  uint8_raster fabric → uint8_raster print_img →
  ∃ dark out light,
    blend_images fabric print_img "multiply" 1 = Some dark ∧
    blend_images fabric print_img "overlay" 1 = Some out ∧
    blend_images fabric print_img "screen" 1 = Some light ∧
    channelwise Z.le dark out ∧ channelwise Z.le out light ∧
    channelwise (λ o f, (f = 0 → o = 0) ∧ (f = 255 → o = 255))%Z out fabric.
Proof.
  intros Hh Hw Hf Hp Uf Up. eexists _, _, _.
  split; [by apply (blend_images_full h w)|].
  split; [by apply (blend_images_full h w)|].
  split; [by apply (blend_images_full h w)|].
  split; [|split].
  - apply (channelwise_zip h w); try done. intros f p Bf Bp.
    pose proof (mode_facts_spec f p Bf Bp) as (_ & _ & H & _). lia.
  - apply (channelwise_zip h w); try done. intros f p Bf Bp.
    pose proof (mode_facts_spec f p Bf Bp) as (_ & _ & _ & H & _). lia.
  - apply (channelwise_fabric h w); try done. intros f p Bf Bp.
    pose proof (mode_facts_spec f p Bf Bp) as (_ & _ & _ & _ & _ & _ & H0 & H1).
    done.
Qed.

Lemma overlay_full_opacity_witness :
  ∃ dark out light,
    blend_images [[[0; 128; 255]]]%Z [[[100; 250; 3]]]%Z "multiply" 1 = Some dark ∧
    blend_images [[[0; 128; 255]]]%Z [[[100; 250; 3]]]%Z "overlay" 1 = Some out ∧
    blend_images [[[0; 128; 255]]]%Z [[[100; 250; 3]]]%Z "screen" 1 = Some light ∧
    channelwise Z.le dark out ∧ channelwise Z.le out light ∧
    channelwise (λ o f, (f = 0 → o = 0) ∧ (f = 255 → o = 255))%Z out
      [[[0; 128; 255]]]%Z.
Proof.
  apply (overlay_full_opacity 1 1 [[[0; 128; 255]]]%Z [[[100; 250; 3]]]%Z);
    try lia.
  - split; [done|]. repeat constructor.
  - split; [done|]. repeat constructor.
  - repeat constructor; unfold is_uint8; lia.
  - repeat constructor; unfold is_uint8; lia.
Defined.

End BlendModeFacts.

(** ** Where the loaders fail *)

Module LoaderFailures.

Import Loader LoaderFacts.

Lemma bgra2rgba_four (a : raster) :
  all_chans 4 a → is_Some (cvtColor bgra2rgba_px (Some (Arr3 a))).
Proof.
  intros Ha. exists ((λ row : list pixel, swap_rb <$> row) <$> a).
  apply cvtColor_fmap. eapply Forall_impl; [exact Ha|].
  intros row Hrow. simpl. eapply Forall_impl; [exact Hrow|].
  by intros [|b [|g [|r [|? [|? ?]]]]] [=].
Qed.

Section Files.

Variable file : string → option ndarray.
Variable color : string → bgr_image.
Hypothesis Hfiles : ∀ path img, file path = Some img → well_decoded img.

Lemma load_default_is_Some path img :
  file path = Some img →
  is_Some (cvtColor bgr2rgb_px (imread file color path)).
Proof.
  intros Hfile. unfold imread. rewrite Hfile.
  destruct (default_decode_rgb (color path)) as [Hr _]. eexists. exact Hr.
Qed.

Lemma load_fabric_chans path img :
  load_fabric file color path = Some img → all_chans 3 img.
Proof.
  unfold load_fabric, imread. intros Hl.
  destruct (file path) as [src|] eqn:Hfile; [|done]. cbv zeta in Hl.
  destruct (default_decode_rgb (color path)) as [Hr Hout].
  rewrite Hr in Hl. by injection Hl as <-.
Qed.

Lemma load_print_chans path img :
  load_print file color path = Some img → all_chans 3 img ∨ all_chans 4 img.
Proof.
  unfold load_print. destruct (png_branch path).
  - unfold imread_unchanged. intros Hl.
    destruct (file path) as [[a|a]|] eqn:Hfile; try done. simpl in Hl.
    destruct (Hfiles _ _ Hfile) as [H|[H|H]].
    + destruct H as [? _]. lia.
    + rewrite (chans_decoded 3 a H) in Hl. simpl in Hl.
      assert (all_chans 3 a) as Hc by (apply (decoded_pixels _ _ _ H); auto).
      destruct (bgr2rgb_three a Hc) as [Hr Hout]. simpl in Hr.
      rewrite Hr in Hl. injection Hl as <-. by left.
    + rewrite (chans_decoded 4 a H) in Hl. simpl in Hl.
      assert (all_chans 4 a) as Hc by (apply (decoded_pixels _ _ _ H); auto).
      assert (cvtColor bgra2rgba_px (Some (Arr3 a)) =
              Some ((λ row : list pixel, swap_rb <$> row) <$> a)) as Hr.
      { apply cvtColor_fmap. eapply Forall_impl; [exact Hc|].
        intros row Hrow. simpl. eapply Forall_impl; [exact Hrow|].
        by intros [|b [|g [|r [|? [|? ?]]]]] [=]. }
      simpl in Hr. rewrite Hr in Hl. injection Hl as <-. right.
      apply Forall_fmap. eapply Forall_impl; [exact Hc|].
      intros row Hrow. simpl. apply Forall_fmap.
      eapply Forall_impl; [exact Hrow|].
      by intros [|b [|g [|r [|? [|? ?]]]]] [=].
  - intros Hl. left. by apply (load_fabric_chans path).
Qed.

(** X10. Where the loaders fail.  [load_fabric] fails exactly on an unreadable
    path.  [load_print] fails on an unreadable path and, on a path of the PNG
    branch, on a grayscale image: [IMREAD_UNCHANGED] returns it as a 2-D
    array and [shape[2]] does not exist.  The same grayscale file is loaded
    by [load_fabric], with three channels. *)
Theorem loaders_fail_iff (path : string) :
  (load_fabric file color path = None ↔ file path = None) ∧
  (load_print file color path = None ↔
   file path = None ∨
   (png_branch path = true ∧ ∃ a, file path = Some (Arr2 a))) ∧
  (∀ a, file path = Some (Arr2 a) →
        ∃ r, load_fabric file color path = Some r ∧ all_chans 3 r).
Proof.
  split; [|split].
  - unfold load_fabric. split.
    + intros Hnone. destruct (file path) as [img|] eqn:Hfile; [|done].
      destruct (load_default_is_Some path img Hfile) as [r Hr].
      by rewrite Hr in Hnone.
    + intros Hfile. unfold imread. by rewrite Hfile.
  - unfold load_print. split.
    + intros Hnone. destruct (file path) as [img|] eqn:Hfile; [|by left].
      right. destruct (png_branch path) eqn:Hb.
      * split; [done|]. destruct img as [a|a]; [by exists a|]. exfalso.
        unfold imread_unchanged in Hnone. rewrite Hfile in Hnone.
        simpl in Hnone.
        destruct (Hfiles _ _ Hfile) as [H|[H|H]].
        { destruct H as [? _]. lia. }
        { rewrite (chans_decoded 3 a H) in Hnone. simpl in Hnone.
          assert (all_chans 3 a) as Hc by (apply (decoded_pixels _ _ _ H); auto).
          destruct (bgr2rgb_three a Hc) as [Hr _]. simpl in Hr.
          by rewrite Hr in Hnone. }
        { rewrite (chans_decoded 4 a H) in Hnone. simpl in Hnone.
          assert (all_chans 4 a) as Hc by (apply (decoded_pixels _ _ _ H); auto).
          destruct (bgra2rgba_four a Hc) as [r Hr]. simpl in Hr.
          by rewrite Hr in Hnone. }
      * exfalso. destruct (load_default_is_Some path img Hfile) as [r Hr].
        by rewrite Hr in Hnone.
    + intros [Hfile|[Hb (a & Hfile)]].
      * unfold imread_unchanged, imread. rewrite Hfile.
        by destruct (png_branch path).
      * rewrite Hb. unfold imread_unchanged. by rewrite Hfile.
  - intros a Hfile.
    destruct (load_default_is_Some path _ Hfile) as [r Hr].
    exists r. split; [exact Hr|]. by apply (load_fabric_chans path).
Qed.

End Files.

(** A 16-bit grayscale PNG. *)
Lemma loaders_fail_iff_witness :
  (load_fabric (λ _, Some (Arr2 [[65535; 20000]]%Z))
     (λ _, [[(255, 255, 255); (78, 78, 78)]]%Z) "gray.png" = None ↔
   Some (Arr2 [[65535; 20000]]%Z) = None) ∧
  (load_print (λ _, Some (Arr2 [[65535; 20000]]%Z))
     (λ _, [[(255, 255, 255); (78, 78, 78)]]%Z) "gray.png" = None ↔
   Some (Arr2 [[65535; 20000]]%Z) = None ∨
   (png_branch "gray.png" = true ∧
    ∃ a, Some (Arr2 [[65535; 20000]]%Z) = Some (Arr2 a))) ∧
  (∀ a, Some (Arr2 [[65535; 20000]]%Z) = Some (Arr2 a) →
        ∃ r, load_fabric (λ _, Some (Arr2 [[65535; 20000]]%Z))
               (λ _, [[(255, 255, 255); (78, 78, 78)]]%Z) "gray.png" = Some r ∧
             all_chans 3 r).
Proof.
  apply (loaders_fail_iff (λ _, Some (Arr2 [[65535; 20000]]%Z))
           (λ _, [[(255, 255, 255); (78, 78, 78)]]%Z)).
  intros path img [= <-]. by left.
Defined.

End LoaderFailures.

(** ** Sessions of the GUI *)

Module GuiFacts.

Import Loader LoaderFacts Gui.

Section App.

Variable file : string → option ndarray.
Variable color : string → bgr_image.
Variable interp : raster → nat → nat → nat → nat → nat → Z.

Lemma step_consistent s ev :
  consistent file color interp s → consistent file color interp (step file color interp s ev).1.
Proof.
  intros (Hf & Hp & Hr). unfold consistent.
  destruct ev as [path|path|mode o sc|path]; simpl.
  - unfold select_fabric. destruct (String.eqb path ""); [simpl; auto|].
    destruct (load_fabric file color path) as [img|] eqn:Hl; simpl; [|auto].
    split; [|auto]. intros img' [= <-]. by exists path.
  - unfold select_print. destruct (String.eqb path ""); [simpl; auto|].
    destruct (load_print file color path) as [img|] eqn:Hl; simpl; [|auto].
    split; [auto|]. split; [|auto]. intros img' [= <-]. by exists path.
  - unfold generate_fusion.
    destruct (fabric_img s) as [f|] eqn:Ef; [|simpl; rewrite Ef; auto].
    destruct (print_img s) as [p|] eqn:Ep; [|simpl; rewrite Ef, Ep; auto].
    destruct (Fusion.generate_fusion interp f p mode o sc) as [r|] eqn:Eg;
      simpl; rewrite ?Ef, ?Ep; [|auto].
    split; [auto|]. split; [auto|]. intros img [= <-].
    destruct (Hf f eq_refl) as [pf Hpf]. destruct (Hp p eq_refl) as [pp Hpp].
    by exists pf, pp, f, p, mode, o, sc.
  - unfold save_result. destruct (result_img s) eqn:Er;
      [|simpl; rewrite Er; auto].
    destruct (String.eqb path ""); simpl; rewrite Er; auto.
Qed.

Lemma step_saves s ev path img :
  consistent file color interp s →
  SaveFusion path img ∈ (step file color interp s ev).2 →
  path ≠ ""%string ∧ result_img s = Some img.
Proof.
  intros Hs. destruct ev as [p|p|mode o sc|p]; simpl.
  - unfold select_fabric. destruct (String.eqb p ""); simpl.
    + by intros ?%elem_of_nil.
    + destruct (load_fabric file color p); simpl;
        [by intros ?%elem_of_nil|]. by intros [=]%list_elem_of_singleton.
  - unfold select_print. destruct (String.eqb p ""); simpl.
    + by intros ?%elem_of_nil.
    + destruct (load_print file color p); simpl;
        [by intros ?%elem_of_nil|]. by intros [=]%list_elem_of_singleton.
  - unfold generate_fusion.
    destruct (fabric_img s); simpl;
      [|by intros [=]%list_elem_of_singleton].
    destruct (print_img s); simpl;
      [|by intros [=]%list_elem_of_singleton].
    destruct (Fusion.generate_fusion interp _ _ mode o sc); simpl;
      [by intros ?%elem_of_nil|by intros [=]%list_elem_of_singleton].
  - unfold save_result. destruct (result_img s) as [r|] eqn:Er; simpl;
      [|by intros [=]%list_elem_of_singleton].
    destruct (String.eqb_spec p ""); simpl.
    + by intros ?%elem_of_nil.
    + by intros [= <- <-]%list_elem_of_singleton.
Qed.

Lemma run_consistent evs s :
  consistent file color interp s →
  consistent file color interp (run file color interp s evs).1 ∧
  ∀ path img, SaveFusion path img ∈ (run file color interp s evs).2 →
              path ≠ ""%string ∧ generated file color interp img.
Proof.
  revert s. induction evs as [|ev evs IH]; intros s Hs; simpl.
  - split; [done|]. by intros ? ? ?%elem_of_nil.
  - pose proof (step_consistent s ev Hs) as H1.
    pose proof (step_saves s ev) as H2.
    destruct (step file color interp s ev) as [s1 out1]. simpl in *.
    destruct (IH s1 H1) as [H3 H4].
    destruct (run file color interp s1 evs) as [s2 out2]. simpl in *.
    split; [done|]. intros path img [Hin|Hin]%elem_of_app.
    + destruct (H2 path img Hs Hin) as [Hne Hres]. split; [done|].
      by apply Hs.
    + by apply H4.
Qed.

Lemma init_consistent : consistent file color interp init.
Proof. by repeat split. Qed.

(** X11. In every session, whatever the order of the button presses: an image
    stored as the result, and every image handed to [save_fusion], is the
    fusion of a fabric and a print that were loaded from files, and no save
    happens with an empty path.  (The result is not recomputed when another
    fabric or print is selected afterwards.)  In every state, a selection
    whose load fails leaves the three stored images as they were, and a
    fusion that fails leaves the whole state as it was. *)
Theorem session_saves_generated (evs : list event) :
  (∀ img, result_img (run file color interp init evs).1 = Some img →
          generated file color interp img) ∧
  (∀ path img, SaveFusion path img ∈ (run file color interp init evs).2 →
               path ≠ ""%string ∧ generated file color interp img) ∧
  (∀ s path, load_fabric file color path = None →
             same_images s (step file color interp s (SelectFabric path)).1) ∧
  (∀ s path, load_print file color path = None →
             same_images s (step file color interp s (SelectPrint path)).1) ∧
  (∀ s fabric print blend_mode opacity scale,
     fabric_img s = Some fabric → print_img s = Some print →
     Fusion.generate_fusion interp fabric print blend_mode opacity scale =
       None →
     (step file color interp s (GenerateFusion blend_mode opacity scale)).1 =
       s).
Proof.
  destruct (run_consistent evs init init_consistent) as [(_ & _ & Hr) Hs].
  split; [done|]. split; [done|]. split; [|split].
  - intros s path Hl. simpl. unfold select_fabric.
    destruct (String.eqb path ""); [done|]. by rewrite Hl.
  - intros s path Hl. simpl. unfold select_print.
    destruct (String.eqb path ""); [done|]. by rewrite Hl.
  - intros s f p mode o sc Ef Ep Eg. simpl. unfold generate_fusion.
    by rewrite Ef, Ep, Eg.
Qed.

(** X12. When every readable file holds a decoded image, the fabric stored in a
    session always has three channels and the print three or four: the blend
    never receives a fabric with an alpha channel. *)
Theorem session_images_channels (evs : list event) :
  (∀ path img, file path = Some img → well_decoded img) →
  (∀ img, fabric_img (run file color interp init evs).1 = Some img →
          all_chans 3 img) ∧
  (∀ img, print_img (run file color interp init evs).1 = Some img →
          all_chans 3 img ∨ all_chans 4 img).
Proof.
  intros Hfiles.
  destruct (run_consistent evs init init_consistent) as [(Hf & Hp & _) _].
  split.
  - intros img Himg. destruct (Hf img Himg) as [path Hl].
    by apply (LoaderFailures.load_fabric_chans file color path).
  - intros img Himg. destruct (Hp img Himg) as [path Hl].
    by apply (LoaderFailures.load_print_chans file color Hfiles path).
Qed.

End App.

(** A session that loads a colour fabric and an RGBA print. *)
Lemma session_images_channels_witness :
  (∀ img, fabric_img (run (λ _, Some (Arr3 [[[1; 2; 3; 4]]]%Z))
                        (λ _, [[(1, 2, 3)]]%Z) (λ _ _ _ _ _ _, 0%Z) init
                        [SelectFabric "a.jpg"; SelectPrint "b.png"]).1 = Some img →
          all_chans 3 img) ∧
  (∀ img, print_img (run (λ _, Some (Arr3 [[[1; 2; 3; 4]]]%Z))
                       (λ _, [[(1, 2, 3)]]%Z) (λ _ _ _ _ _ _, 0%Z) init
                       [SelectFabric "a.jpg"; SelectPrint "b.png"]).1 = Some img →
          all_chans 3 img ∨ all_chans 4 img).
Proof.
  apply (session_images_channels (λ _, Some (Arr3 [[[1; 2; 3; 4]]]%Z))
           (λ _, [[(1, 2, 3)]]%Z) (λ _ _ _ _ _ _, 0%Z) [SelectFabric "a.jpg"; SelectPrint "b.png"]).
  intros path img [= <-]. right. right.
  split; [lia|]. split; [done|]. repeat constructor; done.
Defined.

End GuiFacts.

(** ** [display_image] *)

Module DisplayFacts.

Import Binary64 Rounding OrderFacts Display.
Local Open Scope Z_scope.







End DisplayFacts.
